(** * HangTime: the aggregation core and its storage contract

    A shallow embedding of [shared/schema.ts], [client/src/lib/utils.ts]
    (both revisions of the best-slot selection), [server/storage.ts] and
    [server/routes.ts], followed by the properties of the specification
    that can be settled on them.

    Conventions.  A JavaScript number that holds a count or a serial
    identifier is a [Z]; [-Infinity], which [Math.max()] yields on an
    empty argument list, is a value of its own.  A [text] column is a
    [string].  Every table is the list of its rows in insertion order. *)

From Stdlib Require Import ZArith List String Ascii Bool Lia.
Import ListNotations.
Local Open Scope string_scope.
Local Open Scope list_scope.
Local Open Scope Z_scope.

(** ** shared/schema.ts *)

Module Event.
(** [events.$inferSelect] *)
Record t := mk {
  id : Z;
  title : string;
  description : option string;
  duration : string;
  shareId : string;
  createdAt : Z
}.
End Event.

Module InsertEvent.
(** [insertEventSchema]: [events] without [id], [shareId], [createdAt]. *)
Record t := mk {
  title : string;
  description : option string;
  duration : string
}.
End InsertEvent.

Module TimeOption.
Record t := mk {
  id : Z;
  eventId : Z;
  date : string;
  startTime : string;
  endTime : string
}.
End TimeOption.

Module TimeOptionDraft.
(** [Omit<InsertTimeOption, "eventId">] *)
Record t := mk {
  date : string;
  startTime : string;
  endTime : string
}.
End TimeOptionDraft.

Module Participant.
Record t := mk {
  id : Z;
  eventId : Z;
  name : string;
  createdAt : Z
}.
End Participant.

Module InsertParticipant.
Record t := mk {
  eventId : Z;
  name : string
}.
End InsertParticipant.

Module Availability.
Record t := mk {
  id : Z;
  participantId : Z;
  timeOptionId : Z;
  status : string
}.
End Availability.

Module AvailabilityDraft.
(** [Omit<InsertAvailability, "participantId">] *)
Record t := mk {
  timeOptionId : Z;
  status : string
}.
End AvailabilityDraft.

Module AvailabilityCount.
Record t := mk {
  available : Z;
  maybe : Z;
  unavailable : Z;
  total : Z
}.
End AvailabilityCount.

Module ParticipantStatus.
Record t := mk {
  id : Z;
  name : string;
  status : string
}.
End ParticipantStatus.

Module TimeOptionWithAvailability.
Record t := mk {
  timeOption : TimeOption.t;
  availabilityCount : AvailabilityCount.t;
  participants : list ParticipantStatus.t
}.
Definition id (o : t) : Z := TimeOption.id (timeOption o).
End TimeOptionWithAvailability.

Module EventWithTimeOptions.
Record t := mk {
  event : Event.t;
  timeOptions : list TimeOption.t
}.
End EventWithTimeOptions.

Module EventWithDetails.
Record t := mk {
  event : Event.t;
  timeOptions : list TimeOptionWithAvailability.t;
  participantCount : Z
}.
End EventWithDetails.

(** ** client/src/lib/utils.ts: best-slot selection *)

Module Utils.
Import TimeOptionWithAvailability.

Definition available (o : t) : Z := AvailabilityCount.available (availabilityCount o).
Definition maybe (o : t) : Z := AvailabilityCount.maybe (availabilityCount o).
Definition total (o : t) : Z := AvailabilityCount.total (availabilityCount o).

(** The result of [Math.max(...xs)]. *)
Inductive number :=
| NegInfinity
| Num (z : Z).

Definition max2 (acc : number) (x : Z) : number :=
  match acc with
  | NegInfinity => Num x
  | Num m => Num (Z.max m x)
  end.

Definition Math_max (xs : list Z) : number := fold_left max2 xs NegInfinity.

(** [x === m] for a count [x] and a result of [Math.max]. *)
Definition strictEq (x : Z) (m : number) : bool :=
  match m with
  | NegInfinity => false
  | Num z => x =? z
  end.

(** The reducer of the single-winner revision. *)
Definition pickBetter (best current : t) : t :=
  let currentAvailable := available current in
  let bestAvailable := available best in
  if currentAvailable >? bestAvailable then current
  else if currentAvailable =? bestAvailable then
    (if maybe current <? maybe best then current else best)
  else best.

(** [Array.prototype.reduce] without an initial value starts from the
    first element. *)
Definition getBestTimeSlot (timeOptions : list t) : option t :=
  match timeOptions with
  | [] => None
  | first :: rest => Some (fold_left pickBetter rest first)
  end.

Definition totalResponses (timeOptions : list t) : Z :=
  fold_left (fun sum option => sum + total option) timeOptions 0.

Definition topAvailableOptions (timeOptions : list t) : list t :=
  let maxAvailable := Math_max (map available timeOptions) in
  filter (fun option => strictEq (available option) maxAvailable) timeOptions.

Definition bestOptions (timeOptions : list t) : list t :=
  let top := topAvailableOptions timeOptions in
  let maxMaybe := Math_max (map maybe top) in
  filter (fun option => strictEq (maybe option) maxMaybe) top.

Definition getBestTimeSlotIds (timeOptions : list t) : list Z :=
  match timeOptions with
  | [] => []
  | _ =>
    if totalResponses timeOptions =? 0 then []
    else map id (bestOptions timeOptions)
  end.
End Utils.

(** ** The database behind [server/db.ts]

    The four tables of [shared/schema.ts] with the sequence behind each
    [serial] column.  The schema declares no foreign key and one
    constraint, the uniqueness of [events.share_id].  Any statement may be
    refused by the database (connectivity, an aborted statement): the
    world carries the schedule of refusals, one entry per statement
    issued, [true] for a refusal; past the end of the schedule every
    statement is served.  [now] is what [defaultNow()] reads. *)

Module Db.
Record Database := mkDatabase {
  events : list Event.t;
  timeOptions : list TimeOption.t;
  participants : list Participant.t;
  availability : list Availability.t;
  events_id_seq : Z;
  time_options_id_seq : Z;
  participants_id_seq : Z;
  availability_id_seq : Z
}.

Definition empty : Database := mkDatabase [] [] [] [] 1 1 1 1.

Record World := mkWorld {
  database : Database;
  faults : list bool;
  now : Z
}.

Inductive Error := ZodError | DatabaseError.

Inductive Result (A : Type) :=
| Ok (a : A)
| Throw (e : Error).
Arguments Ok {A} a.
Arguments Throw {A} e.

(** An [async] computation against the world.  A rejected promise keeps
    the world it was rejected in: what was written before stays. *)
Definition M (A : Type) : Type := World -> Result A * World.

Definition ret {A} (a : A) : M A := fun w => (Ok a, w).
Definition throw {A} (e : Error) : M A := fun w => (Throw e, w).
Definition bind {A B} (c : M A) (k : A -> M B) : M B :=
  fun w =>
    match c w with
    | (Ok a, w') => k a w'
    | (Throw e, w') => (Throw e, w')
    end.
Declare Scope db_scope.
Delimit Scope db_scope with db.
Notation "x <- c ;; k" := (bind c (fun x => k))
  (at level 61, c at next level, right associativity) : db_scope.
Notation "c ;;; k" := (bind c (fun _ => k))
  (at level 61, right associativity) : db_scope.
Local Open Scope db_scope.

(** [for (const x of xs) { ... }] with the loop-carried value [s]. *)
Fixpoint forOf {A S} (xs : list A) (body : A -> S -> M S) (s : S) : M S :=
  match xs with
  | [] => ret s
  | x :: rest => s' <- body x s ;; forOf rest body s'
  end.

(** [Promise.all(xs.map(async x => ...))]: the results in the order of
    [xs]; the callbacks only read, so their interleaving is immaterial
    and they are run in turn. *)
Fixpoint promiseAllMap {A B} (f : A -> M B) (xs : list A) : M (list B) :=
  match xs with
  | [] => ret []
  | x :: rest => y <- f x ;; ys <- promiseAllMap f rest ;; ret (y :: ys)
  end.

(** Every statement starts by reaching the database. *)
Definition statement : M unit :=
  fun w =>
    match faults w with
    | [] => (Ok tt, w)
    | false :: fs => (Ok tt, mkWorld (database w) fs (now w))
    | true :: fs => (Throw DatabaseError, mkWorld (database w) fs (now w))
    end.

Definition read {A} (q : Database -> A) : M A :=
  statement ;;; (fun w => (Ok (q (database w)), w)).

Definition write (f : Database -> Database) : M unit :=
  fun w => (Ok tt, mkWorld (f (database w)) (faults w) (now w)).

Definition getNow : M Z := fun w => (Ok (now w), w).
Definition getDatabase : M Database := fun w => (Ok (database w), w).

(** [db.select().from(events).where(eq(events.shareId, shareId))] *)
Definition selectEventsByShareId (shareId : string) : M (list Event.t) :=
  read (fun d => filter (fun e => String.eqb (Event.shareId e) shareId) (events d)).

Definition selectEventsById (id : Z) : M (list Event.t) :=
  read (fun d => filter (fun e => Event.id e =? id) (events d)).

Definition selectTimeOptionsByEventId (eventId : Z) : M (list TimeOption.t) :=
  read (fun d => filter (fun o => TimeOption.eventId o =? eventId) (timeOptions d)).

Definition selectParticipantsByEventId (eventId : Z) : M (list Participant.t) :=
  read (fun d => filter (fun p => Participant.eventId p =? eventId) (participants d)).

Definition selectParticipantsById (id : Z) : M (list Participant.t) :=
  read (fun d => filter (fun p => Participant.id p =? id) (participants d)).

Definition selectAvailabilityByTimeOptionId (timeOptionId : Z) : M (list Availability.t) :=
  read (fun d => filter (fun a => Availability.timeOptionId a =? timeOptionId) (availability d)).

(** The tables after a row, or the rows of one statement, went in: the
    rows are appended and the sequence of the table moves on. *)
Definition addEvent (row : Event.t) (d : Database) : Database :=
  mkDatabase (events d ++ [row]) (timeOptions d) (participants d) (availability d)
    (events_id_seq d + 1) (time_options_id_seq d) (participants_id_seq d)
    (availability_id_seq d).

Definition addTimeOption (row : TimeOption.t) (d : Database) : Database :=
  mkDatabase (events d) (timeOptions d ++ [row]) (participants d) (availability d)
    (events_id_seq d) (time_options_id_seq d + 1) (participants_id_seq d)
    (availability_id_seq d).

Definition addParticipant (row : Participant.t) (d : Database) : Database :=
  mkDatabase (events d) (timeOptions d) (participants d ++ [row]) (availability d)
    (events_id_seq d) (time_options_id_seq d) (participants_id_seq d + 1)
    (availability_id_seq d).

Definition addAvailability (rows : list Availability.t) (d : Database) : Database :=
  mkDatabase (events d) (timeOptions d) (participants d) (availability d ++ rows)
    (events_id_seq d) (time_options_id_seq d) (participants_id_seq d)
    (availability_id_seq d + Z.of_nat (List.length rows)).

Definition removeAvailabilityOf (participantId : Z) (d : Database) : Database :=
  mkDatabase (events d) (timeOptions d) (participants d)
    (filter (fun a => negb (Availability.participantId a =? participantId))
       (availability d))
    (events_id_seq d) (time_options_id_seq d) (participants_id_seq d)
    (availability_id_seq d).

Definition shareIdTaken (shareId : string) (d : Database) : bool :=
  existsb (fun e => String.eqb (Event.shareId e) shareId) (events d).

(** [db.insert(events).values({...}).returning()]; refused when the
    share identifier is taken ([share_id] is [unique]). *)
Definition insertEvent (title : string) (description : option string)
    (duration shareId : string) : M Event.t :=
  statement ;;;
  d <- getDatabase ;;
  createdAt <- getNow ;;
  if shareIdTaken shareId d then throw DatabaseError
  else
    let row := Event.mk (events_id_seq d) title description duration shareId createdAt in
    write (addEvent row) ;;;
    ret row.

(** [db.insert(timeOptions).values({...timeOption, eventId}).returning()] *)
Definition insertTimeOption (eventId : Z) (o : TimeOptionDraft.t) : M TimeOption.t :=
  statement ;;;
  d <- getDatabase ;;
  let row := TimeOption.mk (time_options_id_seq d) eventId (TimeOptionDraft.date o)
               (TimeOptionDraft.startTime o) (TimeOptionDraft.endTime o) in
  write (addTimeOption row) ;;;
  ret row.

(** [db.insert(participants).values(participant).returning()] *)
Definition insertParticipant (p : InsertParticipant.t) : M Participant.t :=
  statement ;;;
  d <- getDatabase ;;
  createdAt <- getNow ;;
  let row := Participant.mk (participants_id_seq d) (InsertParticipant.eventId p)
               (InsertParticipant.name p) createdAt in
  write (addParticipant row) ;;;
  ret row.

(** The rows of one multi-row [insert], numbered from [seq] on. *)
Fixpoint numberRows (seq participantId : Z) (items : list AvailabilityDraft.t)
    : list Availability.t :=
  match items with
  | [] => []
  | item :: rest =>
    Availability.mk seq participantId (AvailabilityDraft.timeOptionId item)
      (AvailabilityDraft.status item) :: numberRows (seq + 1) participantId rest
  end.

(** [db.insert(availability).values(rows)]: one statement for all rows. *)
Definition insertAvailability (participantId : Z) (items : list AvailabilityDraft.t)
    : M unit :=
  statement ;;;
  d <- getDatabase ;;
  write (addAvailability (numberRows (availability_id_seq d) participantId items)).

(** [db.delete(availability).where(eq(availability.participantId, participantId))] *)
Definition deleteAvailabilityByParticipantId (participantId : Z) : M unit :=
  statement ;;;
  write (removeAvailabilityOf participantId).
End Db.

(** ** server/storage.ts: [DatabaseStorage] *)

Module Storage.
Import Db.
Local Open Scope db_scope.

(** [x || null] on an optional text: the empty string is falsy. *)
Definition orNull (x : option string) : option string :=
  match x with
  | Some s => if String.eqb s "" then None else Some s
  | None => None
  end.

(** [createEvent]; [shareId] is what [nanoid(10)] returned. *)
Definition createEvent (shareId : string) (event : InsertEvent.t)
    (timeOptionsList : list TimeOptionDraft.t) : M EventWithTimeOptions.t :=
  newEvent <- insertEvent (InsertEvent.title event)
                (orNull (InsertEvent.description event))
                (InsertEvent.duration event) shareId ;;
  createdTimeOptions <-
    forOf timeOptionsList
      (fun timeOption createdTimeOptions =>
         newTimeOption <- insertTimeOption (Event.id newEvent) timeOption ;;
         ret (createdTimeOptions ++ [newTimeOption]))
      [] ;;
  ret (EventWithTimeOptions.mk newEvent createdTimeOptions).

Definition getEvent (id : Z) : M (option Event.t) :=
  rows <- selectEventsById id ;;
  ret (hd_error rows).

Definition countStatus (label : string) (availabilityData : list Availability.t) : Z :=
  Z.of_nat (List.length
    (filter (fun a => String.eqb (Availability.status a) label) availabilityData)).

(** The [availabilityCount] object literal of [getEventByShareId]. *)
Definition availabilityCount (availabilityData : list Availability.t)
    : AvailabilityCount.t :=
  AvailabilityCount.mk
    (countStatus "available" availabilityData)
    (countStatus "maybe" availabilityData)
    (countStatus "unavailable" availabilityData)
    (Z.of_nat (List.length availabilityData)).

(** [participant?.name || "Unknown"] *)
Definition nameOrUnknown (rows : list Participant.t) : string :=
  match rows with
  | participant :: _ =>
    if String.eqb (Participant.name participant) "" then "Unknown"
    else Participant.name participant
  | [] => "Unknown"
  end.

Definition participantWithStatus (a : Availability.t) : M ParticipantStatus.t :=
  rows <- selectParticipantsById (Availability.participantId a) ;;
  ret (ParticipantStatus.mk (Availability.participantId a) (nameOrUnknown rows)
         (Availability.status a)).

Definition getEventByShareId (shareId : string) : M (option EventWithDetails.t) :=
  rows <- selectEventsByShareId shareId ;;
  match rows with
  | [] => ret None
  | event :: _ =>
    eventTimeOptions <- selectTimeOptionsByEventId (Event.id event) ;;
    eventParticipants <- selectParticipantsByEventId (Event.id event) ;;
    timeOptionsWithAvailability <-
      forOf eventTimeOptions
        (fun timeOption timeOptionsWithAvailability =>
           availabilityData <- selectAvailabilityByTimeOptionId (TimeOption.id timeOption) ;;
           participantsWithStatus <- promiseAllMap participantWithStatus availabilityData ;;
           ret (timeOptionsWithAvailability ++
                [TimeOptionWithAvailability.mk timeOption
                   (availabilityCount availabilityData) participantsWithStatus]))
        [] ;;
    ret (Some (EventWithDetails.mk event timeOptionsWithAvailability
                 (Z.of_nat (List.length eventParticipants))))
  end.

Definition createParticipant (participant : InsertParticipant.t) : M Participant.t :=
  insertParticipant participant.

Definition getParticipantsByEventId (eventId : Z) : M (list Participant.t) :=
  selectParticipantsByEventId eventId.

Definition setAvailability (participantId : Z)
    (availabilityList : list AvailabilityDraft.t) : M unit :=
  deleteAvailabilityByParticipantId participantId ;;;
  if (0 <? Z.of_nat (List.length availabilityList))
  then insertAvailability participantId availabilityList
  else ret tt.

Definition getAvailabilityByTimeOption (timeOptionId : Z) : M (list Availability.t) :=
  selectAvailabilityByTimeOptionId timeOptionId.
End Storage.

(** ** Request bodies and the zod schemas of [server/routes.ts] *)

Module Zod.
(** A parsed request body.  Numbers are the integers; an object is read
    by the first field of the name asked for. *)
#[local] Set Warnings "-register-all".
Inductive json :=
| JNull
| JBool (b : bool)
| JNumber (z : Z)
| JString (s : string)
| JArray (items : list json)
| JObject (fields : list (string * json)).

(** A schema: [None] is a thrown [ZodError]. *)
Definition schema (A : Type) : Type := option json -> option A.

Definition z_string : schema string :=
  fun j => match j with Some (JString s) => Some s | _ => None end.

Definition z_number : schema Z :=
  fun j => match j with Some (JNumber z) => Some z | _ => None end.

(** [z.enum([...])] *)
Definition z_enum (labels : list string) : schema string :=
  fun j =>
    match j with
    | Some (JString s) => if existsb (String.eqb s) labels then Some s else None
    | _ => None
    end.

(** [s.nullable().optional()], with [null] and [undefined] both read
    back as an absent value. *)
Definition z_nullish {A} (s : schema A) : schema (option A) :=
  fun j =>
    match j with
    | None | Some JNull => Some None
    | Some _ => match s j with Some a => Some (Some a) | None => None end
    end.

Fixpoint parseAll {A} (s : schema A) (items : list json) : option (list A) :=
  match items with
  | [] => Some []
  | item :: rest =>
    match s (Some item), parseAll s rest with
    | Some a, Some l => Some (a :: l)
    | _, _ => None
    end
  end.

(** [z.array(s)]: any length, the empty array included. *)
Definition z_array {A} (s : schema A) : schema (list A) :=
  fun j => match j with Some (JArray items) => parseAll s items | _ => None end.

Fixpoint lookup (name : string) (fields : list (string * json)) : option json :=
  match fields with
  | [] => None
  | (k, v) :: rest => if String.eqb k name then Some v else lookup name rest
  end.

(** The field [name] of an object, [undefined] when it is missing;
    anything but an object fails the enclosing [z.object]. *)
Definition field (name : string) (j : option json) : option (option json) :=
  match j with
  | Some (JObject fields) => Some (lookup name fields)
  | _ => None
  end.

Definition andThen {A B} (x : option A) (k : A -> option B) : option B :=
  match x with Some a => k a | None => None end.

(** [insertEventSchema] *)
Definition insertEventSchema : schema InsertEvent.t :=
  fun j =>
    andThen (field "title" j) (fun t =>
    andThen (z_string t) (fun title =>
    andThen (field "description" j) (fun d =>
    andThen (z_nullish z_string d) (fun description =>
    andThen (field "duration" j) (fun u =>
    andThen (z_string u) (fun duration =>
    Some (InsertEvent.mk title description duration))))))).

Definition timeOptionSchema : schema TimeOptionDraft.t :=
  fun j =>
    andThen (field "date" j) (fun d =>
    andThen (z_string d) (fun date =>
    andThen (field "startTime" j) (fun s =>
    andThen (z_string s) (fun startTime =>
    andThen (field "endTime" j) (fun e =>
    andThen (z_string e) (fun endTime =>
    Some (TimeOptionDraft.mk date startTime endTime))))))).

Definition createEventRequestSchema
    : schema (InsertEvent.t * list TimeOptionDraft.t) :=
  fun j =>
    andThen (field "event" j) (fun e =>
    andThen (insertEventSchema e) (fun event =>
    andThen (field "timeOptions" j) (fun t =>
    andThen (z_array timeOptionSchema t) (fun timeOptions =>
    Some (event, timeOptions))))).

Definition statusLabels : list string := ["available"; "maybe"; "unavailable"].

Definition availabilityItemSchema : schema AvailabilityDraft.t :=
  fun j =>
    andThen (field "timeOptionId" j) (fun t =>
    andThen (z_number t) (fun timeOptionId =>
    andThen (field "status" j) (fun s =>
    andThen (z_enum statusLabels s) (fun status =>
    Some (AvailabilityDraft.mk timeOptionId status))))).

(** [insertParticipantSchema.omit({ eventId: true })] *)
Definition participantSchema : schema string :=
  fun j => andThen (field "name" j) z_string.

Definition participateRequestSchema : schema (string * list AvailabilityDraft.t) :=
  fun j =>
    andThen (field "participant" j) (fun p =>
    andThen (participantSchema p) (fun name =>
    andThen (field "availability" j) (fun a =>
    andThen (z_array availabilityItemSchema a) (fun availability =>
    Some (name, availability))))).

(** [schema.parse(req.body)] *)
Definition parse {A} (s : schema A) (body : json) : Db.M A :=
  match s (Some body) with
  | Some a => Db.ret a
  | None => Db.throw Db.ZodError
  end.
End Zod.

(** ** server/routes.ts: the three handlers *)

Module Routes.
Import Db.
Local Open Scope db_scope.

Inductive Body :=
| CreatedEvent (createdEvent : EventWithTimeOptions.t)
| EventDetails (event : EventWithDetails.t)
| Success (participantId : Z)
| ErrorBody (error : string).

Record Response := mkResponse {
  status : Z;
  body : Body
}.

(** [res.json(b)] answers 200 unless [res.status(n)] came first. *)
Definition res_json (b : Body) : Response := mkResponse 200 b.
Definition res_status_json (n : Z) (b : Body) : Response := mkResponse n b.

(** [try { ... } catch (error) { res.status(n).json({ error }) }] around
    a whole handler. *)
Definition handler (c : M Response) (onError : Response) : World -> Response * World :=
  fun w =>
    match c w with
    | (Ok r, w') => (r, w')
    | (Throw _, w') => (onError, w')
    end.

(** [POST /api/events]; [nanoid] is the identifier drawn by [createEvent]. *)
Definition postEvent (nanoid : string) (reqBody : Zod.json) : World -> Response * World :=
  handler
    (parsed <- Zod.parse Zod.createEventRequestSchema reqBody ;;
     let '(event, timeOptions) := parsed in
     createdEvent <- Storage.createEvent nanoid event timeOptions ;;
     ret (res_json (CreatedEvent createdEvent)))
    (res_status_json 400 (ErrorBody "Invalid request data")).

(** [GET /api/events/:shareId] *)
Definition getEvent (shareId : string) : World -> Response * World :=
  handler
    (event <- Storage.getEventByShareId shareId ;;
     match event with
     | None => ret (res_status_json 404 (ErrorBody "Event not found"))
     | Some event => ret (res_json (EventDetails event))
     end)
    (res_status_json 500 (ErrorBody "Internal server error")).

Section Participate.
(** [String.prototype.toLowerCase] *)
Variable toLowerCase : string -> string.

Definition sameName (name : string) (p : Participant.t) : bool :=
  String.eqb (toLowerCase (Participant.name p)) (toLowerCase name).

(** The body of the participate handler once the request is parsed. *)
Definition participate (shareId name : string)
    (availability : list AvailabilityDraft.t) : M Response :=
  event <- Storage.getEventByShareId shareId ;;
  match event with
  | None => ret (res_status_json 404 (ErrorBody "Event not found"))
  | Some event =>
    let eventId := Event.id (EventWithDetails.event event) in
    existingParticipants <- Storage.getParticipantsByEventId eventId ;;
    let existingParticipant := find (sameName name) existingParticipants in
    participantId <-
      match existingParticipant with
      | Some existingParticipant => ret (Participant.id existingParticipant)
      | None =>
        newParticipant <- Storage.createParticipant (InsertParticipant.mk eventId name) ;;
        ret (Participant.id newParticipant)
      end ;;
    Storage.setAvailability participantId availability ;;;
    ret (res_json (Success participantId))
  end.

(** [POST /api/events/:shareId/participate] *)
Definition postParticipate (shareId : string) (reqBody : Zod.json)
    : World -> Response * World :=
  handler
    (parsed <- Zod.parse Zod.participateRequestSchema reqBody ;;
     let '(name, availability) := parsed in
     participate shareId name availability)
    (res_status_json 400 (ErrorBody "Invalid request data")).

Inductive Request :=
| PostEvent (nanoid : string) (reqBody : Zod.json)
| GetEvent (shareId : string)
| PostParticipate (shareId : string) (reqBody : Zod.json).

Definition serve (r : Request) : World -> Response * World :=
  match r with
  | PostEvent nanoid reqBody => postEvent nanoid reqBody
  | GetEvent shareId => getEvent shareId
  | PostParticipate shareId reqBody => postParticipate shareId reqBody
  end.

(** The databases the server can be in when it starts empty and
    serves requests among the [admitted] ones, whatever the refusals
    and the clock. *)
Inductive reachableBy (admitted : Request -> Prop) : Database -> Prop :=
| reachable_empty : reachableBy admitted Db.empty
| reachable_serve d r faults now :
    admitted r ->
    reachableBy admitted d ->
    reachableBy admitted (database (snd (serve r (mkWorld d faults now)))).

Definition reachable : Database -> Prop := reachableBy (fun _ => True).

(** [evolves d d']: the server gets from [d] to [d'] by serving requests. *)
Inductive evolves (d : Database) : Database -> Prop :=
| evolves_refl : evolves d d
| evolves_serve d' r faults now :
    evolves d d' ->
    evolves d (database (snd (serve r (mkWorld d' faults now)))).
End Participate.
End Routes.

(** Lower-casing of the ASCII letters, the instance of [toLowerCase] the
    examples run with. *)
Module JsString.
Definition lowerChar (c : ascii) : ascii :=
  let n := nat_of_ascii c in
  if (Nat.leb 65 n && Nat.leb n 90)%bool then ascii_of_nat (n + 32) else c.

Fixpoint toLowerCase (s : string) : string :=
  match s with
  | EmptyString => EmptyString
  | String c rest => String (lowerChar c) (toLowerCase rest)
  end.
End JsString.

(** * Properties *)

(** ** Best-slot selection *)

Module UtilsFacts.
Import Utils.
Import TimeOptionWithAvailability.

(** The words of the specification. *)
Definition MaxAvailable (l : list t) (o : t) : Prop :=
  forall o', In o' l -> available o' <= available o.


(** [o] is the first option of [l] that has the least [maybe] among
    the options of the greatest [available]. *)
Definition FirstMinMaybeAtTop (l : list t) (o : t) : Prop :=
  exists before after,
    l = before ++ o :: after /\
    MaxAvailable l o /\
    (forall o', In o' l -> available o' = available o -> maybe o <= maybe o') /\
    (forall o', In o' before -> available o' = available o -> maybe o < maybe o').

(** Nobody has responded to [o]: a well-formed tally whose total is 0. *)
Definition NobodyResponded (o : t) : Prop :=
  let c := availabilityCount o in
  0 <= AvailabilityCount.available c /\
  0 <= AvailabilityCount.maybe c /\
  0 <= AvailabilityCount.unavailable c /\
  AvailabilityCount.total c =
    AvailabilityCount.available c + AvailabilityCount.maybe c
    + AvailabilityCount.unavailable c /\
  AvailabilityCount.total c = 0.

Lemma fold_max2_Num (xs : list Z) (a : Z) :
  exists m, fold_left max2 xs (Num a) = Num m /\
            (m = a \/ In m xs) /\ a <= m /\ (forall x, In x xs -> x <= m).
Proof.
  revert a. induction xs as [|x xs IH]; intros a; simpl.
  - exists a. repeat split; auto; try lia.
  - destruct (IH (Z.max a x)) as (m & Hf & Hin & Hle & Hub).
    exists m. split; [exact Hf|]. split; [|split].
    + destruct Hin as [->|Hin]; [|auto].
      destruct (Z.max_spec a x) as [[_ ->]|[_ ->]]; auto.
    + lia.
    + intros y [<-|Hy]; [lia | auto].
Qed.

Lemma Math_max_spec (xs : list Z) :
  xs <> [] ->
  exists m, Math_max xs = Num m /\ In m xs /\ (forall x, In x xs -> x <= m).
Proof.
  destruct xs as [|x xs]; [congruence|]. intros _.
  unfold Math_max. simpl.
  destruct (fold_max2_Num xs x) as (m & Hf & Hin & Hle & Hub).
  exists m. split; [exact Hf|]. split.
  - destruct Hin as [->|Hin]; [left; reflexivity | right; exact Hin].
  - intros y [<-|Hy]; [exact Hle | auto].
Qed.

Lemma filter_filter {A} (f g : A -> bool) (l : list A) :
  filter g (filter f l) = filter (fun x => f x && g x) l.
Proof.
  induction l as [|x l IH]; simpl; [reflexivity|].
  destruct (f x); simpl; [destruct (g x)|]; rewrite IH; reflexivity.
Qed.

Lemma topAvailableOptions_spec (l : list t) :
  l <> [] ->
  exists m, Math_max (map available l) = Num m /\
    (exists o, In o l /\ available o = m) /\
    (forall o, In o l -> available o <= m).
Proof.
  intros Hl.
  destruct (Math_max_spec (map available l)) as (m & Hm & Hin & Hub).
  { destruct l; [congruence | discriminate]. }
  exists m. split; [exact Hm|]. split.
  - apply in_map_iff in Hin. destruct Hin as (o & Ho & Hin). eauto.
  - intros o Ho. apply Hub. apply in_map. exact Ho.
Qed.

Lemma totalResponses_shift (l : list t) (a : Z) :
  fold_left (fun sum option => sum + total option) l a
  = a + fold_left (fun sum option => sum + total option) l 0.
Proof.
  revert a. induction l as [|o l IH]; intros a; simpl; [lia|].
  rewrite (IH (a + total o)), (IH (total o)). lia.
Qed.

Lemma pickBetter_step (l : list t) (o c : t) :
  FirstMinMaybeAtTop l o -> FirstMinMaybeAtTop (l ++ [c]) (pickBetter o c).
Proof.
  intros (before & after & Hl & Hmax & Hmin & Hfirst).
  unfold pickBetter.
  destruct (Z.gtb_spec (available c) (available o)) as [Hgt|Hle].
  - exists l, []. split; [reflexivity|]. split; [|split].
    + intros o' Ho'. apply in_app_or in Ho'. destruct Ho' as [Ho'|[<-|[]]].
      * specialize (Hmax o' Ho'). lia.
      * lia.
    + intros o' Ho' He. apply in_app_or in Ho'. destruct Ho' as [Ho'|[<-|[]]].
      * specialize (Hmax o' Ho'). lia.
      * lia.
    + intros o' Ho' He. specialize (Hmax o' Ho'). lia.
  - destruct (Z.eqb_spec (available c) (available o)) as [Heq|Hne].
    + destruct (Z.ltb_spec (maybe c) (maybe o)) as [Hlt|Hge].
      * exists l, []. split; [reflexivity|]. split; [|split].
        -- intros o' Ho'. apply in_app_or in Ho'. destruct Ho' as [Ho'|[<-|[]]].
           ++ specialize (Hmax o' Ho'). lia.
           ++ lia.
        -- intros o' Ho' He. apply in_app_or in Ho'. destruct Ho' as [Ho'|[<-|[]]].
           ++ assert (available o' = available o) as He' by lia.
              specialize (Hmin o' Ho' He'). lia.
           ++ lia.
        -- intros o' Ho' He.
           assert (available o' = available o) as He' by lia.
           specialize (Hmin o' Ho' He'). lia.
      * exists before, (after ++ [c]). split; [|split; [|split]].
        -- rewrite Hl, <- app_assoc. reflexivity.
        -- intros o' Ho'. apply in_app_or in Ho'. destruct Ho' as [Ho'|[<-|[]]].
           ++ auto.
           ++ lia.
        -- intros o' Ho' He. apply in_app_or in Ho'. destruct Ho' as [Ho'|[<-|[]]].
           ++ auto.
           ++ lia.
        -- exact Hfirst.
    + exists before, (after ++ [c]). split; [|split; [|split]].
      * rewrite Hl, <- app_assoc. reflexivity.
      * intros o' Ho'. apply in_app_or in Ho'. destruct Ho' as [Ho'|[<-|[]]].
        -- auto.
        -- lia.
      * intros o' Ho' He. apply in_app_or in Ho'. destruct Ho' as [Ho'|[<-|[]]].
        -- auto.
        -- lia.
      * exact Hfirst.
Qed.

Lemma pickBetter_fold (rest l : list t) (o : t) :
  FirstMinMaybeAtTop l o ->
  FirstMinMaybeAtTop (l ++ rest) (fold_left pickBetter rest o).
Proof.
  revert l o. induction rest as [|c rest IH]; intros l o H; simpl.
  - rewrite app_nil_r. exact H.
  - replace (l ++ c :: rest) with ((l ++ [c]) ++ rest)
      by (rewrite <- app_assoc; reflexivity).
    apply IH, pickBetter_step, H.
Qed.

Lemma FirstMinMaybeAtTop_single (o : t) : FirstMinMaybeAtTop [o] o.
Proof.
  exists [], []. split; [reflexivity|]. split; [|split].
  - intros o' [<-|[]]. lia.
  - intros o' [<-|[]] _. lia.
  - intros o' [].
Qed.

Lemma NobodyResponded_zero (o : t) :
  NobodyResponded o -> available o = 0 /\ maybe o = 0 /\ total o = 0.
Proof. unfold NobodyResponded, available, maybe, total. simpl. lia. Qed.

Lemma pickBetter_all_zero (rest : list t) (first : t) :
  available first = 0 -> maybe first = 0 ->
  Forall NobodyResponded rest ->
  fold_left pickBetter rest first = first.
Proof.
  intros Ha Hm H. induction H as [|c rest Hc _ IH]; simpl; [reflexivity|].
  apply NobodyResponded_zero in Hc. destruct Hc as (Hca & Hcm & _).
  unfold pickBetter at 2. rewrite Hca, Ha, Hcm, Hm. simpl. exact IH.
Qed.

Lemma totalResponses_all_zero (l : list t) :
  Forall NobodyResponded l -> totalResponses l = 0.
Proof.
  unfold totalResponses. intros H. induction H as [|o l Ho _ IH]; simpl; [reflexivity|].
  apply NobodyResponded_zero in Ho. destruct Ho as (_ & _ & Ht).
  rewrite totalResponses_shift, IH. lia.
Qed.
(** An aggregated option with the given identifier and tallies, for the
    examples. *)
Definition tallied (i a m u : Z) : t :=
  mk (TimeOption.mk i 1 "2024-06-01" "12:00" "13:00")
     (AvailabilityCount.mk a m u (a + m + u)) [].


(** C3. On a non-empty list the single-winner selection returns the
    option that appears first with the least [maybe] among the options of
    the greatest [available]. *)
Theorem getBestTimeSlot_first_min_maybe (l : list t) :
  l <> [] ->
  exists o, getBestTimeSlot l = Some o /\ FirstMinMaybeAtTop l o.
Proof.
  destruct l as [|first rest]; [congruence|]. intros _.
  exists (fold_left pickBetter rest first). split; [reflexivity|].
  apply (pickBetter_fold rest [first] first), FirstMinMaybeAtTop_single.
Qed.

(** C4. The two selections disagree on some list: the single winner is
    not among the identifiers the set-returning selection recommends. *)
Theorem selections_not_equivalent :
  exists l o,
    getBestTimeSlot l = Some o /\
    getBestTimeSlotIds l <> [] /\
    ~ In (id o) (getBestTimeSlotIds l).
Proof.
  exists [tallied 1 3 1 0; tallied 2 3 2 0; tallied 3 2 5 0], (tallied 1 3 1 0).
  split; [reflexivity|]. split.
  - vm_compute. discriminate.
  - vm_compute. intros [H|[]]. discriminate H.
Qed.

(** C10. On a non-empty list the single-winner selection always returns
    an option; when nobody has responded to any option it returns the
    first one, where the set-returning selection recommends nothing. *)
Theorem getBestTimeSlot_nobody_responded (l : list t) :
  l <> [] ->
  exists o,
    getBestTimeSlot l = Some o /\
    (Forall NobodyResponded l ->
     hd_error l = Some o /\ getBestTimeSlotIds l = []).
Proof.
  destruct l as [|first rest]; [congruence|]. intros _.
  exists (fold_left pickBetter rest first). split; [reflexivity|].
  intros Hall. split.
  - simpl. f_equal. symmetry.
    inversion Hall as [|? ? Hfirst Hrest]; subst.
    apply NobodyResponded_zero in Hfirst. destruct Hfirst as (Ha & Hm & _).
    apply pickBetter_all_zero; assumption.
  - unfold getBestTimeSlotIds.
    rewrite (totalResponses_all_zero _ Hall). reflexivity.
Qed.
End UtilsFacts.

(** ** Reasoning about computations against the world *)

Module DbFacts.
Import Db.
Local Open Scope db_scope.

(** [run c w Q]: the outcome of [c] started in [w] satisfies [Q]. *)
Definition run {A} (c : M A) (w : World) (Q : Result A -> World -> Prop) : Prop :=
  Q (fst (c w)) (snd (c w)).

Lemma run_weaken {A} (c : M A) (w : World) (Q Q' : Result A -> World -> Prop) :
  run c w Q -> (forall r w', Q r w' -> Q' r w') -> run c w Q'.
Proof. unfold run. auto. Qed.

Lemma run_ret {A} (a : A) (w : World) (Q : Result A -> World -> Prop) :
  Q (Ok a) w -> run (ret a) w Q.
Proof. exact (fun H => H). Qed.

Lemma run_bind {A B} (c : M A) (k : A -> M B) (w : World)
    (Q : Result B -> World -> Prop) :
  run c w (fun r w1 =>
             match r with
             | Ok a => run (k a) w1 Q
             | Throw e => Q (Throw e) w1
             end) ->
  run (bind c k) w Q.
Proof. unfold run, bind. destruct (c w) as [[a|e] w1]; simpl; auto. Qed.

Lemma run_statement (w : World) (Q : Result unit -> World -> Prop) :
  (forall fs, Q (Ok tt) (mkWorld (database w) fs (now w))) ->
  (forall fs, Q (Throw DatabaseError) (mkWorld (database w) fs (now w))) ->
  run statement w Q.
Proof.
  intros Hok Hthrow. unfold run, statement.
  destruct w as [d fs n]. destruct fs as [|[|] fs]; simpl; auto.
Qed.

Lemma run_read {A} (q : Database -> A) (w : World) (Q : Result A -> World -> Prop) :
  (forall fs, Q (Ok (q (database w))) (mkWorld (database w) fs (now w))) ->
  (forall fs, Q (Throw DatabaseError) (mkWorld (database w) fs (now w))) ->
  run (read q) w Q.
Proof.
  intros Hok Hthrow. unfold read. apply run_bind, run_statement; auto.
Qed.

(** With no refusal scheduled a statement is served and the world is
    left as it was. *)
Lemma read_served {A} (q : Database -> A) (d : Database) (n : Z) :
  read q (mkWorld d [] n) = (Ok (q d), mkWorld d [] n).
Proof. reflexivity. Qed.

(** What a computation that only reads guarantees. *)
Definition Reads {A} (c : M A) (value : Database -> A -> Prop) : Prop :=
  forall w,
    run c w (fun r w' =>
               database w' = database w /\ now w' = now w /\
               match r with
               | Ok a => value (database w) a
               | Throw e => e = DatabaseError
               end).

Lemma Reads_read {A} (q : Database -> A) : Reads (read q) (fun d a => a = q d).
Proof. intros w. apply run_read; intros fs; simpl; auto. Qed.

Lemma Reads_ret {A} (a : A) : Reads (ret a) (fun _ a' => a' = a).
Proof. intros w. apply run_ret. auto. Qed.

Lemma Reads_bind {A B} (c : M A) (k : A -> M B) (P : Database -> A -> Prop)
    (Q : Database -> B -> Prop) :
  Reads c P ->
  (forall a, Reads (k a) (fun d b => P d a -> Q d b)) ->
  Reads (bind c k) Q.
Proof.
  intros Hc Hk w. apply run_bind. eapply run_weaken; [apply Hc|].
  intros [a|e] w1 (Hd & Hn & Hv).
  - eapply run_weaken; [apply Hk|]. intros [b|e] w2 (Hd2 & Hn2 & Hv2).
    + rewrite Hd2, Hn2, Hd, Hn. rewrite Hd in Hv2. auto.
    + rewrite Hd2, Hn2, Hd, Hn. auto.
  - auto.
Qed.

Lemma Reads_weaken {A} (c : M A) (P Q : Database -> A -> Prop) :
  Reads c P -> (forall d a, P d a -> Q d a) -> Reads c Q.
Proof.
  intros Hc HPQ w. eapply run_weaken; [apply Hc|].
  intros [a|e] w' (Hd & Hn & Hv); auto.
Qed.

Lemma Reads_promiseAllMap {A B} (f : A -> M B) (g : Database -> A -> B) (xs : list A) :
  (forall x, Reads (f x) (fun d b => b = g d x)) ->
  Reads (promiseAllMap f xs) (fun d ys => ys = map (g d) xs).
Proof.
  intros Hf. induction xs as [|x xs IH]; simpl.
  - apply Reads_ret.
  - eapply Reads_bind; [apply Hf|]. intros y.
    eapply Reads_bind; [apply IH|]. intros ys.
    eapply Reads_weaken; [apply Reads_ret|].
    intros d l -> -> ->. reflexivity.
Qed.

(** A loop that appends one value computed from the database per
    element. *)
Lemma Reads_forOf_append {A B} (body : A -> list B -> M (list B))
    (g : Database -> A -> B) (xs : list A) (acc : list B) :
  (forall x acc, Reads (body x acc) (fun d res => res = acc ++ [g d x])) ->
  Reads (forOf xs body acc) (fun d res => res = acc ++ map (g d) xs).
Proof.
  intros Hbody. revert acc. induction xs as [|x xs IH]; intros acc; simpl.
  - eapply Reads_weaken; [apply Reads_ret|].
    intros d l ->. rewrite app_nil_r. reflexivity.
  - eapply Reads_bind; [apply Hbody|].
    intros acc'. eapply Reads_weaken; [apply IH|].
    intros d res -> ->. rewrite <- app_assoc. reflexivity.
Qed.

Lemma promiseAllMap_served {A B} (f : A -> M B) (g : A -> B) (xs : list A) (w : World) :
  (forall x, f x w = (Ok (g x), w)) ->
  promiseAllMap f xs w = (Ok (map g xs), w).
Proof.
  intros Hf. induction xs as [|x xs IH]; simpl; [reflexivity|].
  unfold bind. rewrite Hf, IH. reflexivity.
Qed.

Lemma forOf_append_served {A B} (body : A -> list B -> M (list B)) (g : A -> B)
    (xs : list A) (acc : list B) (w : World) :
  (forall x acc, body x acc w = (Ok (acc ++ [g x]), w)) ->
  forOf xs body acc w = (Ok (acc ++ map g xs), w).
Proof.
  intros Hbody. revert acc. induction xs as [|x xs IH]; intros acc; simpl.
  - rewrite app_nil_r. reflexivity.
  - unfold bind. rewrite Hbody, IH, <- app_assoc. reflexivity.
Qed.
End DbFacts.

(** ** Aggregation and lookup: [getEventByShareId] *)

Module StorageFacts.
Import Db DbFacts Storage.
Local Open Scope db_scope.

(** What [getEventByShareId] computes, as functions of the database. *)
Definition eventsWithShareId (d : Database) (shareId : string) : list Event.t :=
  filter (fun e => String.eqb (Event.shareId e) shareId) (events d).

Definition responsesOf (d : Database) (timeOptionId : Z) : list Availability.t :=
  filter (fun a => Availability.timeOptionId a =? timeOptionId) (availability d).

Definition statusOf (d : Database) (a : Availability.t) : ParticipantStatus.t :=
  ParticipantStatus.mk (Availability.participantId a)
    (nameOrUnknown
       (filter (fun p => Participant.id p =? Availability.participantId a)
          (participants d)))
    (Availability.status a).

Definition aggregate (d : Database) (timeOption : TimeOption.t)
    : TimeOptionWithAvailability.t :=
  let availabilityData := responsesOf d (TimeOption.id timeOption) in
  TimeOptionWithAvailability.mk timeOption (availabilityCount availabilityData)
    (map (statusOf d) availabilityData).

Definition detailsOf (d : Database) (event : Event.t) : EventWithDetails.t :=
  EventWithDetails.mk event
    (map (aggregate d)
       (filter (fun o => TimeOption.eventId o =? Event.id event) (timeOptions d)))
    (Z.of_nat (List.length
       (filter (fun p => Participant.eventId p =? Event.id event) (participants d)))).

Definition lookupByShareId (d : Database) (shareId : string)
    : option EventWithDetails.t :=
  option_map (detailsOf d) (hd_error (eventsWithShareId d shareId)).

Lemma participantWithStatus_reads (a : Availability.t) :
  Reads (participantWithStatus a) (fun d s => s = statusOf d a).
Proof.
  unfold participantWithStatus, selectParticipantsById.
  eapply Reads_bind; [apply Reads_read|]. intros rows.
  eapply Reads_weaken; [apply Reads_ret|].
  intros d s -> ->. reflexivity.
Qed.

Lemma getEventByShareId_reads (shareId : string) :
  Reads (getEventByShareId shareId) (fun d r => r = lookupByShareId d shareId).
Proof.
  unfold getEventByShareId, lookupByShareId, selectEventsByShareId.
  eapply Reads_bind; [apply Reads_read|]. intros rows.
  destruct rows as [|event rest].
  - eapply Reads_weaken; [apply Reads_ret|].
    intros d r -> E. unfold eventsWithShareId. rewrite <- E. reflexivity.
  - unfold selectTimeOptionsByEventId, selectParticipantsByEventId.
    eapply Reads_bind; [apply Reads_read|]. intros eventTimeOptions.
    eapply Reads_bind; [apply Reads_read|]. intros eventParticipants.
    eapply Reads_bind.
    + apply Reads_forOf_append with (g := aggregate).
      intros timeOption acc. unfold selectAvailabilityByTimeOptionId.
      eapply Reads_bind; [apply Reads_read|]. intros availabilityData.
      eapply Reads_bind;
        [apply Reads_promiseAllMap with (g := statusOf), participantWithStatus_reads|].
      intros ps. eapply Reads_weaken; [apply Reads_ret|].
      intros d l -> -> ->. reflexivity.
    + intros l. eapply Reads_weaken; [apply Reads_ret|].
      intros d r -> -> -> -> E. unfold eventsWithShareId. rewrite <- E. reflexivity.
Qed.

Lemma getEventByShareId_served (shareId : string) (d : Database) (n : Z) :
  getEventByShareId shareId (mkWorld d [] n)
  = (Ok (lookupByShareId d shareId), mkWorld d [] n).
Proof.
  unfold getEventByShareId, lookupByShareId, eventsWithShareId, selectEventsByShareId.
  unfold bind at 1. rewrite read_served.
  destruct (filter _ (events d)) as [|event rest]; [reflexivity|].
  unfold selectTimeOptionsByEventId, selectParticipantsByEventId.
  unfold bind at 1. rewrite read_served.
  unfold bind at 1. rewrite read_served.
  unfold bind at 1.
  rewrite forOf_append_served with (g := aggregate d); [reflexivity|].
  intros timeOption acc. unfold selectAvailabilityByTimeOptionId.
  unfold bind at 1. rewrite read_served.
  unfold bind at 1.
  rewrite promiseAllMap_served with (g := statusOf d); [reflexivity|].
  intros a. reflexivity.
Qed.
(** A response whose status is one of the three labels the participate
    schema admits. *)
Definition KnownStatus (a : Availability.t) : Prop :=
  In (Availability.status a) Zod.statusLabels.

(** The number of responses that carry exactly the status [label]. *)
Definition occurrences (label : string) (responses : list Availability.t) : Z :=
  Z.of_nat (count_occ string_dec (map Availability.status responses) label).

Definition Tallies (responses : list Availability.t) (c : AvailabilityCount.t) : Prop :=
  AvailabilityCount.total c
    = AvailabilityCount.available c + AvailabilityCount.maybe c
      + AvailabilityCount.unavailable c /\
  AvailabilityCount.available c = occurrences "available" responses /\
  AvailabilityCount.maybe c = occurrences "maybe" responses /\
  AvailabilityCount.unavailable c = occurrences "unavailable" responses.

Lemma countStatus_occurrences (label : string) (responses : list Availability.t) :
  countStatus label responses = occurrences label responses.
Proof.
  unfold countStatus, occurrences. f_equal.
  induction responses as [|a l IH]; simpl; [reflexivity|].
  destruct (String.eqb_spec (Availability.status a) label) as [E|N];
    destruct (string_dec (Availability.status a) label) as [E'|N'];
    try contradiction; simpl; rewrite IH; reflexivity.
Qed.

Lemma length_by_status (responses : list Availability.t) :
  Forall KnownStatus responses ->
  Z.of_nat (List.length responses)
  = countStatus "available" responses + countStatus "maybe" responses
    + countStatus "unavailable" responses.
Proof.
  unfold countStatus. intros H. induction H as [|a l Ha _ IH]; [reflexivity|].
  cbn [List.length filter].
  destruct Ha as [E|[E|[E|[]]]]; rewrite <- E; cbn [String.eqb Ascii.eqb Bool.eqb];
    cbn [List.length]; lia.
Qed.

Lemma availabilityCount_tallies (responses : list Availability.t) :
  Forall KnownStatus responses -> Tallies responses (availabilityCount responses).
Proof.
  intros H. unfold Tallies, availabilityCount. simpl.
  rewrite <- !countStatus_occurrences. split; [|auto].
  apply length_by_status, H.
Qed.

Lemma lookupByShareId_Some (d : Database) (shareId : string) (details : EventWithDetails.t) :
  lookupByShareId d shareId = Some details ->
  exists event,
    details = detailsOf d event /\ In event (events d) /\ Event.shareId event = shareId.
Proof.
  unfold lookupByShareId, eventsWithShareId. intros H.
  destruct (filter _ (events d)) as [|event rest] eqn:E; [discriminate|].
  simpl in H. injection H as <-. exists event. split; [reflexivity|].
  assert (In event (filter (fun e => String.eqb (Event.shareId e) shareId) (events d)))
    as Hin by (rewrite E; left; reflexivity).
  apply filter_In in Hin. destruct Hin as [Hin Hs].
  apply String.eqb_eq in Hs. auto.
Qed.

Lemma lookupByShareId_None (d : Database) (shareId : string) :
  (forall e, In e (events d) -> Event.shareId e <> shareId) ->
  lookupByShareId d shareId = None.
Proof.
  unfold lookupByShareId, eventsWithShareId. intros H.
  destruct (filter _ (events d)) as [|event rest] eqn:E; [reflexivity|].
  assert (In event (filter (fun e => String.eqb (Event.shareId e) shareId) (events d)))
    as Hin by (rewrite E; left; reflexivity).
  apply filter_In in Hin. destruct Hin as [Hin Hs].
  apply String.eqb_eq in Hs. destruct (H event Hin Hs).
Qed.

Lemma lookupByShareId_issued (d : Database) (shareId : string) :
  (exists e, In e (events d) /\ Event.shareId e = shareId) ->
  exists details, lookupByShareId d shareId = Some details.
Proof.
  unfold lookupByShareId, eventsWithShareId. intros (e & Hin & Hs).
  destruct (filter _ (events d)) as [|event rest] eqn:E.
  - assert (In e (filter (fun e => String.eqb (Event.shareId e) shareId) (events d)))
      as Hf by (apply filter_In; split; [exact Hin | apply String.eqb_eq, Hs]).
    rewrite E in Hf. destruct Hf.
  - eexists. reflexivity.
Qed.

Lemma getEventByShareId_outcome (shareId : string) (w : World) :
  fst (getEventByShareId shareId w) = Ok (lookupByShareId (database w) shareId) \/
  fst (getEventByShareId shareId w) = Throw DatabaseError.
Proof.
  pose proof (getEventByShareId_reads shareId w) as H. unfold run in H.
  destruct (fst (getEventByShareId shareId w)) as [r|e];
    destruct H as (_ & _ & ->); auto.
Qed.


Lemma Routes_getEvent_eq (shareId : string) (w : World) :
  fst (Routes.getEvent shareId w)
  = match fst (getEventByShareId shareId w) with
    | Ok None => Routes.res_status_json 404 (Routes.ErrorBody "Event not found")
    | Ok (Some event) => Routes.res_json (Routes.EventDetails event)
    | Throw _ => Routes.res_status_json 500 (Routes.ErrorBody "Internal server error")
    end.
Proof.
  unfold Routes.getEvent, Routes.handler, bind.
  destruct (getEventByShareId shareId w) as [[[event|]|e] w']; reflexivity.
Qed.

(** C2. Whenever every stored response carries one of the three status
    labels, each aggregated option that [getEventByShareId] returns has a
    tally whose total is the number of the option's responses and the sum
    of the three buckets, each bucket being the number of those responses
    with exactly that status string. *)
Theorem availabilityCount_aggregation (d : Database) (faults : list bool) (now : Z)
    (shareId : string) (details : EventWithDetails.t) :
  Forall KnownStatus (availability d) ->
  fst (getEventByShareId shareId (mkWorld d faults now)) = Ok (Some details) ->
  Forall (fun o =>
            let responses := responsesOf d (TimeOptionWithAvailability.id o) in
            let c := TimeOptionWithAvailability.availabilityCount o in
            AvailabilityCount.total c = Z.of_nat (List.length responses) /\
            Tallies responses c)
         (EventWithDetails.timeOptions details).
Proof.
  intros Hknown Hrun.
  destruct (getEventByShareId_outcome shareId (mkWorld d faults now)) as [E|E];
    rewrite E in Hrun; [|discriminate].
  injection Hrun as Hrun. simpl in Hrun.
  apply lookupByShareId_Some in Hrun. destruct Hrun as (event & -> & _ & _).
  simpl. apply Forall_forall. intros o Ho.
  apply in_map_iff in Ho. destruct Ho as (timeOption & <- & _).
  split; [reflexivity|].
  apply availabilityCount_tallies.
  unfold responsesOf. simpl.
  apply Forall_forall. intros a Ha. apply filter_In in Ha.
  rewrite Forall_forall in Hknown. apply Hknown, Ha.
Qed.

End StorageFacts.

(** ** Event creation: [createEvent] and [POST /api/events] *)

Module CreateEventFacts.
Import Db DbFacts Storage.
Local Open Scope db_scope.

Definition draftOf (o : TimeOption.t) : TimeOptionDraft.t :=
  TimeOptionDraft.mk (TimeOption.date o) (TimeOption.startTime o) (TimeOption.endTime o).

(** The rows that consecutive inserts of [drafts] produce from [seq] on. *)
Fixpoint numberOptions (seq eventId : Z) (drafts : list TimeOptionDraft.t)
    : list TimeOption.t :=
  match drafts with
  | [] => []
  | o :: rest =>
    TimeOption.mk seq eventId (TimeOptionDraft.date o) (TimeOptionDraft.startTime o)
      (TimeOptionDraft.endTime o) :: numberOptions (seq + 1) eventId rest
  end.

Definition addTimeOptions (rows : list TimeOption.t) (d : Database) : Database :=
  fold_left (fun d row => addTimeOption row d) rows d.

(** The event row [createEvent] inserts. *)
Definition eventRow (shareId : string) (event : InsertEvent.t) (d : Database) (now : Z)
    : Event.t :=
  Event.mk (events_id_seq d) (InsertEvent.title event)
    (orNull (InsertEvent.description event)) (InsertEvent.duration event) shareId now.

(** The claim of atomicity, as the specification words it: a failure
    leaves no new event row with fewer time options than were submitted. *)
Definition PartialEvent (before after : Database) (drafts : list TimeOptionDraft.t)
    : Prop :=
  exists e,
    In e (events after) /\ ~ In e (events before) /\
    (List.length (filter (fun o => (TimeOption.eventId o =? Event.id e)%Z) (timeOptions after))
     < List.length drafts)%nat.

Definition Persisted (before after : Database) (created : EventWithTimeOptions.t)
    (drafts : list TimeOptionDraft.t) : Prop :=
  let e := EventWithTimeOptions.event created in
  let rows := EventWithTimeOptions.timeOptions created in
  events after = events before ++ [e] /\
  timeOptions after = timeOptions before ++ rows /\
  map draftOf rows = drafts /\
  Forall (fun o => TimeOption.eventId o = Event.id e) rows.

Definition AllOrNothing (shareId : string) (event : InsertEvent.t)
    (drafts : list TimeOptionDraft.t) (w : World) : Prop :=
  match createEvent shareId event drafts w with
  | (Ok created, w') => Persisted (database w) (database w') created drafts
  | (Throw _, w') => ~ PartialEvent (database w) (database w') drafts
  end.

Lemma addTimeOptions_tables (rows : list TimeOption.t) (d : Database) :
  events (addTimeOptions rows d) = events d /\
  timeOptions (addTimeOptions rows d) = timeOptions d ++ rows /\
  participants (addTimeOptions rows d) = participants d /\
  availability (addTimeOptions rows d) = availability d /\
  time_options_id_seq (addTimeOptions rows d)
    = time_options_id_seq d + Z.of_nat (List.length rows).
Proof.
  unfold addTimeOptions. revert d.
  induction rows as [|row rows IH]; intros d; simpl.
  - rewrite app_nil_r. repeat split; lia.
  - destruct (IH (addTimeOption row d)) as (He & Ht & Hp & Ha & Hs).
    rewrite He, Ht, Hp, Ha, Hs. simpl. rewrite <- app_assoc.
    repeat split; lia.
Qed.

Lemma numberOptions_drafts (seq eventId : Z) (drafts : list TimeOptionDraft.t) :
  map draftOf (numberOptions seq eventId drafts) = drafts /\
  Forall (fun o => TimeOption.eventId o = eventId) (numberOptions seq eventId drafts) /\
  List.length (numberOptions seq eventId drafts) = List.length drafts.
Proof.
  revert seq. induction drafts as [|o rest IH]; intros seq; simpl; [auto|].
  destruct (IH (seq + 1)) as (Hm & Hf & Hl). rewrite Hm, Hl.
  split; [destruct o; reflexivity|]. split; [constructor; auto | reflexivity].
Qed.

Lemma run_insertEvent (title : string) (description : option string)
    (duration shareId : string) (w : World) (Q : Result Event.t -> World -> Prop) :
  let d := database w in
  let row := Event.mk (events_id_seq d) title description duration shareId (now w) in
  (forall fs, Q (Throw DatabaseError) (mkWorld d fs (now w))) ->
  (forall fs, shareIdTaken shareId d = false ->
              Q (Ok row) (mkWorld (addEvent row d) fs (now w))) ->
  run (insertEvent title description duration shareId) w Q.
Proof.
  intros d row Hthrow Hok. unfold insertEvent.
  apply run_bind, run_statement; [|exact Hthrow].
  intros fs. unfold run, bind, getDatabase, getNow. simpl. fold d.
  destruct (shareIdTaken shareId d) eqn:E; simpl; auto.
Qed.

Lemma run_insertTimeOption (eventId : Z) (o : TimeOptionDraft.t) (w : World)
    (Q : Result TimeOption.t -> World -> Prop) :
  let d := database w in
  let row := TimeOption.mk (time_options_id_seq d) eventId (TimeOptionDraft.date o)
               (TimeOptionDraft.startTime o) (TimeOptionDraft.endTime o) in
  (forall fs, Q (Throw DatabaseError) (mkWorld d fs (now w))) ->
  (forall fs, Q (Ok row) (mkWorld (addTimeOption row d) fs (now w))) ->
  run (insertTimeOption eventId o) w Q.
Proof.
  intros d row Hthrow Hok. unfold insertTimeOption.
  apply run_bind, run_statement; [|exact Hthrow].
  intros fs. exact (Hok fs).
Qed.

(** The loop of [createEvent]: it stops at the first refused insert and
    leaves the [k] rows inserted before it. *)
Definition LoopOutcome (eventId : Z) (drafts : list TimeOptionDraft.t)
    (acc : list TimeOption.t) (w : World) (r : Result (list TimeOption.t)) (w' : World)
    : Prop :=
  let d := database w in
  now w' = now w /\
  exists k,
    (k <= List.length drafts)%nat /\
    database w'
      = addTimeOptions (numberOptions (time_options_id_seq d) eventId (firstn k drafts)) d /\
    match r with
    | Ok created =>
      k = List.length drafts /\
      created = acc ++ numberOptions (time_options_id_seq d) eventId drafts
    | Throw e => e = DatabaseError /\ (k < List.length drafts)%nat
    end.

Lemma run_createEvent_loop (eventId : Z) (drafts : list TimeOptionDraft.t)
    (acc : list TimeOption.t) (w : World) :
  run (forOf drafts
         (fun timeOption createdTimeOptions =>
            newTimeOption <- insertTimeOption eventId timeOption ;;
            ret (createdTimeOptions ++ [newTimeOption]))
         acc)
      w (LoopOutcome eventId drafts acc w).
Proof.
  revert acc w. induction drafts as [|o rest IH]; intros acc w.
  - simpl. apply run_ret. split; [reflexivity|]. exists 0%nat. simpl.
    rewrite app_nil_r. auto.
  - cbn [forOf]. apply run_bind, run_bind, run_insertTimeOption.
    + intros fs. split; [reflexivity|]. exists 0%nat. simpl.
      repeat split; try lia.
    + intros fs. apply run_ret.
      eapply run_weaken; [apply IH|].
      intros r w' (Hn & k & Hk & Hd & Hr). simpl in Hn, Hd.
      split; [exact Hn|]. exists (S k). simpl.
      split; [lia|]. split; [exact Hd|].
      destruct r as [created|e].
      * destruct Hr as [-> ->]. rewrite <- app_assoc. auto.
      * destruct Hr as [-> Hlt]. split; [reflexivity | lia].
Qed.

Definition CreateOutcome (shareId : string) (event : InsertEvent.t)
    (drafts : list TimeOptionDraft.t) (w : World)
    (r : Result EventWithTimeOptions.t) (w' : World) : Prop :=
  let d := database w in
  let row := eventRow shareId event d (now w) in
  now w' = now w /\
  ((r = Throw DatabaseError /\ database w' = d) \/
   (shareIdTaken shareId d = false /\
    exists k,
      (k <= List.length drafts)%nat /\
      database w'
        = addTimeOptions
            (numberOptions (time_options_id_seq d) (Event.id row) (firstn k drafts))
            (addEvent row d) /\
      match r with
      | Ok created =>
        k = List.length drafts /\
        created = EventWithTimeOptions.mk row
                    (numberOptions (time_options_id_seq d) (Event.id row) drafts)
      | Throw e => e = DatabaseError /\ (k < List.length drafts)%nat
      end)).

Lemma run_createEvent (shareId : string) (event : InsertEvent.t)
    (drafts : list TimeOptionDraft.t) (w : World) :
  run (createEvent shareId event drafts) w (CreateOutcome shareId event drafts w).
Proof.
  unfold createEvent. apply run_bind, run_insertEvent.
  - intros fs. split; [reflexivity|]. left. auto.
  - intros fs Hfree. apply run_bind.
    eapply run_weaken; [apply run_createEvent_loop|].
    intros r w' (Hn & k & Hk & Hd & Hr). simpl in Hn, Hd.
    destruct r as [created|e].
    + destruct Hr as [-> ->]. apply run_ret.
      split; [exact Hn|]. right. split; [exact Hfree|].
      exists (List.length drafts). split; [lia|]. split; [exact Hd|]. auto.
    + destruct Hr as [-> Hlt]. split; [exact Hn|]. right. split; [exact Hfree|].
      exists k. split; [lia|]. split; [exact Hd|]. auto.
Qed.
Lemma createEvent_loop_served (eventId : Z) (drafts : list TimeOptionDraft.t)
    (acc : list TimeOption.t) (d : Database) (n : Z) :
  forOf drafts
    (fun timeOption createdTimeOptions =>
       newTimeOption <- insertTimeOption eventId timeOption ;;
       ret (createdTimeOptions ++ [newTimeOption]))
    acc (mkWorld d [] n)
  = (Ok (acc ++ numberOptions (time_options_id_seq d) eventId drafts),
     mkWorld (addTimeOptions (numberOptions (time_options_id_seq d) eventId drafts) d) [] n).
Proof.
  revert acc d. induction drafts as [|o rest IH]; intros acc d.
  - simpl. rewrite app_nil_r. reflexivity.
  - cbn [forOf]. unfold bind at 1. unfold bind at 1. simpl.
    rewrite IH. simpl. rewrite <- app_assoc. reflexivity.
Qed.

Lemma insertEvent_served (title : string) (description : option string)
    (duration shareId : string) (d : Database) (n : Z) :
  insertEvent title description duration shareId (mkWorld d [] n)
  = if shareIdTaken shareId d then (Throw DatabaseError, mkWorld d [] n)
    else let row := Event.mk (events_id_seq d) title description duration shareId n in
         (Ok row, mkWorld (addEvent row d) [] n).
Proof.
  unfold insertEvent, bind, statement, getDatabase, getNow, write, ret, throw.
  cbn [faults database now]. destruct (shareIdTaken shareId d); reflexivity.
Qed.

Lemma createEvent_served (shareId : string) (event : InsertEvent.t)
    (drafts : list TimeOptionDraft.t) (d : Database) (n : Z) :
  shareIdTaken shareId d = false ->
  let row := eventRow shareId event d n in
  let rows := numberOptions (time_options_id_seq d) (Event.id row) drafts in
  createEvent shareId event drafts (mkWorld d [] n)
  = (Ok (EventWithTimeOptions.mk row rows),
     mkWorld (addTimeOptions rows (addEvent row d)) [] n).
Proof.
  intros Hfree row rows. unfold createEvent.
  unfold bind at 1. rewrite insertEvent_served, Hfree.
  unfold bind at 1. rewrite createEvent_loop_served. reflexivity.
Qed.

(** The rows left by a refused [createEvent]: the event row with the
    first [k] of the time options. *)
Definition PersistedPrefix (before after : Database) (k : nat)
    (drafts : list TimeOptionDraft.t) : Prop :=
  exists e rows,
    events after = events before ++ [e] /\
    timeOptions after = timeOptions before ++ rows /\
    map draftOf rows = firstn k drafts /\
    Forall (fun o => TimeOption.eventId o = Event.id e) rows.

(** C5, as amended. [createEvent] inserts the event row and then the
    time options one statement at a time, in input order and tagged with
    the new event's identifier, outside any transaction.  When every
    statement is served the event and all its time options are persisted
    and returned in input order, and this is what happens when nothing is
    refused and the share identifier is free.  When a statement is refused
    the caller observes the failure and what was inserted before it stays:
    nothing, or the event row with a proper prefix of the time options. *)
Theorem createEvent_sequential (shareId : string) (event : InsertEvent.t)
    (drafts : list TimeOptionDraft.t) (w : World) :
  match createEvent shareId event drafts w with
  | (Ok created, w') => Persisted (database w) (database w') created drafts
  | (Throw _, w') =>
    database w' = database w \/
    exists k, (k < List.length drafts)%nat /\
              PersistedPrefix (database w) (database w') k drafts
  end /\
  (faults w = [] -> shareIdTaken shareId (database w) = false ->
   exists created, fst (createEvent shareId event drafts w) = Ok created).
Proof.
  split.
  - pose proof (run_createEvent shareId event drafts w) as H. unfold run in H.
    destruct (createEvent shareId event drafts w) as [r w']. simpl in H.
    destruct H as (_ & [[-> Hd]|(_ & k & Hk & Hd & Hr)]).
    + left. exact Hd.
    + set (row := eventRow shareId event (database w) (now w)) in *.
      set (seq := time_options_id_seq (database w)) in *.
      destruct (addTimeOptions_tables
                  (numberOptions seq (Event.id row) (firstn k drafts))
                  (addEvent row (database w))) as (He & Ht & _).
      destruct (numberOptions_drafts seq (Event.id row) (firstn k drafts))
        as (Hm & Hf & _).
      destruct r as [created|e].
      * destruct Hr as [-> ->]. rewrite firstn_all in *.
        unfold Persisted. simpl. rewrite Hd, He, Ht. auto.
      * destruct Hr as [_ Hlt]. right. exists k. split; [exact Hlt|].
        exists row, (numberOptions seq (Event.id row) (firstn k drafts)).
        rewrite Hd, He, Ht. auto.
  - intros Hf Hfree. destruct w as [d fs n]. simpl in Hf, Hfree. subst fs.
    rewrite (createEvent_served shareId event drafts d n Hfree).
    eexists. reflexivity.
Qed.

(** The request of the examples. *)
Definition lunch : InsertEvent.t := InsertEvent.mk "Lunch" None "1 hour".
Definition noon1 : TimeOptionDraft.t := TimeOptionDraft.mk "2024-06-01" "12:00" "13:00".
Definition noon2 : TimeOptionDraft.t := TimeOptionDraft.mk "2024-06-02" "12:00" "13:00".

(** C5, as stated, fails: when the insert of the second of two time
    options is refused, the caller observes a failure while the event row
    and the first time option stay persisted. *)
Lemma createEvent_not_all_or_nothing :
  ~ AllOrNothing "V1StGXR8_Z" lunch [noon1; noon2]
      (mkWorld Db.empty [false; false; true] 0).
Proof.
  unfold AllOrNothing. simpl. intros H. apply H.
  exists (Event.mk 1 "Lunch" None "1 hour" "V1StGXR8_Z" 0). simpl.
  split; [left; reflexivity|]. split; [intros []|lia].
Qed.

(** C8, at the failing input: a create-event request with an empty
    [timeOptions] array passes the request schema, and the event is
    created with no time option and answered with 200. *)
Theorem postEvent_accepts_empty_timeOptions (title duration nanoid : string) (now : Z) :
  let reqBody :=
    Zod.JObject [("event", Zod.JObject [("title", Zod.JString title);
                                        ("duration", Zod.JString duration)]);
                 ("timeOptions", Zod.JArray [])] in
  let row := Event.mk 1 title None duration nanoid now in
  Zod.createEventRequestSchema (Some reqBody)
    = Some (InsertEvent.mk title None duration, []) /\
  Routes.postEvent nanoid reqBody (mkWorld Db.empty [] now)
    = (Routes.res_json (Routes.CreatedEvent (EventWithTimeOptions.mk row [])),
       mkWorld (addEvent row Db.empty) [] now).
Proof. split; reflexivity. Qed.
End CreateEventFacts.

(** ** Participation: [POST /api/events/:shareId/participate] *)

Module ParticipateFacts.
Import Db DbFacts Storage StorageFacts.
Local Open Scope db_scope.

Definition draftOfResponse (a : Availability.t) : AvailabilityDraft.t :=
  AvailabilityDraft.mk (Availability.timeOptionId a) (Availability.status a).

(** The stored responses of one participant. *)
Definition responsesBy (d : Database) (participantId : Z) : list Availability.t :=
  filter (fun a => Availability.participantId a =? participantId) (availability d).

(** The tables after [setAvailability] went through. *)
Definition replaceAvailability (participantId : Z)
    (availabilityList : list AvailabilityDraft.t) (d : Database) : Database :=
  match availabilityList with
  | [] => removeAvailabilityOf participantId d
  | _ =>
    addAvailability (numberRows (availability_id_seq d) participantId availabilityList)
      (removeAvailabilityOf participantId d)
  end.


Lemma run_insertParticipant (p : InsertParticipant.t) (w : World)
    (Q : Result Participant.t -> World -> Prop) :
  let d := database w in
  let row := Participant.mk (participants_id_seq d) (InsertParticipant.eventId p)
               (InsertParticipant.name p) (now w) in
  (forall fs, Q (Throw DatabaseError) (mkWorld d fs (now w))) ->
  (forall fs, Q (Ok row) (mkWorld (addParticipant row d) fs (now w))) ->
  run (insertParticipant p) w Q.
Proof.
  intros d row Hthrow Hok. unfold insertParticipant.
  apply run_bind, run_statement; [|exact Hthrow].
  intros fs. exact (Hok fs).
Qed.

Lemma run_setAvailability (participantId : Z)
    (availabilityList : list AvailabilityDraft.t) (w : World)
    (Q : Result unit -> World -> Prop) :
  let d := database w in
  (forall fs, Q (Throw DatabaseError) (mkWorld d fs (now w))) ->
  (forall fs, availabilityList <> [] ->
              Q (Throw DatabaseError)
                (mkWorld (removeAvailabilityOf participantId d) fs (now w))) ->
  (forall fs, Q (Ok tt)
                (mkWorld (replaceAvailability participantId availabilityList d) fs (now w))) ->
  run (setAvailability participantId availabilityList) w Q.
Proof.
  intros d Hdelete Hinsert Hok. unfold setAvailability.
  apply run_bind. unfold deleteAvailabilityByParticipantId.
  apply run_bind, run_statement; [|exact Hdelete].
  intros fs. unfold run at 1. cbn [write fst snd]. cbn [database faults now].
  destruct availabilityList as [|item rest].
  - exact (Hok fs).
  - cbn [List.length]. replace (0 <? Z.of_nat (S (List.length rest))) with true
      by (symmetry; apply Z.ltb_lt; lia).
    unfold insertAvailability. apply run_bind, run_statement.
    + intros fs'. exact (Hok fs').
    + intros fs'. apply Hinsert. discriminate.
Qed.

Lemma setAvailability_served (participantId : Z)
    (availabilityList : list AvailabilityDraft.t) (d : Database) (n : Z) :
  setAvailability participantId availabilityList (mkWorld d [] n)
  = (Ok tt, mkWorld (replaceAvailability participantId availabilityList d) [] n).
Proof.
  unfold setAvailability. destruct availabilityList as [|item rest]; [reflexivity|].
  cbn [List.length]. replace (0 <? Z.of_nat (S (List.length rest))) with true
    by (symmetry; apply Z.ltb_lt; lia).
  reflexivity.
Qed.

Lemma replaceAvailability_tables (participantId : Z)
    (availabilityList : list AvailabilityDraft.t) (d : Database) :
  let d' := replaceAvailability participantId availabilityList d in
  events d' = events d /\ timeOptions d' = timeOptions d /\
  participants d' = participants d /\
  availability d'
    = filter (fun a => negb (Availability.participantId a =? participantId))
        (availability d)
      ++ numberRows (availability_id_seq d) participantId availabilityList.
Proof.
  destruct availabilityList as [|item rest]; simpl.
  - rewrite app_nil_r. auto.
  - auto.
Qed.

Lemma numberRows_drafts (seq participantId : Z) (items : list AvailabilityDraft.t) :
  map draftOfResponse (numberRows seq participantId items) = items /\
  Forall (fun a => Availability.participantId a = participantId)
    (numberRows seq participantId items).
Proof.
  revert seq. induction items as [|item rest IH]; intros seq; simpl; [auto|].
  destruct (IH (seq + 1)) as [Hm Hf]. rewrite Hm.
  split; [destruct item; reflexivity | constructor; auto].
Qed.

Section Participate.
Variable toLowerCase : string -> string.

Definition existingIn (d : Database) (eventId : Z) : list Participant.t :=
  filter (fun p => Participant.eventId p =? eventId) (participants d).

(** The participant a submission under [name] resolves to, and the
    tables once it is resolved. *)
Definition resolveParticipant (d : Database) (eventId : Z) (name : string) (n : Z)
    : Z * Database :=
  match find (Routes.sameName toLowerCase name) (existingIn d eventId) with
  | Some existingParticipant => (Participant.id existingParticipant, d)
  | None =>
    let row := Participant.mk (participants_id_seq d) eventId name n in
    (Participant.id row, addParticipant row d)
  end.

Definition notFound : Routes.Response :=
  Routes.res_status_json 404 (Routes.ErrorBody "Event not found").

Definition ParticipateOutcome (shareId name : string)
    (availability : list AvailabilityDraft.t) (w : World)
    (r : Result Routes.Response) (w' : World) : Prop :=
  let d := database w in
  now w' = now w /\
  match lookupByShareId d shareId with
  | None => database w' = d /\ (r = Ok notFound \/ r = Throw DatabaseError)
  | Some details =>
    let eventId := Event.id (EventWithDetails.event details) in
    let participantId := fst (resolveParticipant d eventId name (now w)) in
    let d1 := snd (resolveParticipant d eventId name (now w)) in
    (r = Ok (Routes.res_json (Routes.Success participantId)) /\
     database w' = replaceAvailability participantId availability d1) \/
    (r = Throw DatabaseError /\
     (database w' = d \/ database w' = d1 \/
      (availability <> [] /\ database w' = removeAvailabilityOf participantId d1)))
  end.

Lemma run_participate (shareId name : string)
    (availability : list AvailabilityDraft.t) (w : World) :
  run (Routes.participate toLowerCase shareId name availability) w
      (ParticipateOutcome shareId name availability w).
Proof.
  unfold Routes.participate, ParticipateOutcome. apply run_bind.
  eapply run_weaken; [apply getEventByShareId_reads|].
  intros [r|e] w1 (Hd & Hn & Hv).
  - subst r. destruct (lookupByShareId (database w) shareId) as [details|].
    + set (eventId := Event.id (EventWithDetails.event details)).
      unfold resolveParticipant, existingIn.
      apply run_bind. unfold getParticipantsByEventId, selectParticipantsByEventId.
      apply run_read; rewrite Hd, Hn.
      * intros fs. apply run_bind.
        destruct (find (Routes.sameName toLowerCase name) _) as [existingParticipant|].
        -- apply run_ret. apply run_bind, run_setAvailability; cbn [database now fst snd].
           ++ intros fs'. auto.
           ++ intros fs' Hne. split; [reflexivity|]. right. auto.
           ++ intros fs'. apply run_ret. cbn [database now]. auto.
        -- unfold createParticipant. apply run_bind, run_insertParticipant;
             cbn [database now InsertParticipant.eventId InsertParticipant.name].
           ++ intros fs'. auto.
           ++ intros fs'. apply run_ret.
              apply run_bind, run_setAvailability; cbn [database now fst snd].
              ** intros fs''. split; [reflexivity|]. right. auto.
              ** intros fs'' Hne. split; [reflexivity|]. right. auto.
              ** intros fs''. apply run_ret. cbn [database now]. auto.
      * intros fs. cbn [database now]. auto.
    + apply run_ret. auto.
  - subst e. destruct (lookupByShareId (database w) shareId); auto.
Qed.

Lemma participate_served (shareId name : string)
    (availability : list AvailabilityDraft.t) (d : Database) (n : Z) :
  Routes.participate toLowerCase shareId name availability (mkWorld d [] n)
  = match lookupByShareId d shareId with
    | None => (Ok notFound, mkWorld d [] n)
    | Some details =>
      let eventId := Event.id (EventWithDetails.event details) in
      let participantId := fst (resolveParticipant d eventId name n) in
      let d1 := snd (resolveParticipant d eventId name n) in
      (Ok (Routes.res_json (Routes.Success participantId)),
       mkWorld (replaceAvailability participantId availability d1) [] n)
    end.
Proof.
  unfold Routes.participate. unfold bind at 1.
  rewrite getEventByShareId_served.
  destruct (lookupByShareId d shareId) as [details|]; [|reflexivity].
  unfold getParticipantsByEventId, selectParticipantsByEventId.
  unfold bind at 1. rewrite read_served.
  unfold resolveParticipant, existingIn.
  destruct (find (Routes.sameName toLowerCase name) _) as [existingParticipant|].
  - unfold bind at 1. unfold ret at 1. unfold bind at 1.
    rewrite setAvailability_served. reflexivity.
  - unfold bind at 1. unfold createParticipant, bind at 1.
    cbn [insertParticipant]. unfold insertParticipant.
    unfold bind at 1. cbn [statement faults].
    unfold bind at 1. cbn [getDatabase getNow database now bind write ret fst snd].
    unfold bind at 1. rewrite setAvailability_served. reflexivity.
Qed.
Definition badRequest : Routes.Response :=
  Routes.res_status_json 400 (Routes.ErrorBody "Invalid request data").

Lemma postParticipate_parsed (shareId : string) (reqBody : Zod.json) (name : string)
    (availability : list AvailabilityDraft.t) (w : World) :
  Zod.participateRequestSchema (Some reqBody) = Some (name, availability) ->
  Routes.postParticipate toLowerCase shareId reqBody w
  = Routes.handler (Routes.participate toLowerCase shareId name availability) badRequest w.
Proof.
  intros Hparse. unfold Routes.postParticipate, Routes.handler, Zod.parse, bind.
  rewrite Hparse. reflexivity.
Qed.

Lemma postParticipate_rejected (shareId : string) (reqBody : Zod.json) (w : World) :
  Zod.participateRequestSchema (Some reqBody) = None ->
  Routes.postParticipate toLowerCase shareId reqBody w = (badRequest, w).
Proof.
  intros Hparse. unfold Routes.postParticipate, Routes.handler, Zod.parse, bind.
  rewrite Hparse. reflexivity.
Qed.

(** An acknowledged submission found the event, resolved the participant
    and replaced the participant's responses. *)
Lemma postParticipate_acknowledged (shareId : string) (reqBody : Zod.json) (name : string)
    (availability : list AvailabilityDraft.t) (w w' : World) (participantId : Z) :
  Zod.participateRequestSchema (Some reqBody) = Some (name, availability) ->
  Routes.postParticipate toLowerCase shareId reqBody w
    = (Routes.res_json (Routes.Success participantId), w') ->
  exists details,
    lookupByShareId (database w) shareId = Some details /\
    let eventId := Event.id (EventWithDetails.event details) in
    participantId = fst (resolveParticipant (database w) eventId name (now w)) /\
    database w'
      = replaceAvailability participantId availability
          (snd (resolveParticipant (database w) eventId name (now w))).
Proof.
  intros Hparse Hrun. rewrite (postParticipate_parsed _ _ _ _ _ Hparse) in Hrun.
  unfold Routes.handler in Hrun.
  pose proof (run_participate shareId name availability w) as H. unfold run in H.
  destruct (Routes.participate toLowerCase shareId name availability w) as [r w1].
  simpl in H. destruct H as [_ H].
  destruct r as [r|e]; [|discriminate Hrun].
  injection Hrun as -> ->.
  destruct (lookupByShareId (database w) shareId) as [details|].
  - exists details. split; [reflexivity|].
    destruct H as [[Hr Hd]|[Hr _]]; [|discriminate Hr].
    injection Hr as Hr. cbv zeta. subst participantId. auto.
  - destruct H as [_ [Hr|Hr]]; discriminate Hr.
Qed.

Lemma find_app_None {A} (f : A -> bool) (l l' : list A) :
  find f l = None -> find f (l ++ l') = find f l'.
Proof.
  induction l as [|x l IH]; simpl; [reflexivity|].
  destruct (f x); [discriminate | exact IH].
Qed.

Lemma find_agree {A} (f g : A -> bool) (l : list A) :
  (forall x, f x = g x) -> find f l = find g l.
Proof.
  intros H. induction l as [|x l IH]; simpl; [reflexivity|].
  rewrite H, IH. reflexivity.
Qed.

Lemma sameName_case (name1 name2 : string) (p : Participant.t) :
  toLowerCase name1 = toLowerCase name2 ->
  Routes.sameName toLowerCase name2 p = Routes.sameName toLowerCase name1 p.
Proof. unfold Routes.sameName. intros ->. reflexivity. Qed.

(** Once resolved, the participant is the first of the event that bears
    the name, letter case apart. *)
Lemma resolveParticipant_found (d : Database) (eventId : Z) (name : string) (n : Z) :
  let participantId := fst (resolveParticipant d eventId name n) in
  let d1 := snd (resolveParticipant d eventId name n) in
  events d1 = events d /\ availability d1 = availability d /\
  availability_id_seq d1 = availability_id_seq d /\
  exists p,
    find (Routes.sameName toLowerCase name) (existingIn d1 eventId) = Some p /\
    Participant.id p = participantId.
Proof.
  unfold resolveParticipant.
  destruct (find (Routes.sameName toLowerCase name) (existingIn d eventId))
    as [p|] eqn:E; simpl.
  - split; [reflexivity|]. split; [reflexivity|]. split; [reflexivity|].
    exists p. auto.
  - split; [reflexivity|]. split; [reflexivity|]. split; [reflexivity|].
    exists (Participant.mk (participants_id_seq d) eventId name n).
    split; [|reflexivity].
    unfold existingIn in *. simpl. rewrite filter_app. simpl.
    rewrite Z.eqb_refl, (find_app_None _ _ _ E). simpl.
    unfold Routes.sameName at 1. simpl. rewrite String.eqb_refl. reflexivity.
Qed.

Lemma responsesBy_replaced (participantId : Z)
    (availabilityList : list AvailabilityDraft.t) (d : Database) :
  map draftOfResponse
    (responsesBy (replaceAvailability participantId availabilityList d) participantId)
  = availabilityList.
Proof.
  unfold responsesBy.
  destruct (replaceAvailability_tables participantId availabilityList d)
    as (_ & _ & _ & ->).
  rewrite filter_app.
  destruct (numberRows_drafts (availability_id_seq d) participantId availabilityList)
    as [Hm Hf].
  assert (filter (fun a => Availability.participantId a =? participantId)
            (filter (fun a => negb (Availability.participantId a =? participantId))
               (availability d)) = []) as ->.
  { induction (availability d) as [|a l IH]; simpl; [reflexivity|].
    destruct (Availability.participantId a =? participantId) eqn:E; simpl;
      [|rewrite E]; exact IH. }
  simpl. rewrite <- Hm at 2. f_equal. clear Hm.
  induction Hf as [|a l Ha _ IH]; simpl; [reflexivity|].
  rewrite Ha, Z.eqb_refl, IH. reflexivity.
Qed.

(** Within one event no two participants bear the same name, letter
    case apart. *)
Definition NamesUnique (d : Database) : Prop :=
  forall eventId,
    NoDup (map (fun p => toLowerCase (Participant.name p)) (existingIn d eventId)).

Lemma NamesUnique_participants (d d' : Database) :
  participants d' = participants d -> NamesUnique d -> NamesUnique d'.
Proof. unfold NamesUnique, existingIn. intros ->. auto. Qed.

Lemma resolveParticipant_participants (d : Database) (eventId : Z) (name : string) (n : Z) :
  exists added,
    participants (snd (resolveParticipant d eventId name n)) = participants d ++ added.
Proof.
  unfold resolveParticipant.
  destruct (find (Routes.sameName toLowerCase name) (existingIn d eventId)); simpl.
  - exists []. rewrite app_nil_r. reflexivity.
  - eexists. reflexivity.
Qed.

Lemma NamesUnique_resolved (d : Database) (eventId : Z) (name : string) (n : Z) :
  NamesUnique d -> NamesUnique (snd (resolveParticipant d eventId name n)).
Proof.
  unfold resolveParticipant.
  destruct (find (Routes.sameName toLowerCase name) (existingIn d eventId)) eqn:E;
    simpl; [auto|].
  intros H eventId'. unfold existingIn. simpl. rewrite filter_app. simpl.
  destruct (Z.eqb_spec eventId eventId') as [<-|Hne].
  - rewrite map_app. apply NoDup_app; [apply H | repeat constructor; intros [] |].
    intros s Hin [<-|[]]. apply in_map_iff in Hin. destruct Hin as (q & Hq & Hin).
    pose proof (find_none _ _ E q Hin) as Hfalse.
    unfold Routes.sameName in Hfalse. rewrite Hq, String.eqb_refl in Hfalse.
    discriminate.
  - rewrite app_nil_r. apply H.
Qed.

Lemma find_app_Some {A} (f : A -> bool) (l l' : list A) (x : A) :
  find f l = Some x -> find f (l ++ l') = Some x.
Proof.
  induction l as [|y l IH]; simpl; [discriminate|].
  destruct (f y); auto.
Qed.

Lemma lookupByShareId_grows (d d' : Database) (added : list Event.t) (shareId : string)
    (details details' : EventWithDetails.t) :
  events d' = events d ++ added ->
  lookupByShareId d shareId = Some details ->
  lookupByShareId d' shareId = Some details' ->
  EventWithDetails.event details' = EventWithDetails.event details.
Proof.
  unfold lookupByShareId, eventsWithShareId. intros ->. rewrite filter_app.
  destruct (filter _ (events d)) as [|event rest]; simpl; [discriminate|].
  intros H H'. injection H as <-. injection H' as <-. reflexivity.
Qed.

Lemma NoDup_map_eq {A B} (f : A -> B) (l : list A) (x y : A) :
  NoDup (map f l) -> In x l -> In y l -> f x = f y -> x = y.
Proof.
  induction l as [|z l IH]; simpl; intros Hnd Hx Hy Hf; [destruct Hx|].
  inversion Hnd as [|? ? Hz Hl]; subst.
  destruct Hx as [<-|Hx], Hy as [<-|Hy]; auto.
  - exfalso. apply Hz. rewrite Hf. apply in_map, Hy.
  - exfalso. apply Hz. rewrite <- Hf. apply in_map, Hx.
Qed.

(** With nothing refused, a well-formed submission to a stored event is
    acknowledged. *)
Lemma postParticipate_served (shareId : string) (reqBody : Zod.json) (name : string)
    (availability : list AvailabilityDraft.t) (d : Database) (n : Z)
    (details : EventWithDetails.t) :
  Zod.participateRequestSchema (Some reqBody) = Some (name, availability) ->
  lookupByShareId d shareId = Some details ->
  let eventId := Event.id (EventWithDetails.event details) in
  let participantId := fst (resolveParticipant d eventId name n) in
  Routes.postParticipate toLowerCase shareId reqBody (mkWorld d [] n)
  = (Routes.res_json (Routes.Success participantId),
     mkWorld (replaceAvailability participantId availability
                (snd (resolveParticipant d eventId name n))) [] n).
Proof.
  intros Hparse Hlookup. cbv zeta.
  rewrite (postParticipate_parsed _ _ _ _ _ Hparse). unfold Routes.handler.
  rewrite participate_served, Hlookup. reflexivity.
Qed.
End Participate.
End ParticipateFacts.

(** ** The states the server reaches *)

Module ServerFacts.
Import Db DbFacts Storage StorageFacts CreateEventFacts ParticipateFacts.
Local Open Scope db_scope.

Definition AllKnown (d : Database) : Prop := Forall KnownStatus (availability d).

Definition ShareIdsUnique (d : Database) : Prop := NoDup (map Event.shareId (events d)).


Definition pairOf (a : Availability.t) : Z * Z :=
  (Availability.participantId a, Availability.timeOptionId a).

Lemma NoDup_map_filter {A B} (f : A -> B) (g : A -> bool) (l : list A) :
  NoDup (map f l) -> NoDup (map f (filter g l)).
Proof.
  induction l as [|x l IH]; simpl; intros H; [constructor|].
  inversion H as [|? ? Hx Hl]; subst.
  destruct (g x); simpl; [|auto].
  constructor; [|auto].
  intros Hin. apply Hx. apply in_map_iff in Hin. destruct Hin as (y & Hy & Hin).
  apply filter_In in Hin. rewrite <- Hy. apply in_map, Hin.
Qed.





Lemma AllKnown_replaced (participantId : Z)
    (availabilityList : list AvailabilityDraft.t) (d : Database) :
  Forall (fun item => In (AvailabilityDraft.status item) Zod.statusLabels) availabilityList ->
  AllKnown d ->
  AllKnown (replaceAvailability participantId availabilityList d).
Proof.
  unfold AllKnown. intros Hav H.
  destruct (replaceAvailability_tables participantId availabilityList d)
    as (_ & _ & _ & ->).
  apply Forall_app. split.
  - apply Forall_forall. intros a Ha. apply filter_In in Ha.
    rewrite Forall_forall in H. apply H, Ha.
  - clear H. generalize (availability_id_seq d). intros seq. revert seq.
    induction Hav as [|item rest Hitem _ IH]; intros seq; simpl; constructor; auto.
Qed.

Lemma AllKnown_removed (participantId : Z) (d : Database) :
  AllKnown d -> AllKnown (removeAvailabilityOf participantId d).
Proof.
  unfold AllKnown. simpl. intros H. apply Forall_forall. intros a Ha.
  apply filter_In in Ha. rewrite Forall_forall in H. apply H, Ha.
Qed.

(** What the participate schema lets through. *)
Lemma availabilityItems_statuses (items : list Zod.json)
    (availabilityList : list AvailabilityDraft.t) :
  Zod.parseAll Zod.availabilityItemSchema items = Some availabilityList ->
  Forall (fun item => In (AvailabilityDraft.status item) Zod.statusLabels) availabilityList.
Proof.
  revert availabilityList. induction items as [|j items IH]; simpl; intros l H.
  - injection H as <-. constructor.
  - destruct (Zod.availabilityItemSchema (Some j)) as [item|] eqn:Ej; [|discriminate].
    destruct (Zod.parseAll Zod.availabilityItemSchema items) as [rest|]; [|discriminate].
    injection H as <-. constructor; [|auto].
    unfold Zod.availabilityItemSchema, Zod.andThen in Ej.
    destruct (Zod.field "timeOptionId" (Some j)) as [t|]; [|discriminate].
    destruct (Zod.z_number t) as [timeOptionId|]; [|discriminate].
    destruct (Zod.field "status" (Some j)) as [s|]; [|discriminate].
    destruct (Zod.z_enum Zod.statusLabels s) as [status|] eqn:Es; [|discriminate].
    injection Ej as <-. simpl.
    unfold Zod.z_enum in Es. destruct s as [[| | |s0| |]|]; try discriminate.
    destruct (existsb (String.eqb s0) Zod.statusLabels) eqn:Ex; [|discriminate].
    injection Es as <-. apply existsb_exists in Ex. destruct Ex as (x & Hin & Hx).
    apply String.eqb_eq in Hx. subst x. exact Hin.
Qed.

Lemma participateRequestSchema_statuses (reqBody : Zod.json) (name : string)
    (availabilityList : list AvailabilityDraft.t) :
  Zod.participateRequestSchema (Some reqBody) = Some (name, availabilityList) ->
  Forall (fun item => In (AvailabilityDraft.status item) Zod.statusLabels) availabilityList.
Proof.
  unfold Zod.participateRequestSchema, Zod.andThen. intros H.
  destruct (Zod.field "participant" (Some reqBody)) as [p|]; [|discriminate].
  destruct (Zod.participantSchema p) as [n|]; [|discriminate].
  destruct (Zod.field "availability" (Some reqBody)) as [a|]; [|discriminate].
  destruct (Zod.z_array Zod.availabilityItemSchema a) as [l|] eqn:Ea; [|discriminate].
  injection H as _ <-. unfold Zod.z_array in Ea.
  destruct a as [[| | | |items|]|]; try discriminate.
  apply (availabilityItems_statuses items), Ea.
Qed.

Lemma getEvent_database (shareId : string) (w : World) :
  database (snd (Routes.getEvent shareId w)) = database w.
Proof.
  unfold Routes.getEvent, Routes.handler, bind.
  pose proof (getEventByShareId_reads shareId w) as H. unfold run in H.
  destruct (getEventByShareId shareId w) as [[[event|]|e] w']; simpl in *; apply H.
Qed.

Lemma handler_world (c : M Routes.Response) (onError : Routes.Response) (w : World) :
  snd (Routes.handler c onError w) = snd (c w).
Proof. unfold Routes.handler. destruct (c w) as [[r|e] w']; reflexivity. Qed.

Lemma bind_ret_world {A B} (c : M A) (f : A -> B) (w : World) :
  snd (bind c (fun a => ret (f a)) w) = snd (c w).
Proof. unfold bind. destruct (c w) as [[a|e] w']; reflexivity. Qed.

Lemma postEvent_world (nanoid : string) (reqBody : Zod.json) (w : World) :
  snd (Routes.postEvent nanoid reqBody w)
  = match Zod.createEventRequestSchema (Some reqBody) with
    | Some (event, timeOptions) => snd (createEvent nanoid event timeOptions w)
    | None => w
    end.
Proof.
  unfold Routes.postEvent. rewrite handler_world. unfold Zod.parse.
  destruct (Zod.createEventRequestSchema (Some reqBody)) as [[event timeOptions]|];
    [|reflexivity].
  unfold bind at 1. cbn [ret]. apply bind_ret_world.
Qed.

Lemma postEvent_database (nanoid : string) (reqBody : Zod.json) (w : World) :
  let d := database w in
  let d' := database (snd (Routes.postEvent nanoid reqBody w)) in
  d' = d \/
  exists row,
    shareIdTaken nanoid d = false /\ Event.shareId row = nanoid /\
    events d' = events d ++ [row] /\ participants d' = participants d /\
    availability d' = availability d.
Proof.
  cbv zeta. rewrite postEvent_world.
  destruct (Zod.createEventRequestSchema (Some reqBody)) as [[event timeOptions]|];
    [|left; reflexivity].
  pose proof (run_createEvent nanoid event timeOptions w) as H. unfold run in H.
  destruct H as (_ & [[_ Hd]|(Hfree & k & _ & Hd & _)]).
  - left. exact Hd.
  - right. exists (eventRow nanoid event (database w) (now w)). rewrite Hd.
    match goal with
    | |- context [addTimeOptions ?rows ?d0] =>
      destruct (addTimeOptions_tables rows d0) as (He & _ & Hp & Ha & _);
      rewrite He, Hp, Ha
    end. auto.
Qed.

Section Reachable.
Variable toLowerCase : string -> string.

Lemma postParticipate_database (shareId : string) (reqBody : Zod.json) (w : World) :
  let d := database w in
  let d' := database (snd (Routes.postParticipate toLowerCase shareId reqBody w)) in
  d' = d \/
  exists name availabilityList eventId,
    Zod.participateRequestSchema (Some reqBody) = Some (name, availabilityList) /\
    let participantId := fst (resolveParticipant toLowerCase d eventId name (now w)) in
    let d1 := snd (resolveParticipant toLowerCase d eventId name (now w)) in
    d' = d1 \/ d' = removeAvailabilityOf participantId d1 \/
    d' = replaceAvailability participantId availabilityList d1.
Proof.
  cbv zeta.
  destruct (Zod.participateRequestSchema (Some reqBody)) as [[name availabilityList]|]
    eqn:Hparse.
  - rewrite (postParticipate_parsed toLowerCase _ _ _ _ w Hparse), handler_world.
    pose proof (run_participate toLowerCase shareId name availabilityList w) as H.
    unfold run, ParticipateOutcome in H. destruct H as [_ H].
    destruct (lookupByShareId (database w) shareId) as [details|].
    + destruct H as [[_ Hd]|[_ [Hd|[Hd|[_ Hd]]]]].
      * right. exists name, availabilityList, (Event.id (EventWithDetails.event details)).
        auto.
      * left. exact Hd.
      * right. exists name, availabilityList, (Event.id (EventWithDetails.event details)).
        auto.
      * right. exists name, availabilityList, (Event.id (EventWithDetails.event details)).
        auto.
    + left. apply H.
  - rewrite (postParticipate_rejected toLowerCase _ _ w Hparse). left. reflexivity.
Qed.

(** An invariant of the empty database that every admitted request
    preserves holds in every reachable database. *)
Lemma reachableBy_invariant (admitted : Routes.Request -> Prop) (I : Database -> Prop) :
  I Db.empty ->
  (forall d r faults now,
     admitted r -> I d ->
     I (database (snd (Routes.serve toLowerCase r (mkWorld d faults now))))) ->
  forall d, Routes.reachableBy toLowerCase admitted d -> I d.
Proof.
  intros Hempty Hstep d H. induction H as [|d r faults now Hr _ IH]; auto.
Qed.

(** Every stored response carries one of the three status labels: the
    hypothesis of the aggregation property holds of the server's states. *)
Lemma reachable_AllKnown (d : Database) :
  Routes.reachable toLowerCase d -> AllKnown d.
Proof.
  apply reachableBy_invariant; [constructor|].
  clear d. intros d r fs n _ Hd. destruct r as [nanoid reqBody|shareId|shareId reqBody];
    cbn [Routes.serve].
  - destruct (postEvent_database nanoid reqBody (mkWorld d fs n))
      as [->|(row & _ & _ & _ & _ & Ha)]; [exact Hd|].
    unfold AllKnown. rewrite Ha. exact Hd.
  - rewrite getEvent_database. exact Hd.
  - destruct (postParticipate_database shareId reqBody (mkWorld d fs n))
      as [->|(name & l & eventId & Hparse & H)]; [exact Hd|].
    cbn [database now] in H.
    destruct (resolveParticipant_found toLowerCase d eventId name n) as (_ & Ha & _).
    assert (AllKnown (snd (resolveParticipant toLowerCase d eventId name n))) as Hd1
      by (unfold AllKnown; rewrite Ha; exact Hd).
    destruct H as [->|[->| ->]].
    + exact Hd1.
    + apply AllKnown_removed, Hd1.
    + apply AllKnown_replaced; [|exact Hd1].
      apply (participateRequestSchema_statuses reqBody name), Hparse.
Qed.

(** No two stored events share a share identifier. *)
Lemma reachable_ShareIdsUnique (d : Database) :
  Routes.reachable toLowerCase d -> ShareIdsUnique d.
Proof.
  apply reachableBy_invariant; [constructor|].
  clear d. intros d r fs n _ Hd. destruct r as [nanoid reqBody|shareId|shareId reqBody];
    cbn [Routes.serve].
  - destruct (postEvent_database nanoid reqBody (mkWorld d fs n))
      as [->|(row & Hfree & Hs & He & _)]; [exact Hd|].
    unfold ShareIdsUnique. rewrite He, map_app. cbn [database] in *.
    apply NoDup_app; [exact Hd | repeat constructor; intros [] |].
    intros s Hin [<-|[]]. rewrite Hs in Hin.
    apply in_map_iff in Hin. destruct Hin as (e & Hes & Hin).
    assert (shareIdTaken nanoid d = true) as Htaken.
    { apply existsb_exists. exists e. split; [exact Hin | apply String.eqb_eq, Hes]. }
    congruence.
  - rewrite getEvent_database. exact Hd.
  - destruct (postParticipate_database shareId reqBody (mkWorld d fs n))
      as [->|(name & l & eventId & _ & H)]; [exact Hd|].
    cbn [database now] in H.
    destruct (resolveParticipant_found toLowerCase d eventId name n) as (He & _).
    unfold ShareIdsUnique.
    destruct H as [->|[->| ->]].
    + rewrite He. exact Hd.
    + simpl. rewrite He. exact Hd.
    + destruct (replaceAvailability_tables
                  (fst (resolveParticipant toLowerCase d eventId name n)) l
                  (snd (resolveParticipant toLowerCase d eventId name n)))
        as (-> & _). rewrite He. exact Hd.
Qed.

(** Serving a request only appends to the events and the participants,
    and keeps the names of an event distinct. *)
Definition Grows (d d' : Database) : Prop :=
  (exists added, events d' = events d ++ added) /\
  (exists added, participants d' = participants d ++ added) /\
  (NamesUnique toLowerCase d -> NamesUnique toLowerCase d').

Lemma Grows_refl (d : Database) : Grows d d.
Proof.
  split; [|split]; [exists [] | exists [] | auto]; rewrite app_nil_r; reflexivity.
Qed.

Lemma Grows_trans (d1 d2 d3 : Database) : Grows d1 d2 -> Grows d2 d3 -> Grows d1 d3.
Proof.
  intros ((e1 & He1) & (p1 & Hp1) & Hn1) ((e2 & He2) & (p2 & Hp2) & Hn2).
  split; [|split].
  - exists (e1 ++ e2). rewrite He2, He1, app_assoc. reflexivity.
  - exists (p1 ++ p2). rewrite Hp2, Hp1, app_assoc. reflexivity.
  - auto.
Qed.

Lemma Grows_same_rows (d d' : Database) :
  events d' = events d -> participants d' = participants d -> Grows d d'.
Proof.
  intros He Hp. split; [|split].
  - exists []. rewrite app_nil_r. exact He.
  - exists []. rewrite app_nil_r. exact Hp.
  - apply NamesUnique_participants, Hp.
Qed.

Lemma resolveParticipant_grows (d : Database) (eventId : Z) (name : string) (n : Z) :
  Grows d (snd (resolveParticipant toLowerCase d eventId name n)).
Proof.
  destruct (resolveParticipant_found toLowerCase d eventId name n) as (He & _).
  split; [|split].
  - exists []. rewrite app_nil_r. exact He.
  - apply resolveParticipant_participants.
  - apply NamesUnique_resolved.
Qed.

Lemma serve_grows (d : Database) (r : Routes.Request) (fs : list bool) (n : Z) :
  Grows d (database (snd (Routes.serve toLowerCase r (mkWorld d fs n)))).
Proof.
  destruct r as [nanoid reqBody|shareId|shareId reqBody]; cbn [Routes.serve].
  - destruct (postEvent_database nanoid reqBody (mkWorld d fs n))
      as [->|(row & _ & _ & He & Hp & _)]; [apply Grows_refl|].
    cbn [database] in *. split; [|split].
    + exists [row]. exact He.
    + exists []. rewrite app_nil_r. exact Hp.
    + apply NamesUnique_participants, Hp.
  - rewrite getEvent_database. apply Grows_refl.
  - destruct (postParticipate_database shareId reqBody (mkWorld d fs n))
      as [->|(name & l & eventId & _ & H)]; [apply Grows_refl|].
    cbn [database now] in H.
    apply Grows_trans with (snd (resolveParticipant toLowerCase d eventId name n));
      [apply resolveParticipant_grows|].
    destruct H as [->|[->| ->]].
    + apply Grows_refl.
    + apply Grows_same_rows; reflexivity.
    + destruct (replaceAvailability_tables
                  (fst (resolveParticipant toLowerCase d eventId name n)) l
                  (snd (resolveParticipant toLowerCase d eventId name n)))
        as (He & _ & Hp & _).
      apply Grows_same_rows; assumption.
Qed.

Lemma evolves_grows (d d' : Database) :
  Routes.evolves toLowerCase d d' -> Grows d d'.
Proof.
  induction 1 as [|d' r fs n _ IH]; [apply Grows_refl|].
  eapply Grows_trans; [exact IH | apply serve_grows].
Qed.

(** No event of a reachable state has two participants of the same name,
    letter case apart. *)
Lemma reachable_NamesUnique (d : Database) :
  Routes.reachable toLowerCase d -> NamesUnique toLowerCase d.
Proof.
  apply reachableBy_invariant.
  - intros eventId. constructor.
  - clear d. intros d r fs n _ Hd. apply (serve_grows d r fs n), Hd.
Qed.

(** C6. Take two acknowledged submissions to one event under names that
    are equal up to letter case, the second one made after the first and
    any number of other requests.  Both resolve to the same participant
    identifier; it is the identifier of a stored participant row of that
    name, letter case apart, which is the only such row of its event
    whenever names were distinct within events to begin with (as they are
    in every reachable state); the second submission creates no participant
    row; and after it the participant's stored responses are exactly the
    second submission's list, in order. *)
Theorem participate_supersedes (d between : Database) (shareId : string)
    (reqBody1 reqBody2 : Zod.json) (name1 name2 : string)
    (availability1 availability2 : list AvailabilityDraft.t)
    (faults1 faults2 : list bool) (now1 now2 : Z)
    (participantId1 participantId2 : Z) (w1 w2 : World) :
  Zod.participateRequestSchema (Some reqBody1) = Some (name1, availability1) ->
  Zod.participateRequestSchema (Some reqBody2) = Some (name2, availability2) ->
  toLowerCase name1 = toLowerCase name2 ->
  Routes.postParticipate toLowerCase shareId reqBody1 (mkWorld d faults1 now1)
    = (Routes.res_json (Routes.Success participantId1), w1) ->
  Routes.evolves toLowerCase (database w1) between ->
  Routes.postParticipate toLowerCase shareId reqBody2 (mkWorld between faults2 now2)
    = (Routes.res_json (Routes.Success participantId2), w2) ->
  participantId2 = participantId1 /\
  (exists p,
     In p (participants (database w1)) /\
     Participant.id p = participantId1 /\
     toLowerCase (Participant.name p) = toLowerCase name1 /\
     (NamesUnique toLowerCase d ->
      forall q, In q (participants (database w2)) ->
                Participant.eventId q = Participant.eventId p ->
                toLowerCase (Participant.name q) = toLowerCase name1 ->
                q = p)) /\
  participants (database w2) = participants between /\
  map draftOfResponse (responsesBy (database w2) participantId1) = availability2.
Proof.
  intros Hparse1 Hparse2 Hcase Hrun1 Hmid Hrun2.
  destruct (postParticipate_acknowledged toLowerCase _ _ _ _ _ _ _ Hparse1 Hrun1)
    as (details1 & Hl1 & Hp1 & Hd1).
  destruct (postParticipate_acknowledged toLowerCase _ _ _ _ _ _ _ Hparse2 Hrun2)
    as (details2 & Hl2 & Hp2 & Hd2).
  cbn [database now] in *.
  set (eventId := Event.id (EventWithDetails.event details1)) in *.
  destruct (resolveParticipant_found toLowerCase d eventId name1 now1)
    as (He & _ & _ & p & Hfind & Hid).
  rewrite <- Hp1 in Hid.
  pose proof (resolveParticipant_grows d eventId name1 now1) as (_ & _ & Hu1).
  set (d1 := snd (resolveParticipant toLowerCase d eventId name1 now1)) in *.
  destruct (replaceAvailability_tables participantId1 availability1 d1)
    as (He1 & _ & Hps1 & _).
  rewrite <- Hd1 in He1, Hps1.
  destruct (evolves_grows _ _ Hmid) as ((xe & Hxe) & (xp & Hxp) & Hu2).
  assert (Event.id (EventWithDetails.event details2) = eventId) as Heid.
  { unfold eventId. f_equal.
    apply (lookupByShareId_grows d between xe shareId); [congruence | assumption..]. }
  rewrite Heid in Hp2, Hd2.
  assert (find (Routes.sameName toLowerCase name2) (existingIn between eventId) = Some p)
    as Hfind2.
  { rewrite (find_agree _ (Routes.sameName toLowerCase name1))
      by (intros q; apply sameName_case, Hcase).
    unfold existingIn in *. rewrite Hxp, Hps1, filter_app.
    apply find_app_Some, Hfind. }
  assert (resolveParticipant toLowerCase between eventId name2 now2
          = (participantId1, between)) as Hres.
  { unfold resolveParticipant. rewrite Hfind2, Hid. reflexivity. }
  rewrite Hres in Hp2, Hd2. simpl in Hp2, Hd2. subst participantId2.
  destruct (replaceAvailability_tables participantId1 availability2 between)
    as (_ & _ & Hps2 & _).
  rewrite <- Hd2 in Hps2.
  apply find_some in Hfind. destruct Hfind as [Hin Hsame].
  unfold existingIn in Hin. apply filter_In in Hin. destruct Hin as [Hin Hev].
  unfold Routes.sameName in Hsame. apply String.eqb_eq in Hsame.
  split; [reflexivity|]. split; [|split].
  - exists p. rewrite Hps1. split; [exact Hin|]. split; [exact Hid|].
    split; [exact Hsame|].
    intros Hu q Hq Hqe Hqn.
    assert (NamesUnique toLowerCase (database w2)) as Hu3.
    { apply (NamesUnique_participants toLowerCase between); [exact Hps2|].
      apply Hu2, (NamesUnique_participants toLowerCase d1); [exact Hps1|].
      apply Hu1, Hu. }
    apply (NoDup_map_eq (fun x => toLowerCase (Participant.name x))
             (existingIn (database w2) (Participant.eventId p)));
      [apply Hu3 | | | congruence].
    + unfold existingIn. apply filter_In. split; [exact Hq | apply Z.eqb_eq, Hqe].
    + unfold existingIn. apply filter_In. split; [|apply Z.eqb_refl].
      rewrite Hps2, Hxp, Hps1. apply in_or_app. left. exact Hin.
  - exact Hps2.
  - rewrite Hd2. apply responsesBy_replaced.
Qed.
End Reachable.
End ServerFacts.

(** * The properties at work on one run of the server

    An organizer creates "Lunch" with two time options, Bob answers, then
    answers again as "BOB"; Eve sends a payload that names the first time
    option twice. *)

Module Scenario.
Import Db Storage StorageFacts CreateEventFacts ParticipateFacts ServerFacts UtilsFacts.

Definition toLowerCase : string -> string := JsString.toLowerCase.

Definition timeOptionBody (date startTime endTime : string) : Zod.json :=
  Zod.JObject [("date", Zod.JString date); ("startTime", Zod.JString startTime);
               ("endTime", Zod.JString endTime)].

Definition lunchBody : Zod.json :=
  Zod.JObject
    [("event", Zod.JObject [("title", Zod.JString "Lunch");
                            ("duration", Zod.JString "1 hour")]);
     ("timeOptions", Zod.JArray [timeOptionBody "2024-06-01" "12:00" "13:00";
                                 timeOptionBody "2024-06-02" "12:00" "13:00"])].

Definition answerBody (timeOptionId : Z) (status : string) : Zod.json :=
  Zod.JObject [("timeOptionId", Zod.JNumber timeOptionId); ("status", Zod.JString status)].

Definition participateBody (name : string) (answers : list Zod.json) : Zod.json :=
  Zod.JObject [("participant", Zod.JObject [("name", Zod.JString name)]);
               ("availability", Zod.JArray answers)].

Definition bobBody : Zod.json :=
  participateBody "Bob" [answerBody 1 "available"; answerBody 2 "maybe"].

Definition bobAgainBody : Zod.json :=
  participateBody "BOB" [answerBody 2 "unavailable"].

Definition eveBody : Zod.json :=
  participateBody "Eve" [answerBody 1 "available"; answerBody 1 "maybe"].

Definition shareId : string := "V1StGXR8_Z".

Definition created : Database :=
  database (snd (Routes.serve toLowerCase (Routes.PostEvent shareId lunchBody)
                   (mkWorld Db.empty [] 0))).

Definition answered : Database :=
  database (snd (Routes.serve toLowerCase (Routes.PostParticipate shareId bobBody)
                   (mkWorld created [] 0))).

Definition answeredTwice : Database :=
  database (snd (Routes.serve toLowerCase (Routes.PostParticipate shareId eveBody)
                   (mkWorld answered [] 0))).

Definition lunchRow : Event.t := Event.mk 1 "Lunch" None "1 hour" shareId 0.



Lemma answeredTwice_reachable : Routes.reachable toLowerCase answeredTwice.
Proof.
  unfold Routes.reachable, answeredTwice, answered, created.
  repeat (apply Routes.reachable_serve; [exact I|]).
  apply Routes.reachable_empty.
Qed.

(** The options of the specification's example: A(3, 1), B(3, 2), C(2, 5). *)
Definition abc : list TimeOptionWithAvailability.t :=
  [tallied 1 3 1 0; tallied 2 3 2 0; tallied 3 2 5 0].

(** Two options nobody has responded to. *)
Definition silent : list TimeOptionWithAvailability.t :=
  [tallied 1 0 0 0; tallied 2 0 0 0].

Example getBestTimeSlotIds_abc : Utils.getBestTimeSlotIds abc = [2].
Proof. reflexivity. Qed.

Example getBestTimeSlotIds_full_tie :
  Utils.getBestTimeSlotIds [tallied 1 2 1 0; tallied 2 2 1 0] = [1; 2].
Proof. reflexivity. Qed.

Example getBestTimeSlot_abc : Utils.getBestTimeSlot abc = Some (tallied 1 3 1 0).
Proof. reflexivity. Qed.


Lemma getBestTimeSlot_first_min_maybe_witness :
  abc <> [] /\
  exists o, Utils.getBestTimeSlot abc = Some o /\ FirstMinMaybeAtTop abc o.
Proof.
  assert (abc <> []) as Hne by discriminate.
  split; [exact Hne|]. exact (getBestTimeSlot_first_min_maybe abc Hne).
Defined.

Lemma silent_nobody_responded : Forall NobodyResponded silent.
Proof. repeat constructor; vm_compute; congruence. Qed.

Lemma getBestTimeSlot_nobody_responded_witness :
  silent <> [] /\ Forall NobodyResponded silent /\
  exists o,
    Utils.getBestTimeSlot silent = Some o /\
    hd_error silent = Some o /\ Utils.getBestTimeSlotIds silent = [].
Proof.
  assert (silent <> []) as Hne by discriminate.
  split; [exact Hne|]. split; [exact silent_nobody_responded|].
  destruct (getBestTimeSlot_nobody_responded silent Hne) as (o & Ho & H).
  exists o. split; [exact Ho|]. exact (H silent_nobody_responded).
Defined.

Lemma answered_known : Forall KnownStatus (availability answered).
Proof. repeat constructor; vm_compute; tauto. Qed.

Lemma availabilityCount_aggregation_witness :
  Forall KnownStatus (availability answered) /\
  fst (getEventByShareId shareId (mkWorld answered [] 0))
    = Ok (Some (detailsOf answered lunchRow)) /\
  Forall (fun o =>
            let responses := responsesOf answered (TimeOptionWithAvailability.id o) in
            let c := TimeOptionWithAvailability.availabilityCount o in
            AvailabilityCount.total c = Z.of_nat (List.length responses) /\
            Tallies responses c)
         (EventWithDetails.timeOptions (detailsOf answered lunchRow)).
Proof.
  assert (fst (getEventByShareId shareId (mkWorld answered [] 0))
          = Ok (Some (detailsOf answered lunchRow))) as Hrun by reflexivity.
  split; [exact answered_known|]. split; [exact Hrun|].
  exact (availabilityCount_aggregation answered [] 0 shareId _ answered_known Hrun).
Defined.

(** The round trip of the specification: Bob's answers are tallied and
    the first option is the one recommended. *)
Example round_trip :
  map TimeOptionWithAvailability.availabilityCount
    (EventWithDetails.timeOptions (detailsOf answered lunchRow))
  = [AvailabilityCount.mk 1 0 0 1; AvailabilityCount.mk 0 1 0 1] /\
  Utils.getBestTimeSlotIds (EventWithDetails.timeOptions (detailsOf answered lunchRow)) = [1].
Proof. split; reflexivity. Qed.

Lemma createEvent_sequential_witness :
  faults (mkWorld Db.empty [] 0) = [] /\
  shareIdTaken shareId (database (mkWorld Db.empty [] 0)) = false /\
  exists createdEvent,
    fst (createEvent shareId lunch [noon1; noon2] (mkWorld Db.empty [] 0)) = Ok createdEvent.
Proof.
  split; [reflexivity|]. split; [reflexivity|].
  apply (proj2 (createEvent_sequential shareId lunch [noon1; noon2] (mkWorld Db.empty [] 0)));
    reflexivity.
Defined.

Definition afterBob : World :=
  snd (Routes.postParticipate toLowerCase shareId bobBody (mkWorld created [] 0)).

(** Between Bob's two submissions Eve answers. *)
Definition afterEve : Database :=
  database (snd (Routes.serve toLowerCase (Routes.PostParticipate shareId eveBody)
                   (mkWorld (database afterBob) [] 0))).

Definition afterBobAgain : World :=
  snd (Routes.postParticipate toLowerCase shareId bobAgainBody (mkWorld afterEve [] 0)).

Lemma afterEve_evolves : Routes.evolves toLowerCase (database afterBob) afterEve.
Proof. unfold afterEve. apply Routes.evolves_serve, Routes.evolves_refl. Qed.

Lemma created_names_unique : NamesUnique toLowerCase created.
Proof. intros eventId. constructor. Qed.

Definition bob : Participant.t := Participant.mk 1 1 "Bob" 0.

Lemma participate_supersedes_witness :
  toLowerCase "Bob" = toLowerCase "BOB" /\
  Routes.postParticipate toLowerCase shareId bobBody (mkWorld created [] 0)
    = (Routes.res_json (Routes.Success 1), afterBob) /\
  Routes.evolves toLowerCase (database afterBob) afterEve /\
  Routes.postParticipate toLowerCase shareId bobAgainBody (mkWorld afterEve [] 0)
    = (Routes.res_json (Routes.Success 1), afterBobAgain) /\
  NamesUnique toLowerCase created /\
  filter (fun q => (Participant.eventId q =? 1) && Routes.sameName toLowerCase "bob" q)
    (participants (database afterBobAgain)) = [bob] /\
  participants (database afterBobAgain) = participants afterEve /\
  map draftOfResponse (responsesBy (database afterBobAgain) 1)
    = [AvailabilityDraft.mk 2 "unavailable"].
Proof.
  assert (Routes.postParticipate toLowerCase shareId bobBody (mkWorld created [] 0)
          = (Routes.res_json (Routes.Success 1), afterBob)) as Hrun1 by reflexivity.
  assert (Routes.postParticipate toLowerCase shareId bobAgainBody (mkWorld afterEve [] 0)
          = (Routes.res_json (Routes.Success 1), afterBobAgain)) as Hrun2 by reflexivity.
  assert (toLowerCase "Bob" = toLowerCase "BOB") as Hcase by reflexivity.
  split; [exact Hcase|]. split; [exact Hrun1|]. split; [exact afterEve_evolves|].
  split; [exact Hrun2|]. split; [exact created_names_unique|].
  destruct (participate_supersedes toLowerCase created afterEve shareId bobBody bobAgainBody
              "Bob" "BOB"
              [AvailabilityDraft.mk 1 "available"; AvailabilityDraft.mk 2 "maybe"]
              [AvailabilityDraft.mk 2 "unavailable"]
              [] [] 0 0 1 1 afterBob afterBobAgain
              eq_refl eq_refl Hcase Hrun1 afterEve_evolves Hrun2)
    as (_ & _ & Hsame & Hreplaced).
  split; [reflexivity|]. split; [exact Hsame | exact Hreplaced].
Defined.



Example eve_rows :
  map pairOf (responsesBy answeredTwice 2) = [(2, 1); (2, 1)].
Proof. reflexivity. Qed.

End Scenario.

(** * Beyond the specification's properties

    ** Every change of state is one of five writes *)

Module WriteFacts.
Import Db DbFacts Storage StorageFacts CreateEventFacts ParticipateFacts ServerFacts.
Local Open Scope db_scope.

Definition StoredEvent (d : Database) (eventId : Z) : Prop :=
  exists e, In e (events d) /\ Event.id e = eventId.

Definition StoredParticipant (d : Database) (participantId : Z) : Prop :=
  exists p, In p (participants d) /\ Participant.id p = participantId.

Definition KnownStatuses (items : list AvailabilityDraft.t) : Prop :=
  Forall (fun item => In (AvailabilityDraft.status item) Zod.statusLabels) items.

Section Writes.
Variable toLowerCase : string -> string.

(** A property of databases that each of the writes the handlers issue
    preserves, given what holds when the write is issued. *)
Record Preserved (I : Database -> Prop) : Prop := mkPreserved {
  by_addEvent :
    forall d row,
      I d -> Event.id row = events_id_seq d ->
      shareIdTaken (Event.shareId row) d = false ->
      I (addEvent row d);
  by_addTimeOption :
    forall d row,
      I d -> TimeOption.id row = time_options_id_seq d ->
      StoredEvent d (TimeOption.eventId row) ->
      I (addTimeOption row d);
  by_addParticipant :
    forall d row,
      I d -> Participant.id row = participants_id_seq d ->
      StoredEvent d (Participant.eventId row) ->
      find (Routes.sameName toLowerCase (Participant.name row))
        (existingIn d (Participant.eventId row)) = None ->
      I (addParticipant row d);
  by_removeAvailabilityOf :
    forall d participantId,
      I d -> StoredParticipant d participantId ->
      I (removeAvailabilityOf participantId d);
  by_addAvailability :
    forall d participantId items,
      I d -> StoredParticipant d participantId ->
      responsesBy d participantId = [] ->
      KnownStatuses items -> items <> [] ->
      I (addAvailability (numberRows (availability_id_seq d) participantId items) d)
}.

Lemma postEvent_writes (nanoid : string) (reqBody : Zod.json) (w : World) :
  let d := database w in
  let d' := database (snd (Routes.postEvent nanoid reqBody w)) in
  d' = d \/
  exists event drafts k,
    Zod.createEventRequestSchema (Some reqBody) = Some (event, drafts) /\
    shareIdTaken nanoid d = false /\
    d' = addTimeOptions
           (numberOptions (time_options_id_seq d) (events_id_seq d) (firstn k drafts))
           (addEvent (eventRow nanoid event d (now w)) d).
Proof.
  cbv zeta. rewrite postEvent_world.
  destruct (Zod.createEventRequestSchema (Some reqBody)) as [[event drafts]|] eqn:Hparse;
    [|left; reflexivity].
  pose proof (run_createEvent nanoid event drafts w) as H. unfold run in H.
  destruct H as (_ & [[Hr Hd]|(Hfree & k & Hk & Hd & Hr)]).
  - left. exact Hd.
  - right. exists event, drafts, k. auto.
Qed.

Lemma postParticipate_writes (shareId : string) (reqBody : Zod.json) (w : World) :
  let d := database w in
  let d' := database (snd (Routes.postParticipate toLowerCase shareId reqBody w)) in
  d' = d \/
  exists name availabilityList details,
    Zod.participateRequestSchema (Some reqBody) = Some (name, availabilityList) /\
    lookupByShareId d shareId = Some details /\
    let eventId := Event.id (EventWithDetails.event details) in
    let participantId := fst (resolveParticipant toLowerCase d eventId name (now w)) in
    let d1 := snd (resolveParticipant toLowerCase d eventId name (now w)) in
    d' = d1 \/ d' = removeAvailabilityOf participantId d1 \/
    d' = replaceAvailability participantId availabilityList d1.
Proof.
  cbv zeta.
  destruct (Zod.participateRequestSchema (Some reqBody)) as [[name availabilityList]|]
    eqn:Hparse.
  - rewrite (postParticipate_parsed toLowerCase _ _ _ _ w Hparse), handler_world.
    pose proof (run_participate toLowerCase shareId name availabilityList w) as H.
    unfold run, ParticipateOutcome in H. destruct H as [_ H].
    destruct (lookupByShareId (database w) shareId) as [details|] eqn:Hl.
    + destruct H as [[_ Hd]|[_ [Hd|[Hd|[_ Hd]]]]].
      * right. exists name, availabilityList, details. auto.
      * left. exact Hd.
      * right. exists name, availabilityList, details. auto.
      * right. exists name, availabilityList, details. auto.
    + left. apply H.
  - rewrite (postParticipate_rejected toLowerCase _ _ w Hparse). left. reflexivity.
Qed.

Lemma lookupByShareId_stored (d : Database) (shareId : string)
    (details : EventWithDetails.t) :
  lookupByShareId d shareId = Some details ->
  StoredEvent d (Event.id (EventWithDetails.event details)).
Proof.
  intros H. apply lookupByShareId_Some in H. destruct H as (event & -> & Hin & _).
  exists event. auto.
Qed.

Lemma addTimeOptions_preserved (I : Database -> Prop) (eventId : Z)
    (drafts : list TimeOptionDraft.t) (d : Database) :
  Preserved I -> I d -> StoredEvent d eventId ->
  I (addTimeOptions (numberOptions (time_options_id_seq d) eventId drafts) d).
Proof.
  intros HI. revert d. induction drafts as [|o rest IH]; intros d Hd He; [exact Hd|].
  cbn [numberOptions addTimeOptions fold_left].
  set (row := TimeOption.mk (time_options_id_seq d) eventId (TimeOptionDraft.date o)
                (TimeOptionDraft.startTime o) (TimeOptionDraft.endTime o)).
  change (time_options_id_seq d + 1) with (time_options_id_seq (addTimeOption row d)).
  apply IH.
  - apply (by_addTimeOption I HI); [exact Hd | reflexivity | exact He].
  - exact He.
Qed.

Lemma resolveParticipant_preserved (I : Database -> Prop) (d : Database) (eventId : Z)
    (name : string) (n : Z) :
  Preserved I -> I d -> StoredEvent d eventId ->
  I (snd (resolveParticipant toLowerCase d eventId name n)) /\
  StoredParticipant (snd (resolveParticipant toLowerCase d eventId name n))
    (fst (resolveParticipant toLowerCase d eventId name n)).
Proof.
  intros HI Hd He. unfold resolveParticipant.
  destruct (find (Routes.sameName toLowerCase name) (existingIn d eventId)) as [p|] eqn:E;
    cbn [fst snd].
  - split; [exact Hd|]. exists p. split; [|reflexivity].
    apply find_some in E. destruct E as [Hin _]. apply filter_In in Hin. apply Hin.
  - split.
    + apply (by_addParticipant I HI); [exact Hd | reflexivity | exact He | exact E].
    + eexists. split; [|reflexivity]. simpl. apply in_or_app. right. left. reflexivity.
Qed.

Lemma responsesBy_removed (participantId : Z) (d : Database) :
  responsesBy (removeAvailabilityOf participantId d) participantId = [].
Proof.
  unfold responsesBy. simpl.
  induction (availability d) as [|a l IH]; simpl; [reflexivity|].
  destruct (Availability.participantId a =? participantId) eqn:E; simpl;
    [|rewrite E]; exact IH.
Qed.

Lemma replaceAvailability_preserved (I : Database -> Prop) (participantId : Z)
    (items : list AvailabilityDraft.t) (d : Database) :
  Preserved I -> I d -> StoredParticipant d participantId -> KnownStatuses items ->
  I (removeAvailabilityOf participantId d) /\
  I (replaceAvailability participantId items d).
Proof.
  intros HI Hd Hp Hk.
  assert (I (removeAvailabilityOf participantId d)) as Hr
    by (apply (by_removeAvailabilityOf I HI); assumption).
  split; [exact Hr|].
  destruct items as [|item rest]; [exact Hr|].
  unfold replaceAvailability.
  change (availability_id_seq d)
    with (availability_id_seq (removeAvailabilityOf participantId d)).
  apply (by_addAvailability I HI); [exact Hr | exact Hp | | exact Hk | discriminate].
  apply responsesBy_removed.
Qed.

(** Whatever a request does to the database, it does by these writes. *)
Lemma serve_preserved (I : Database -> Prop) (d : Database) (r : Routes.Request)
    (fs : list bool) (n : Z) :
  Preserved I -> I d ->
  I (database (snd (Routes.serve toLowerCase r (mkWorld d fs n)))).
Proof.
  intros HI Hd. destruct r as [nanoid reqBody|shareId|shareId reqBody]; cbn [Routes.serve].
  - destruct (postEvent_writes nanoid reqBody (mkWorld d fs n))
      as [->|(event & drafts & k & _ & Hfree & ->)]; [exact Hd|].
    cbn [database now].
    set (row := eventRow nanoid event d n).
    change (time_options_id_seq d) with (time_options_id_seq (addEvent row d)).
    apply addTimeOptions_preserved; [exact HI | |].
    + apply (by_addEvent I HI); [exact Hd | reflexivity | exact Hfree].
    + exists row. split; [|reflexivity]. simpl. apply in_or_app. right. left. reflexivity.
  - rewrite getEvent_database. exact Hd.
  - destruct (postParticipate_writes shareId reqBody (mkWorld d fs n))
      as [->|(name & l & details & Hparse & Hl & H)]; [exact Hd|].
    cbn [database now] in H.
    destruct (resolveParticipant_preserved I d
                (Event.id (EventWithDetails.event details)) name n HI Hd
                (lookupByShareId_stored _ _ _ Hl)) as [Hd1 Hp].
    destruct (replaceAvailability_preserved I _ l _ HI Hd1 Hp
                (participateRequestSchema_statuses reqBody name l Hparse)) as [Hrem Hrep].
    destruct H as [->|[->| ->]]; assumption.
Qed.

Lemma evolves_preserved (I : Database -> Prop) (d d' : Database) :
  Preserved I -> Routes.evolves toLowerCase d d' -> I d -> I d'.
Proof.
  intros HI H Hd. induction H as [|d' r fs n _ IH]; [exact Hd|].
  apply serve_preserved; assumption.
Qed.

Lemma reachable_evolves (d : Database) :
  Routes.reachable toLowerCase d -> Routes.evolves toLowerCase Db.empty d.
Proof.
  induction 1 as [|d r fs n _ _ IH]; [apply Routes.evolves_refl|].
  apply Routes.evolves_serve, IH.
Qed.
End Writes.
End WriteFacts.

(** ** What the stored rows always satisfy *)

Module StateFacts.
Import Db DbFacts Storage StorageFacts CreateEventFacts ParticipateFacts ServerFacts WriteFacts.
Local Open Scope db_scope.

(** The identifiers of a table: all below the table's sequence, no two
    equal. *)
Definition Keys {A} (key : A -> Z) (rows : list A) (seq : Z) : Prop :=
  Forall (fun r => key r < seq) rows /\ NoDup (map key rows).

Definition Keyed (d : Database) : Prop :=
  Keys Event.id (events d) (events_id_seq d) /\
  Keys TimeOption.id (timeOptions d) (time_options_id_seq d) /\
  Keys Participant.id (participants d) (participants_id_seq d) /\
  Keys Availability.id (availability d) (availability_id_seq d).

(** The references between the tables that the handlers keep. *)
Definition References (d : Database) : Prop :=
  Forall (fun o => StoredEvent d (TimeOption.eventId o)) (timeOptions d) /\
  Forall (fun p => StoredEvent d (Participant.eventId p)) (participants d) /\
  Forall (fun a => StoredParticipant d (Availability.participantId a)) (availability d).

(** Nothing of [before] is gone or changed in [after]. *)
Definition Keeps (before after : Database) : Prop :=
  (exists added, events after = events before ++ added) /\
  (exists added, timeOptions after = timeOptions before ++ added) /\
  (exists added, participants after = participants before ++ added).

Lemma Keys_snoc {A} (key : A -> Z) (rows : list A) (seq : Z) (row : A) :
  Keys key rows seq -> key row = seq -> Keys key (rows ++ [row]) (seq + 1).
Proof.
  intros [Hb Hn] Hk. split.
  - apply Forall_app. split.
    + eapply Forall_impl; [|exact Hb]. simpl. intros. lia.
    + repeat constructor. lia.
  - rewrite map_app. apply NoDup_app; [exact Hn | repeat constructor; intros [] |].
    intros k Hin [<-|[]]. apply in_map_iff in Hin. destruct Hin as (r & Hr & Hin).
    rewrite Forall_forall in Hb. specialize (Hb r Hin). lia.
Qed.

Lemma Keys_filter {A} (key : A -> Z) (f : A -> bool) (rows : list A) (seq : Z) :
  Keys key rows seq -> Keys key (filter f rows) seq.
Proof.
  intros [Hb Hn]. split.
  - apply Forall_forall. intros r Hr. apply filter_In in Hr.
    rewrite Forall_forall in Hb. apply Hb, Hr.
  - apply NoDup_map_filter, Hn.
Qed.

Lemma Keys_numberRows (rows : list Availability.t) (seq participantId : Z)
    (items : list AvailabilityDraft.t) :
  Keys Availability.id rows seq ->
  Keys Availability.id (rows ++ numberRows seq participantId items)
    (seq + Z.of_nat (List.length (numberRows seq participantId items))).
Proof.
  revert rows seq. induction items as [|item rest IH]; intros rows seq H.
  - simpl. rewrite app_nil_r, Z.add_0_r. exact H.
  - cbn [numberRows List.length].
    set (row := Availability.mk seq participantId (AvailabilityDraft.timeOptionId item)
                  (AvailabilityDraft.status item)).
    replace (rows ++ row :: numberRows (seq + 1) participantId rest)
      with ((rows ++ [row]) ++ numberRows (seq + 1) participantId rest)
      by (rewrite <- app_assoc; reflexivity).
    replace (seq + Z.of_nat (S (List.length (numberRows (seq + 1) participantId rest))))
      with (seq + 1 + Z.of_nat (List.length (numberRows (seq + 1) participantId rest)))
      by lia.
    apply IH, Keys_snoc; [exact H | reflexivity].
Qed.

Lemma StoredEvent_mono (d d' : Database) (eventId : Z) :
  (forall e, In e (events d) -> In e (events d')) ->
  StoredEvent d eventId -> StoredEvent d' eventId.
Proof. intros H (e & Hin & He). exists e. auto. Qed.

Lemma StoredParticipant_mono (d d' : Database) (participantId : Z) :
  (forall p, In p (participants d) -> In p (participants d')) ->
  StoredParticipant d participantId -> StoredParticipant d' participantId.
Proof. intros H (p & Hin & Hp). exists p. auto. Qed.

Section Invariants.
Variable toLowerCase : string -> string.

Lemma Keyed_preserved : Preserved toLowerCase Keyed.
Proof.
  constructor.
  - intros d row (He & Ht & Hp & Ha) Hid _. unfold Keyed. simpl.
    repeat split; try apply He; try apply Ht; try apply Hp; try apply Ha;
      apply (Keys_snoc Event.id _ _ row He Hid).
  - intros d row (He & Ht & Hp & Ha) Hid _. unfold Keyed. simpl.
    repeat split; try apply He; try apply Ht; try apply Hp; try apply Ha;
      apply (Keys_snoc TimeOption.id _ _ row Ht Hid).
  - intros d row (He & Ht & Hp & Ha) Hid _ _. unfold Keyed. simpl.
    repeat split; try apply He; try apply Ht; try apply Hp; try apply Ha;
      apply (Keys_snoc Participant.id _ _ row Hp Hid).
  - intros d participantId (He & Ht & Hp & Ha) _. unfold Keyed. simpl.
    repeat split; try apply He; try apply Ht; try apply Hp;
      apply (Keys_filter Availability.id _ _ _ Ha).
  - intros d participantId items (He & Ht & Hp & Ha) _ _ _ _. unfold Keyed. simpl.
    repeat split; try apply He; try apply Ht; try apply Hp;
      apply (Keys_numberRows _ _ participantId items Ha).
Qed.

Lemma References_preserved : Preserved toLowerCase References.
Proof.
  constructor.
  - intros d row (Ht & Hp & Ha) _ _. unfold References. simpl. repeat split.
    + eapply Forall_impl; [|exact Ht]. intros o. apply StoredEvent_mono.
      simpl. intros e He. apply in_or_app. auto.
    + eapply Forall_impl; [|exact Hp]. intros p. apply StoredEvent_mono.
      simpl. intros e He. apply in_or_app. auto.
    + exact Ha.
  - intros d row (Ht & Hp & Ha) _ He. unfold References. simpl. repeat split.
    + apply Forall_app. split; [exact Ht | repeat constructor; exact He].
    + exact Hp.
    + exact Ha.
  - intros d row (Ht & Hp & Ha) _ He _. unfold References. simpl. repeat split.
    + exact Ht.
    + apply Forall_app. split; [exact Hp | repeat constructor; exact He].
    + eapply Forall_impl; [|exact Ha]. intros a. apply StoredParticipant_mono.
      simpl. intros p Hin. apply in_or_app. auto.
  - intros d participantId (Ht & Hp & Ha) _. unfold References. simpl. repeat split.
    + exact Ht.
    + exact Hp.
    + apply Forall_forall. intros a Hin. apply filter_In in Hin.
      rewrite Forall_forall in Ha. apply Ha, Hin.
  - intros d participantId items (Ht & Hp & Ha) Hstored _ _ _.
    unfold References. simpl. repeat split.
    + exact Ht.
    + exact Hp.
    + apply Forall_app. split; [exact Ha|].
      destruct (numberRows_drafts (availability_id_seq d) participantId items) as [_ Hf].
      eapply Forall_impl; [|exact Hf]. simpl. intros a ->. exact Hstored.
Qed.

Lemma Keeps_preserved (before : Database) : Preserved toLowerCase (Keeps before).
Proof.
  constructor.
  - intros d row ((e & He) & Ht & Hp) _ _. unfold Keeps. simpl. repeat split; auto.
    exists (e ++ [row]). rewrite He, app_assoc. reflexivity.
  - intros d row (He & (t & Ht) & Hp) _ _. unfold Keeps. simpl. repeat split; auto.
    exists (t ++ [row]). rewrite Ht, app_assoc. reflexivity.
  - intros d row (He & Ht & (p & Hp)) _ _ _. unfold Keeps. simpl. repeat split; auto.
    exists (p ++ [row]). rewrite Hp, app_assoc. reflexivity.
  - intros d participantId H _. exact H.
  - intros d participantId items H _ _ _ _. exact H.
Qed.

Lemma ShareIdsUnique_preserved : Preserved toLowerCase ShareIdsUnique.
Proof.
  constructor; try (intros; assumption).
  intros d row H _ Hfree. unfold ShareIdsUnique. simpl. rewrite map_app.
  apply NoDup_app; [exact H | repeat constructor; intros [] |].
  intros s Hin [<-|[]]. apply in_map_iff in Hin. destruct Hin as (e & Hes & Hin).
  assert (shareIdTaken (Event.shareId row) d = true) as Htaken.
  { apply existsb_exists. exists e. split; [exact Hin | apply String.eqb_eq, Hes]. }
  congruence.
Qed.

Lemma AllKnown_preserved : Preserved toLowerCase AllKnown.
Proof.
  constructor; try (intros; assumption).
  - intros d participantId H _. apply AllKnown_removed, H.
  - intros d participantId items H _ _ Hk _. unfold AllKnown. simpl.
    apply Forall_app. split; [exact H|].
    generalize (availability_id_seq d). intros seq. revert seq.
    induction Hk as [|item rest Hitem _ IH]; intros seq; simpl; constructor; auto.
Qed.


Lemma Keyed_empty : Keyed Db.empty.
Proof. repeat split; constructor. Qed.

Lemma References_empty : References Db.empty.
Proof. repeat split; constructor. Qed.
Lemma reachable_Keyed (d : Database) : Routes.reachable toLowerCase d -> Keyed d.
Proof.
  intros H. apply (evolves_preserved toLowerCase Keyed Db.empty d Keyed_preserved);
    [apply reachable_evolves, H | apply Keyed_empty].
Qed.

Lemma reachable_References (d : Database) : Routes.reachable toLowerCase d -> References d.
Proof.
  intros H. apply (evolves_preserved toLowerCase References Db.empty d References_preserved);
    [apply reachable_evolves, H | apply References_empty].
Qed.

(** X1. In every state the server reaches, no two rows of a table have
    the same [id] (the [serial] primary keys of shared/schema.ts), and every
    [id] is below the table's sequence. *)
Theorem identifiers_unique (d : Database) :
  Routes.reachable toLowerCase d ->
  NoDup (map Event.id (events d)) /\
  NoDup (map TimeOption.id (timeOptions d)) /\
  NoDup (map Participant.id (participants d)) /\
  NoDup (map Availability.id (availability d)) /\
  Forall (fun e => Event.id e < events_id_seq d) (events d) /\
  Forall (fun o => TimeOption.id o < time_options_id_seq d) (timeOptions d) /\
  Forall (fun p => Participant.id p < participants_id_seq d) (participants d) /\
  Forall (fun a => Availability.id a < availability_id_seq d) (availability d).
Proof.
  intros H. destruct (reachable_Keyed d H) as ((He & He') & (Ht & Ht') & (Hp & Hp') & Ha & Ha').
  repeat split; assumption.
Qed.

(** X2. In every state the server reaches, every time option and every
    participant carries the [id] of a stored event, and every response
    carries the [id] of a stored participant. *)
Theorem references_resolve (d : Database) :
  Routes.reachable toLowerCase d ->
  (forall o, In o (timeOptions d) ->
     exists e, In e (events d) /\ Event.id e = TimeOption.eventId o) /\
  (forall p, In p (participants d) ->
     exists e, In e (events d) /\ Event.id e = Participant.eventId p) /\
  (forall a, In a (availability d) ->
     exists p, In p (participants d) /\ Participant.id p = Availability.participantId a).
Proof.
  intros H. destruct (reachable_References d H) as (Ht & Hp & Ha).
  rewrite Forall_forall in Ht, Hp, Ha. repeat split; assumption.
Qed.

(** X3. No request removes or changes an event, a time option or a
    participant: whatever the server does from [d] on, the three tables of
    [d] stay as the beginning of the later tables. *)
Theorem rows_are_kept (d d' : Database) :
  Routes.evolves toLowerCase d d' ->
  (exists added, events d' = events d ++ added) /\
  (exists added, timeOptions d' = timeOptions d ++ added) /\
  (exists added, participants d' = participants d ++ added).
Proof.
  intros H. apply (evolves_preserved toLowerCase (Keeps d) d d' (Keeps_preserved d) H).
  repeat split; exists []; rewrite app_nil_r; reflexivity.
Qed.

(** X4. No request makes two events carry the same share identifier:
    distinct share identifiers stay distinct, because an insert under a
    taken identifier is refused. *)
Theorem share_ids_stay_unique (d d' : Database) :
  Routes.evolves toLowerCase d d' ->
  NoDup (map Event.shareId (events d)) ->
  NoDup (map Event.shareId (events d')).
Proof.
  intros H Hd.
  exact (evolves_preserved toLowerCase ShareIdsUnique d d' ShareIdsUnique_preserved H Hd).
Qed.


(** X6. Only the three status labels are ever stored: a database whose
    responses all carry "available", "maybe" or "unavailable" stays so
    under every request. *)
Theorem statuses_stay_known (d d' : Database) :
  Routes.evolves toLowerCase d d' ->
  (forall a, In a (availability d) -> In (Availability.status a) Zod.statusLabels) ->
  forall a, In a (availability d') -> In (Availability.status a) Zod.statusLabels.
Proof.
  intros H Hd.
  assert (AllKnown d) as Hk by (apply Forall_forall; exact Hd).
  pose proof (evolves_preserved toLowerCase AllKnown d d' AllKnown_preserved H Hk) as Hk'.
  unfold AllKnown in Hk'. rewrite Forall_forall in Hk'. exact Hk'.
Qed.
End Invariants.
End StateFacts.

(** ** What the handlers answer and what they leave alone *)

Module HandlerFacts.
Import Db DbFacts Storage StorageFacts CreateEventFacts ParticipateFacts ServerFacts WriteFacts.
Local Open Scope db_scope.

Definition serverError : Routes.Response :=
  Routes.res_status_json 500 (Routes.ErrorBody "Internal server error").

Lemma Reads_database {A} (c : M A) (value : Database -> A -> Prop) (w : World) :
  Reads c value -> database (snd (c w)) = database w.
Proof. intros H. apply (H w). Qed.

Lemma getEvent_reads (id : Z) :
  Reads (Storage.getEvent id)
    (fun d r => r = hd_error (filter (fun e => Event.id e =? id) (events d))).
Proof.
  unfold Storage.getEvent, selectEventsById.
  eapply Reads_bind; [apply Reads_read|]. intros rows.
  eapply Reads_weaken; [apply Reads_ret|]. intros d r -> ->. reflexivity.
Qed.

(** X7. The read operations of the storage layer and the GET handler
    never change the database, whether the database serves or refuses
    their statements. *)
Theorem reads_change_nothing (w : World) :
  (forall shareId,
     database (snd (getEventByShareId shareId w)) = database w /\
     database (snd (Routes.getEvent shareId w)) = database w) /\
  (forall id, database (snd (Storage.getEvent id w)) = database w) /\
  (forall eventId, database (snd (getParticipantsByEventId eventId w)) = database w) /\
  (forall timeOptionId,
     database (snd (getAvailabilityByTimeOption timeOptionId w)) = database w).
Proof.
  split; [|split; [|split]].
  - intros shareId. split.
    + apply (Reads_database _ _ w (getEventByShareId_reads shareId)).
    + apply getEvent_database.
  - intros id. apply (Reads_database _ _ w (getEvent_reads id)).
  - intros eventId. unfold getParticipantsByEventId, selectParticipantsByEventId.
    apply (Reads_database _ _ w (Reads_read _)).
  - intros timeOptionId.
    unfold getAvailabilityByTimeOption, selectAvailabilityByTimeOptionId.
    apply (Reads_database _ _ w (Reads_read _)).
Qed.

Section Handlers.
Variable toLowerCase : string -> string.

Lemma handler_cases (c : M Routes.Response) (onError : Routes.Response) (w : World) :
  (exists r, fst (c w) = Ok r /\ fst (Routes.handler c onError w) = r) \/
  (exists e, fst (c w) = Throw e /\ fst (Routes.handler c onError w) = onError).
Proof.
  unfold Routes.handler. destruct (c w) as [[r|e] w']; simpl; eauto.
Qed.

Lemma postEvent_answer (nanoid : string) (reqBody : Zod.json) (w : World) :
  (exists created, fst (Routes.postEvent nanoid reqBody w)
                   = Routes.res_json (Routes.CreatedEvent created)) \/
  fst (Routes.postEvent nanoid reqBody w) = badRequest.
Proof.
  unfold Routes.postEvent.
  destruct (handler_cases
    (bind (Zod.parse Zod.createEventRequestSchema reqBody)
       (fun parsed => let '(event, timeOptions) := parsed in
          bind (createEvent nanoid event timeOptions)
            (fun createdEvent => ret (Routes.res_json (Routes.CreatedEvent createdEvent)))))
    badRequest w) as [(r & Hc & Hr)|(e & _ & Hr)]; [|right; exact Hr].
  left. unfold badRequest in Hr. rewrite Hr. clear Hr.
  unfold Zod.parse, bind in Hc.
  destruct (Zod.createEventRequestSchema (Some reqBody)) as [[event timeOptions]|];
    [|discriminate Hc].
  cbn [ret] in Hc.
  destruct (createEvent nanoid event timeOptions w) as [[created|e] w']; [|discriminate Hc].
  injection Hc as <-. eauto.
Qed.

Lemma postParticipate_answer (shareId : string) (reqBody : Zod.json) (w : World) :
  (exists participantId,
      fst (Routes.postParticipate toLowerCase shareId reqBody w)
      = Routes.res_json (Routes.Success participantId)) \/
  fst (Routes.postParticipate toLowerCase shareId reqBody w) = notFound \/
  fst (Routes.postParticipate toLowerCase shareId reqBody w) = badRequest.
Proof.
  destruct (Zod.participateRequestSchema (Some reqBody)) as [[name availability]|] eqn:Hparse.
  - rewrite (postParticipate_parsed toLowerCase _ _ _ _ w Hparse).
    destruct (handler_cases (Routes.participate toLowerCase shareId name availability)
                badRequest w) as [(r & Hc & ->)|(e & _ & ->)]; [|auto].
    pose proof (run_participate toLowerCase shareId name availability w) as H.
    unfold run, ParticipateOutcome in H. destruct H as [_ H]. rewrite Hc in H.
    destruct (lookupByShareId (database w) shareId) as [details|].
    + destruct H as [[Hr _]|[Hr _]]; [|discriminate Hr].
      injection Hr as ->. eauto.
    + destruct H as [_ [Hr|Hr]]; [|discriminate Hr]. injection Hr as ->. auto.
  - rewrite (postParticipate_rejected toLowerCase _ _ w Hparse). auto.
Qed.

(** X8. The status codes of the three handlers.  Creating an event
    answers 200 or 400, fetching 200, 404 or 500, participating 200, 404
    or 400.  In particular a refusal by the database is answered 400
    "Invalid request data" by the two POST handlers, and 500 only by the
    GET handler. *)
Theorem status_codes (w : World) :
  (forall nanoid reqBody,
     let answer := fst (Routes.postEvent nanoid reqBody w) in
     (Routes.status answer = 200 \/ Routes.status answer = 400) /\
     (forall fs, faults w = true :: fs -> answer = badRequest)) /\
  (forall shareId,
     let answer := fst (Routes.getEvent shareId w) in
     (Routes.status answer = 200 \/ Routes.status answer = 404 \/
      Routes.status answer = 500) /\
     (forall fs, faults w = true :: fs -> answer = serverError)) /\
  (forall shareId reqBody,
     let answer := fst (Routes.postParticipate toLowerCase shareId reqBody w) in
     (Routes.status answer = 200 \/ Routes.status answer = 404 \/
      Routes.status answer = 400) /\
     (forall fs, faults w = true :: fs -> answer = badRequest)).
Proof.
  split; [|split].
  - intros nanoid reqBody answer. subst answer. split.
    + destruct (postEvent_answer nanoid reqBody w) as [(created & ->)| ->]; auto.
    + intros fs Hfs. destruct w as [d fs0 n]. simpl in Hfs. subst fs0.
      unfold Routes.postEvent, Routes.handler, Zod.parse, bind.
      destruct (Zod.createEventRequestSchema (Some reqBody)) as [[event timeOptions]|];
        reflexivity.
  - intros shareId answer. subst answer. split.
    + rewrite Routes_getEvent_eq.
      destruct (fst (getEventByShareId shareId w)) as [[event|]|e]; auto.
    + intros fs Hfs. destruct w as [d fs0 n]. simpl in Hfs. subst fs0. reflexivity.
  - intros shareId reqBody answer. subst answer. split.
    + destruct (postParticipate_answer shareId reqBody w) as [(p & ->)|[->| ->]]; auto.
    + intros fs Hfs. destruct w as [d fs0 n]. simpl in Hfs. subst fs0.
      unfold Routes.postParticipate, Routes.handler, Zod.parse, bind.
      destruct (Zod.participateRequestSchema (Some reqBody)) as [[name availability]|];
        reflexivity.
Qed.

(** X9. A participate request for a share identifier that no stored
    event carries writes nothing, creates no participant in particular, and
    is answered 404, or 400 when the body is malformed or the database
    refuses the lookup; with a well-formed body and a serving database the
    answer is 404. *)
Theorem participate_unknown_event (shareId : string) (reqBody : Zod.json) (w : World) :
  (forall e, In e (events (database w)) -> Event.shareId e <> shareId) ->
  let answer := fst (Routes.postParticipate toLowerCase shareId reqBody w) in
  database (snd (Routes.postParticipate toLowerCase shareId reqBody w)) = database w /\
  (answer = notFound \/ answer = badRequest) /\
  (Zod.participateRequestSchema (Some reqBody) <> None -> faults w = [] ->
   answer = notFound).
Proof.
  intros Hnone answer. subst answer.
  pose proof (lookupByShareId_None _ _ Hnone) as Hl.
  destruct (Zod.participateRequestSchema (Some reqBody)) as [[name availability]|] eqn:Hparse.
  - rewrite (postParticipate_parsed toLowerCase _ _ _ _ w Hparse), handler_world.
    pose proof (run_participate toLowerCase shareId name availability w) as H.
    unfold run, ParticipateOutcome in H. destruct H as [_ H]. rewrite Hl in H.
    destruct H as [Hd Hr]. split; [exact Hd|]. split.
    + unfold Routes.handler.
      destruct (Routes.participate toLowerCase shareId name availability w) as [[r|e] w'];
        simpl in *; destruct Hr as [Hr|Hr]; try discriminate Hr; auto.
      injection Hr as ->. auto.
    + intros _ Hf. destruct w as [d fs n]. simpl in Hf, Hl. subst fs.
      unfold Routes.handler. rewrite participate_served, Hl. reflexivity.
  - rewrite (postParticipate_rejected toLowerCase _ _ w Hparse).
    split; [reflexivity|]. split; [auto|]. intros Hne. congruence.
Qed.
Lemma parseAll_fails {A} (schema : Zod.schema A) (items : list Zod.json) (item : Zod.json) :
  In item items -> schema (Some item) = None -> Zod.parseAll schema items = None.
Proof.
  induction items as [|j items IH]; simpl; intros Hin Hbad; [destruct Hin|].
  destruct Hin as [->|Hin].
  - rewrite Hbad. reflexivity.
  - rewrite (IH Hin Hbad). destruct (schema (Some j)); reflexivity.
Qed.

(** X10. A participate body in which some entry of [availability] has a
    [status] string other than "available", "maybe" and "unavailable" is
    answered 400 and nothing is written, whatever the other entries are. *)
Theorem unknown_status_is_rejected (shareId : string) (fields itemFields : list (string * Zod.json))
    (items : list Zod.json) (status : string) (w : World) :
  Zod.lookup "availability" fields = Some (Zod.JArray items) ->
  In (Zod.JObject itemFields) items ->
  Zod.lookup "status" itemFields = Some (Zod.JString status) ->
  ~ In status Zod.statusLabels ->
  Routes.postParticipate toLowerCase shareId (Zod.JObject fields) w = (badRequest, w).
Proof.
  intros Hav Hin Hstatus Hbad. apply postParticipate_rejected.
  assert (Zod.availabilityItemSchema (Some (Zod.JObject itemFields)) = None) as Hitem.
  { unfold Zod.availabilityItemSchema, Zod.andThen. cbn [Zod.field].
    destruct (Zod.z_number (Zod.lookup "timeOptionId" itemFields)); [|reflexivity].
    rewrite Hstatus. cbn [Zod.z_enum].
    destruct (existsb (String.eqb status) Zod.statusLabels) eqn:E; [|reflexivity].
    apply existsb_exists in E. destruct E as (x & Hx & Hs).
    apply String.eqb_eq in Hs. subst x. contradiction. }
  unfold Zod.participateRequestSchema, Zod.andThen. cbn [Zod.field].
  destruct (Zod.participantSchema (Zod.lookup "participant" fields)); [|reflexivity].
  rewrite Hav. cbn [Zod.z_array].
  rewrite (parseAll_fails _ _ _ Hin Hitem). reflexivity.
Qed.

Lemma resolveParticipant_timeOptions (d : Database) (eventId : Z) (name : string) (n : Z) :
  timeOptions (snd (resolveParticipant toLowerCase d eventId name n)) = timeOptions d.
Proof.
  unfold resolveParticipant.
  destruct (find (Routes.sameName toLowerCase name) (existingIn d eventId)); reflexivity.
Qed.

Lemma filter_other (q participantId : Z) (l : list Availability.t) :
  q <> participantId ->
  filter (fun a => Availability.participantId a =? q)
    (filter (fun a => negb (Availability.participantId a =? participantId)) l)
  = filter (fun a => Availability.participantId a =? q) l.
Proof.
  intros Hne. induction l as [|a l IH]; simpl; [reflexivity|].
  destruct (Z.eqb_spec (Availability.participantId a) participantId) as [E|E]; simpl.
  - destruct (Z.eqb_spec (Availability.participantId a) q) as [E'|E']; [congruence|exact IH].
  - rewrite IH. reflexivity.
Qed.

Lemma filter_numberRows_other (q seq participantId : Z) (items : list AvailabilityDraft.t) :
  q <> participantId ->
  filter (fun a => Availability.participantId a =? q) (numberRows seq participantId items)
  = [].
Proof.
  intros Hne. revert seq. induction items as [|item rest IH]; intros seq; simpl;
    [reflexivity|].
  destruct (Z.eqb_spec participantId q) as [E|E]; [congruence | apply IH].
Qed.

(** X11. A participate request, however it ends, touches the responses
    of one participant only: the responses of every other participant, the
    events and the time options are as before, and that participant's
    responses are as before, or gone (the delete was served and the request
    failed after it), or exactly the submitted list. *)
Theorem participate_touches_one_participant (shareId : string) (reqBody : Zod.json)
    (w : World) :
  let d := database w in
  let d' := database (snd (Routes.postParticipate toLowerCase shareId reqBody w)) in
  events d' = events d /\ timeOptions d' = timeOptions d /\
  exists participantId,
    (forall q, q <> participantId -> responsesBy d' q = responsesBy d q) /\
    (responsesBy d' participantId = responsesBy d participantId \/
     responsesBy d' participantId = [] \/
     exists name availabilityList,
       Zod.participateRequestSchema (Some reqBody) = Some (name, availabilityList) /\
       map draftOfResponse (responsesBy d' participantId) = availabilityList).
Proof.
  cbv zeta.
  destruct (postParticipate_writes toLowerCase shareId reqBody w)
    as [->|(name & l & details & Hparse & _ & H)].
  - split; [reflexivity|]. split; [reflexivity|]. exists 0. auto.
  - cbv zeta in H.
    remember (Event.id (EventWithDetails.event details)) as eventId eqn:Heid.
    destruct (resolveParticipant_found toLowerCase (database w) eventId name (now w))
      as (He & Ha & _).
    pose proof (resolveParticipant_timeOptions (database w) eventId name (now w)) as Ht.
    remember (fst (resolveParticipant toLowerCase (database w) eventId name (now w)))
      as participantId eqn:Hpid.
    remember (snd (resolveParticipant toLowerCase (database w) eventId name (now w)))
      as d1 eqn:Hd1.
    assert (forall q, responsesBy d1 q = responsesBy (database w) q) as H1
      by (intros q; unfold responsesBy; rewrite Ha; reflexivity).
    destruct H as [->|[->| ->]].
    + split; [exact He|]. split; [exact Ht|]. exists participantId. auto.
    + split; [exact He|]. split; [exact Ht|]. exists participantId. split.
      * intros q Hq. rewrite <- H1. unfold responsesBy. simpl. apply filter_other, Hq.
      * right. left. apply responsesBy_removed.
    + destruct (replaceAvailability_tables participantId l d1) as (He' & Ht' & _ & Ha').
      split; [rewrite He'; exact He|]. split; [rewrite Ht'; exact Ht|].
      exists participantId. split.
      * intros q Hq. rewrite <- H1. unfold responsesBy. rewrite Ha', filter_app.
        rewrite filter_other, filter_numberRows_other by exact Hq.
        apply app_nil_r.
      * right. right. exists name, l. split; [exact Hparse|]. apply responsesBy_replaced.
Qed.
Lemma postEvent_created (nanoid : string) (reqBody : Zod.json) (w w' : World)
    (created : EventWithTimeOptions.t) :
  Routes.postEvent nanoid reqBody w = (Routes.res_json (Routes.CreatedEvent created), w') ->
  exists event drafts,
    let d := database w in
    let row := eventRow nanoid event d (now w) in
    let rows := numberOptions (time_options_id_seq d) (events_id_seq d) drafts in
    Zod.createEventRequestSchema (Some reqBody) = Some (event, drafts) /\
    shareIdTaken nanoid d = false /\
    created = EventWithTimeOptions.mk row rows /\
    database w' = addTimeOptions rows (addEvent row d).
Proof.
  unfold Routes.postEvent, Routes.handler, Zod.parse. intros Hrun.
  destruct (Zod.createEventRequestSchema (Some reqBody)) as [[event drafts]|];
    [|discriminate Hrun].
  unfold bind at 1 in Hrun. cbn [ret] in Hrun. cbv beta iota in Hrun.
  pose proof (run_createEvent nanoid event drafts w) as H. unfold run in H.
  unfold bind in Hrun.
  destruct (createEvent nanoid event drafts w) as [[c|e] w1]; [|discriminate Hrun].
  simpl in H. cbn [ret] in Hrun. injection Hrun as -> ->.
  destruct H as (_ & [[Hr _]|(Hfree & k & _ & Hd & -> & ->)]); [discriminate Hr|].
  rewrite firstn_all in Hd. exists event, drafts. cbv zeta. auto.
Qed.

Lemma filter_none {A} (f : A -> bool) (l : list A) :
  (forall x, In x l -> f x = false) -> filter f l = [].
Proof.
  induction l as [|x l IH]; simpl; intros H; [reflexivity|].
  rewrite (H x) by auto. apply IH. auto.
Qed.

Lemma filter_all {A} (f : A -> bool) (l : list A) :
  (forall x, In x l -> f x = true) -> filter f l = l.
Proof.
  induction l as [|x l IH]; simpl; intros H; [reflexivity|].
  rewrite (H x) by auto. rewrite IH; auto.
Qed.

(** X12. A created event can be fetched.  After POST /api/events answers
    200 in a reachable state, a served lookup by the new share identifier
    returns that event, its time options are exactly the created ones in
    input order, and it has no participant yet. *)
Theorem created_event_is_found (d : Database) (fs : list bool) (n : Z) (nanoid : string)
    (reqBody : Zod.json) (created : EventWithTimeOptions.t) (w' : World) :
  Routes.reachable toLowerCase d ->
  Routes.postEvent nanoid reqBody (mkWorld d fs n)
    = (Routes.res_json (Routes.CreatedEvent created), w') ->
  exists details,
    (forall n', fst (getEventByShareId nanoid (mkWorld (database w') [] n'))
                = Ok (Some details)) /\
    EventWithDetails.event details = EventWithTimeOptions.event created /\
    Event.shareId (EventWithDetails.event details) = nanoid /\
    map TimeOptionWithAvailability.timeOption (EventWithDetails.timeOptions details)
      = EventWithTimeOptions.timeOptions created /\
    EventWithDetails.participantCount details = 0.
Proof.
  intros Hreach Hrun.
  destruct (postEvent_created _ _ _ _ _ Hrun) as (event & drafts & Hparse & Hfree & -> & Hd').
  cbn [database now] in *.
  set (row := eventRow nanoid event d n) in *.
  set (rows := numberOptions (time_options_id_seq d) (events_id_seq d) drafts) in *.
  destruct (addTimeOptions_tables rows (addEvent row d)) as (He & Ht & Hp & _).
  rewrite <- Hd' in He, Ht, Hp. simpl in He, Ht, Hp.
  destruct (StateFacts.reachable_Keyed toLowerCase d Hreach) as ((Hb & _) & _).
  destruct (StateFacts.reachable_References toLowerCase d Hreach) as (Hrt & Hrp & _).
  rewrite Forall_forall in Hb, Hrt, Hrp.
  assert (eventsWithShareId (database w') nanoid = [row]) as Hfound.
  { unfold eventsWithShareId. rewrite He, filter_app. simpl.
    rewrite String.eqb_refl, filter_none; [reflexivity|].
    intros e Hin. destruct (String.eqb (Event.shareId e) nanoid) eqn:E; [|reflexivity].
    assert (shareIdTaken nanoid d = true) as Htaken
      by (apply existsb_exists; exists e; auto).
    congruence. }
  exists (detailsOf (database w') row). split; [|split; [|split; [|split]]].
  - intros n'. rewrite getEventByShareId_served. unfold lookupByShareId.
    rewrite Hfound. reflexivity.
  - reflexivity.
  - reflexivity.
  - simpl. rewrite Ht, filter_app, map_map, filter_none, filter_all.
    + simpl. apply map_id.
    + intros o Ho. apply Z.eqb_eq.
      destruct (numberOptions_drafts (time_options_id_seq d) (events_id_seq d) drafts)
        as (_ & Hf & _).
      rewrite Forall_forall in Hf. apply Hf, Ho.
    + intros o Ho. apply Z.eqb_neq. destruct (Hrt o Ho) as (e & Hin & Heq).
      specialize (Hb e Hin). simpl. lia.
  - simpl. rewrite Hp, filter_none; [reflexivity|].
    intros q Hq. apply Z.eqb_neq. destruct (Hrp q Hq) as (e & Hin & Heq).
    specialize (Hb e Hin). simpl. lia.
Qed.

Lemma lookupByShareId_same_events (d d' : Database) (shareId : string)
    (details : EventWithDetails.t) :
  events d' = events d ->
  lookupByShareId d shareId = Some details ->
  lookupByShareId d' shareId = Some (detailsOf d' (EventWithDetails.event details)).
Proof.
  unfold lookupByShareId, eventsWithShareId. intros ->.
  destruct (filter _ (events d)) as [|event rest]; simpl; [discriminate|].
  intros H. injection H as <-. reflexivity.
Qed.

Lemma statuses_of_participant (d : Database) (participantId : Z)
    (rows : list Availability.t) :
  map ParticipantStatus.status
    (filter (fun s => ParticipantStatus.id s =? participantId) (map (statusOf d) rows))
  = map Availability.status
      (filter (fun a => Availability.participantId a =? participantId) rows).
Proof.
  induction rows as [|a rows IH]; simpl; [reflexivity|].
  destruct (Availability.participantId a =? participantId); simpl; rewrite IH; reflexivity.
Qed.

Lemma filter_swap {A} (f g : A -> bool) (l : list A) :
  filter f (filter g l) = filter g (filter f l).
Proof.
  induction l as [|x l IH]; simpl; [reflexivity|].
  destruct (f x) eqn:Ef, (g x) eqn:Eg; simpl; rewrite ?Ef, ?Eg, IH; reflexivity.
Qed.

Lemma statuses_of_drafts (timeOptionId : Z) (rows : list Availability.t) :
  map Availability.status
    (filter (fun a => Availability.timeOptionId a =? timeOptionId) rows)
  = map AvailabilityDraft.status
      (filter (fun i => AvailabilityDraft.timeOptionId i =? timeOptionId)
         (map draftOfResponse rows)).
Proof.
  induction rows as [|a rows IH]; simpl; [reflexivity|].
  destruct (Availability.timeOptionId a =? timeOptionId); simpl; rewrite IH; reflexivity.
Qed.

(** X13. A submission can be read back.  After a participate request is
    answered 200, a served lookup of the event lists, for each of its time
    options, the participant with exactly the statuses submitted for that
    time option, in the order submitted. *)
Theorem submitted_statuses_are_shown (d : Database) (fs : list bool) (n : Z)
    (shareId : string) (reqBody : Zod.json) (name : string)
    (availabilityList : list AvailabilityDraft.t) (participantId : Z) (w' : World) :
  Zod.participateRequestSchema (Some reqBody) = Some (name, availabilityList) ->
  Routes.postParticipate toLowerCase shareId reqBody (mkWorld d fs n)
    = (Routes.res_json (Routes.Success participantId), w') ->
  exists details,
    (forall n', fst (getEventByShareId shareId (mkWorld (database w') [] n'))
                = Ok (Some details)) /\
    Forall (fun o =>
              map ParticipantStatus.status
                (filter (fun s => ParticipantStatus.id s =? participantId)
                   (TimeOptionWithAvailability.participants o))
              = map AvailabilityDraft.status
                  (filter (fun i => AvailabilityDraft.timeOptionId i
                                    =? TimeOptionWithAvailability.id o)
                     availabilityList))
           (EventWithDetails.timeOptions details).
Proof.
  intros Hparse Hrun.
  destruct (postParticipate_acknowledged toLowerCase _ _ _ _ _ _ _ Hparse Hrun)
    as (before & Hl & Hp & Hd').
  cbn [database now] in *. cbv zeta in Hp, Hd'.
  remember (Event.id (EventWithDetails.event before)) as eventId eqn:Heid.
  destruct (resolveParticipant_found toLowerCase d eventId name n) as (He & _).
  remember (snd (resolveParticipant toLowerCase d eventId name n)) as d1 eqn:Hd1.
  destruct (replaceAvailability_tables participantId availabilityList d1) as (He' & _).
  rewrite <- Hd' in He'.
  assert (events (database w') = events d) as Hev by congruence.
  exists (detailsOf (database w') (EventWithDetails.event before)). split.
  - intros n'. rewrite getEventByShareId_served.
    rewrite (lookupByShareId_same_events d _ _ _ Hev Hl). reflexivity.
  - simpl. apply Forall_forall. intros o Ho.
    apply in_map_iff in Ho. destruct Ho as (timeOption & <- & _).
    unfold aggregate. cbn [TimeOptionWithAvailability.participants
                           TimeOptionWithAvailability.id
                           TimeOptionWithAvailability.timeOption].
    rewrite statuses_of_participant. unfold responsesOf. rewrite filter_swap.
    fold (responsesBy (database w') participantId).
    rewrite statuses_of_drafts, Hd', responsesBy_replaced. reflexivity.
Qed.

(** X14. The participant count of an event after a participate request
    answered 200 is the count before it, plus one exactly when no
    participant of the event bore the submitted name, letter case apart. *)
Theorem participant_count_after_submission (d : Database) (fs : list bool) (n : Z)
    (shareId : string) (reqBody : Zod.json) (name : string)
    (availabilityList : list AvailabilityDraft.t) (participantId : Z) (w' : World) :
  Zod.participateRequestSchema (Some reqBody) = Some (name, availabilityList) ->
  Routes.postParticipate toLowerCase shareId reqBody (mkWorld d fs n)
    = (Routes.res_json (Routes.Success participantId), w') ->
  exists before after,
    fst (getEventByShareId shareId (mkWorld d [] n)) = Ok (Some before) /\
    fst (getEventByShareId shareId (mkWorld (database w') [] n)) = Ok (Some after) /\
    EventWithDetails.participantCount after
    = EventWithDetails.participantCount before
      + match find (Routes.sameName toLowerCase name)
                (existingIn d (Event.id (EventWithDetails.event before))) with
        | Some _ => 0
        | None => 1
        end.
Proof.
  intros Hparse Hrun.
  destruct (postParticipate_acknowledged toLowerCase _ _ _ _ _ _ _ Hparse Hrun)
    as (before & Hl & Hp & Hd').
  cbn [database now] in *. cbv zeta in Hp, Hd'.
  pose proof Hl as Hbefore. apply lookupByShareId_Some in Hbefore.
  destruct Hbefore as (event & Hb & _ & _).
  remember (Event.id (EventWithDetails.event before)) as eventId eqn:Heid.
  destruct (resolveParticipant_found toLowerCase d eventId name n) as (He & _).
  assert (events (database w') = events d /\
          participants (database w')
          = participants (snd (resolveParticipant toLowerCase d eventId name n)))
    as [Hev Hps].
  { rewrite Hd'.
    destruct (replaceAvailability_tables participantId availabilityList
                (snd (resolveParticipant toLowerCase d eventId name n)))
      as (-> & _ & -> & _). auto. }
  exists before, (detailsOf (database w') (EventWithDetails.event before)).
  split; [|split].
  - rewrite getEventByShareId_served, Hl. reflexivity.
  - rewrite getEventByShareId_served.
    rewrite (lookupByShareId_same_events d _ _ _ Hev Hl). reflexivity.
  - unfold detailsOf at 1.
    cbn [EventWithDetails.participantCount EventWithDetails.event].
    rewrite Hps. clear Hps Hd' Hp He Hev Hl Hrun. subst before eventId. simpl.
    unfold resolveParticipant, existingIn.
    destruct (find (Routes.sameName toLowerCase name) _); simpl; [lia|].
    rewrite filter_app, length_app. simpl. rewrite Z.eqb_refl. simpl. lia.
Qed.

(** X15. Lookup by event identifier.  In a reachable state [getEvent]
    returns a stored event when asked for its [id] (a refusal apart, and
    always when the database serves), and never returns an event for an
    [id] that no stored event has. *)
Theorem getEvent_finds_by_id (d : Database) (fs : list bool) (n : Z) (id : Z) :
  Routes.reachable toLowerCase d ->
  let answer := fst (Storage.getEvent id (mkWorld d fs n)) in
  (forall e, In e (events d) -> Event.id e = id ->
     (answer = Ok (Some e) \/ answer = Throw DatabaseError) /\
     (fs = [] -> answer = Ok (Some e))) /\
  ((forall e, In e (events d) -> Event.id e <> id) ->
     answer = Ok None \/ answer = Throw DatabaseError).
Proof.
  intros Hreach answer.
  destruct (StateFacts.reachable_Keyed toLowerCase d Hreach) as ((_ & Hnd) & _).
  pose proof (getEvent_reads id (mkWorld d fs n)) as H. unfold run in H.
  destruct H as (_ & _ & H). cbn [database] in H. fold answer in H.
  split.
  - intros e Hin Hid.
    assert (hd_error (filter (fun e0 => Event.id e0 =? id) (events d)) = Some e) as Hhd.
    { destruct (filter (fun e0 => Event.id e0 =? id) (events d)) as [|e0 rest] eqn:E.
      - assert (In e (filter (fun e0 => Event.id e0 =? id) (events d))) as Hf
          by (apply filter_In; split; [exact Hin | apply Z.eqb_eq, Hid]).
        rewrite E in Hf. destruct Hf.
      - simpl. f_equal.
        assert (In e0 (filter (fun e0 => Event.id e0 =? id) (events d))) as Hf
          by (rewrite E; left; reflexivity).
        apply filter_In in Hf. destruct Hf as [Hin0 Hid0]. apply Z.eqb_eq in Hid0.
        apply (NoDup_map_eq Event.id (events d)); [exact Hnd | assumption.. | congruence]. }
    split.
    + destruct answer as [r|err]; [left | right]; congruence.
    + intros ->. subst answer. unfold Storage.getEvent, selectEventsById, bind.
      rewrite read_served. cbn [ret fst]. rewrite Hhd. reflexivity.
  - intros Hnone. destruct answer as [r|err]; [left | right; congruence].
    rewrite H, filter_none; [reflexivity|].
    intros e Hin. apply Z.eqb_neq, Hnone, Hin.
Qed.
End Handlers.
End HandlerFacts.

(** ** client/src/pages/event-view.tsx: the summary table *)

From Stdlib Require Import Permutation Sorted.

Module OptionWithStats.
(** [{ ...option, stats }] *)
Record t := mk {
  option : TimeOptionWithAvailability.t;
  stats : AvailabilityCount.t
}.
Definition available (r : t) : Z := AvailabilityCount.available (stats r).
Definition maybe (r : t) : Z := AvailabilityCount.maybe (stats r).
End OptionWithStats.

Module EventView.
(** [Array.prototype.sort(compareFn)].  The sort is stable, and for a
    comparator that orders consistently, as the one below does, its result
    is the one arrangement that is ordered and keeps equal elements in their
    input order; inserting the elements from the last to the first, each in
    front of the first element it does not sort after, computes it. *)
Fixpoint insertSorted {A} (compareFn : A -> A -> Z) (x : A) (sorted : list A) : list A :=
  match sorted with
  | [] => [x]
  | y :: rest =>
    if compareFn x y <=? 0 then x :: sorted else y :: insertSorted compareFn x rest
  end.

Definition sort {A} (compareFn : A -> A -> Z) (l : list A) : list A :=
  fold_right (insertSorted compareFn) [] l.

Definition countParticipants (label : string) (participants : list ParticipantStatus.t) : Z :=
  Z.of_nat (List.length
    (filter (fun p => String.eqb (ParticipantStatus.status p) label) participants)).

(** The callback of [timeOptions.map(...)]. *)
Definition withStats (option : TimeOptionWithAvailability.t) : OptionWithStats.t :=
  let participants := TimeOptionWithAvailability.participants option in
  let available := countParticipants "available" participants in
  let maybe := countParticipants "maybe" participants in
  let unavailable := countParticipants "unavailable" participants in
  let total := available + maybe + unavailable in
  OptionWithStats.mk option (AvailabilityCount.mk available maybe unavailable total).

(** The comparator: by available first, then by maybe, greater first. *)
Definition compareStats (a b : OptionWithStats.t) : Z :=
  if negb (OptionWithStats.available b =? OptionWithStats.available a)
  then OptionWithStats.available b - OptionWithStats.available a
  else OptionWithStats.maybe b - OptionWithStats.maybe a.

Definition calculateSummaryStats (timeOptions : list TimeOptionWithAvailability.t)
    : list OptionWithStats.t :=
  sort compareStats (map withStats timeOptions).
End EventView.

Module EventViewFacts.
Import Db Storage StorageFacts EventView.

(** [a] does not sort after [b]: more available, or as many and at least
    as many maybe. *)
Definition NotAfter (a b : OptionWithStats.t) : Prop :=
  OptionWithStats.available b < OptionWithStats.available a \/
  (OptionWithStats.available b = OptionWithStats.available a /\
   OptionWithStats.maybe b <= OptionWithStats.maybe a).

Definition sameRank (available maybe : Z) (r : OptionWithStats.t) : bool :=
  (OptionWithStats.available r =? available) && (OptionWithStats.maybe r =? maybe).

Lemma compareStats_NotAfter (a b : OptionWithStats.t) :
  compareStats a b <= 0 <-> NotAfter a b.
Proof.
  unfold compareStats, NotAfter.
  destruct (Z.eqb_spec (OptionWithStats.available b) (OptionWithStats.available a));
    simpl; lia.
Qed.

Lemma NotAfter_trans (a b c : OptionWithStats.t) :
  NotAfter a b -> NotAfter b c -> NotAfter a c.
Proof. unfold NotAfter. lia. Qed.

Lemma NotAfter_total (a b : OptionWithStats.t) : NotAfter a b \/ NotAfter b a.
Proof. unfold NotAfter. lia. Qed.

Lemma insertSorted_perm {A} (compareFn : A -> A -> Z) (x : A) (l : list A) :
  Permutation (insertSorted compareFn x l) (x :: l).
Proof.
  induction l as [|y l IH]; simpl; [apply Permutation_refl|].
  destruct (compareFn x y <=? 0); [apply Permutation_refl|].
  eapply Permutation_trans; [apply perm_skip, IH | apply perm_swap].
Qed.

Lemma sort_perm {A} (compareFn : A -> A -> Z) (l : list A) :
  Permutation (sort compareFn l) l.
Proof.
  induction l as [|x l IH]; simpl; [constructor|].
  eapply Permutation_trans; [apply insertSorted_perm | apply perm_skip, IH].
Qed.

Lemma insertSorted_sorted (x : OptionWithStats.t) (l : list OptionWithStats.t) :
  StronglySorted NotAfter l -> StronglySorted NotAfter (insertSorted compareStats x l).
Proof.
  induction 1 as [|y l Hl IH Hy]; simpl; [repeat constructor|].
  destruct (Z.leb_spec (compareStats x y) 0) as [Hle|Hgt].
  - apply compareStats_NotAfter in Hle. constructor; [constructor; assumption|].
    constructor; [exact Hle|].
    eapply Forall_impl; [|exact Hy]. intros z. apply NotAfter_trans, Hle.
  - constructor; [exact IH|].
    assert (NotAfter y x) as Hyx.
    { destruct (NotAfter_total y x) as [H|H]; [exact H|].
      apply compareStats_NotAfter in H. lia. }
    eapply Permutation_Forall; [apply Permutation_sym, insertSorted_perm|].
    constructor; assumption.
Qed.

Lemma sort_sorted (l : list OptionWithStats.t) :
  StronglySorted NotAfter (sort compareStats l).
Proof.
  induction l as [|x l IH]; simpl; [constructor | apply insertSorted_sorted, IH].
Qed.

(** Rows of a rank pass the rows of a better rank and stop at the first
    row they do not sort after. *)
Lemma insertSorted_front {A} (compareFn : A -> A -> Z) (x : A) (l : list A) :
  (forall y, In y l -> compareFn x y <= 0) -> insertSorted compareFn x l = x :: l.
Proof.
  destruct l as [|y l]; simpl; [reflexivity|]. intros H.
  destruct (Z.leb_spec (compareFn x y) 0) as [_|Hgt]; [reflexivity|].
  specialize (H y (or_introl eq_refl)). lia.
Qed.

Lemma insertSorted_skip {A} (compareFn : A -> A -> Z) (x : A) (before after : list A) :
  (forall y, In y before -> 0 < compareFn x y) ->
  insertSorted compareFn x (before ++ after) = before ++ insertSorted compareFn x after.
Proof.
  induction before as [|y before IH]; simpl; intros H; [reflexivity|].
  destruct (Z.leb_spec (compareFn x y) 0) as [Hle|_].
  - specialize (H y (or_introl eq_refl)). lia.
  - rewrite IH; auto.
Qed.

Lemma sort_stable (available maybe : Z) (l : list OptionWithStats.t) :
  filter (sameRank available maybe) (sort compareStats l)
  = filter (sameRank available maybe) l.
Proof.
  induction l as [|x l IH]; simpl; [reflexivity|]. rewrite <- IH. clear IH.
  induction (sort compareStats l) as [|y s IHs]; simpl; [reflexivity|].
  destruct (Z.leb_spec (compareStats x y) 0) as [Hle|Hgt]; [reflexivity|].
  simpl. rewrite IHs.
  destruct (sameRank available maybe x) eqn:Ex, (sameRank available maybe y) eqn:Ey;
    try reflexivity.
  exfalso. unfold sameRank in Ex, Ey. unfold compareStats in Hgt.
  apply andb_true_iff in Ex, Ey. rewrite !Z.eqb_eq in Ex, Ey.
  destruct Ex as [Exa Exm], Ey as [Eya Eym].
  rewrite Exa, Eya, Z.eqb_refl, Exm, Eym in Hgt. simpl in Hgt. lia.
Qed.

(** X16. The summary table is the stable descending sort of the options
    by their available and then their maybe tallies: it holds the same rows
    as the input, each row is followed only by rows that have fewer
    available, or as many available and no more maybe, and rows of equal
    tallies keep their input order. *)
Theorem calculateSummaryStats_sorts (timeOptions : list TimeOptionWithAvailability.t) :
  Permutation (calculateSummaryStats timeOptions) (map withStats timeOptions) /\
  StronglySorted NotAfter (calculateSummaryStats timeOptions) /\
  forall available maybe,
    filter (sameRank available maybe) (calculateSummaryStats timeOptions)
    = filter (sameRank available maybe) (map withStats timeOptions).
Proof.
  unfold calculateSummaryStats. split; [apply sort_perm|]. split; [apply sort_sorted|].
  intros available maybe. apply sort_stable.
Qed.
Lemma countParticipants_statusOf (label : string) (d : Database)
    (rows : list Availability.t) :
  countParticipants label (map (statusOf d) rows) = countStatus label rows.
Proof.
  unfold countParticipants, countStatus. f_equal.
  induction rows as [|a rows IH]; simpl; [reflexivity|].
  destruct (String.eqb (Availability.status a) label); simpl; rewrite IH; reflexivity.
Qed.

(** The tallies recomputed from the participant list are those the
    option carries. *)
Definition Consistent (o : TimeOptionWithAvailability.t) : Prop :=
  OptionWithStats.available (withStats o) = Utils.available o /\
  OptionWithStats.maybe (withStats o) = Utils.maybe o.

Lemma aggregate_Consistent (d : Database) (timeOption : TimeOption.t) :
  Consistent (aggregate d timeOption).
Proof.
  unfold Consistent, OptionWithStats.available, OptionWithStats.maybe, withStats, aggregate,
    Utils.available, Utils.maybe. simpl.
  rewrite !countParticipants_statusOf. auto.
Qed.

Lemma served_options (d : Database) (fs : list bool) (n : Z) (shareId : string)
    (details : EventWithDetails.t) :
  fst (getEventByShareId shareId (mkWorld d fs n)) = Ok (Some details) ->
  forall o, In o (EventWithDetails.timeOptions details) ->
    exists timeOption, o = aggregate d timeOption.
Proof.
  intros Hrun o Ho.
  destruct (getEventByShareId_outcome shareId (mkWorld d fs n)) as [E|E];
    rewrite E in Hrun; [|discriminate].
  injection Hrun as Hrun. simpl in Hrun.
  apply lookupByShareId_Some in Hrun. destruct Hrun as (event & -> & _ & _).
  simpl in Ho. apply in_map_iff in Ho. destruct Ho as (timeOption & <- & _).
  exists timeOption. reflexivity.
Qed.

(** X17. On the options [getEventByShareId] returns, the tallies the
    event view recomputes from the participant lists are the tallies the
    server attached: bucket for bucket, and also the total when every stored
    response carries one of the three status labels. *)
Theorem summary_agrees_with_server (d : Database) (fs : list bool) (n : Z)
    (shareId : string) (details : EventWithDetails.t) :
  fst (getEventByShareId shareId (mkWorld d fs n)) = Ok (Some details) ->
  Forall (fun o =>
            let s := OptionWithStats.stats (withStats o) in
            let c := TimeOptionWithAvailability.availabilityCount o in
            AvailabilityCount.available s = AvailabilityCount.available c /\
            AvailabilityCount.maybe s = AvailabilityCount.maybe c /\
            AvailabilityCount.unavailable s = AvailabilityCount.unavailable c /\
            (Forall KnownStatus (availability d) ->
             AvailabilityCount.total s = AvailabilityCount.total c))
         (EventWithDetails.timeOptions details).
Proof.
  intros Hrun. apply Forall_forall. intros o Ho.
  destruct (served_options d fs n shareId details Hrun o Ho) as (timeOption & ->).
  unfold withStats, aggregate. simpl. rewrite !countParticipants_statusOf.
  split; [reflexivity|]. split; [reflexivity|]. split; [reflexivity|].
  intros Hknown. symmetry. apply length_by_status.
  apply Forall_forall. intros a Ha. unfold responsesOf in Ha. apply filter_In in Ha.
  rewrite Forall_forall in Hknown. apply Hknown, Ha.
Qed.

Definition Below (available maybe : Z) (r : OptionWithStats.t) : Prop :=
  OptionWithStats.available r < available \/
  (OptionWithStats.available r = available /\ OptionWithStats.maybe r <= maybe).

Lemma sort_best_first (available maybe : Z) (l : list OptionWithStats.t) :
  (forall r, In r l -> Below available maybe r) ->
  sort compareStats l
  = filter (sameRank available maybe) l
    ++ sort compareStats (filter (fun r => negb (sameRank available maybe r)) l).
Proof.
  induction l as [|x l IH]; intros Hb; [reflexivity|].
  cbn [sort fold_right filter]. fold (sort compareStats l).
  rewrite IH by (intros r Hr; apply Hb; right; exact Hr).
  assert (Below available maybe x) as Hx by (apply Hb; left; reflexivity).
  destruct (sameRank available maybe x) eqn:Ex; cbn [negb].
  - unfold sameRank in Ex. apply andb_true_iff in Ex. rewrite !Z.eqb_eq in Ex.
    rewrite insertSorted_front; [reflexivity|].
    intros y Hy. apply compareStats_NotAfter.
    assert (In y l) as Hyl.
    { apply in_app_or in Hy. destruct Hy as [Hy|Hy].
      - apply filter_In in Hy. apply Hy.
      - apply (Permutation_in _ (sort_perm compareStats _)) in Hy.
        apply filter_In in Hy. apply Hy. }
    specialize (Hb y (or_intror Hyl)). unfold Below in Hb. unfold NotAfter. lia.
  - rewrite insertSorted_skip; [reflexivity|].
    intros y Hy. apply filter_In in Hy. destruct Hy as [_ Ey].
    unfold sameRank in Ex, Ey. apply andb_true_iff in Ey. rewrite !Z.eqb_eq in Ey.
    apply andb_false_iff in Ex. rewrite !Z.eqb_neq in Ex.
    unfold Below in Hx. unfold compareStats.
    destruct (Z.eqb_spec (OptionWithStats.available y) (OptionWithStats.available x));
      simpl; lia.
Qed.

Lemma bestOptions_rank (l : list TimeOptionWithAvailability.t) :
  l <> [] ->
  exists available maybe,
    Utils.bestOptions l
    = filter (fun o => (Utils.available o =? available) && (Utils.maybe o =? maybe)) l /\
    forall o, In o l ->
      Utils.available o < available \/
      (Utils.available o = available /\ Utils.maybe o <= maybe).
Proof.
  intros Hl.
  destruct (UtilsFacts.topAvailableOptions_spec l Hl) as (mA & HmA & (oA & HoA & HoAm) & HubA).
  assert (Htop : forall o, In o (Utils.topAvailableOptions l)
                           <-> In o l /\ Utils.available o = mA).
  { intros o. unfold Utils.topAvailableOptions. rewrite HmA, filter_In. simpl.
    rewrite Z.eqb_eq. reflexivity. }
  destruct (UtilsFacts.Math_max_spec (map Utils.maybe (Utils.topAvailableOptions l)))
    as (mM & HmM & _ & HubM).
  { intros Hnil. apply map_eq_nil in Hnil.
    assert (In oA (Utils.topAvailableOptions l)) as Hin by (apply Htop; auto).
    rewrite Hnil in Hin. exact Hin. }
  exists mA, mM. split.
  - unfold Utils.bestOptions. rewrite HmM. unfold Utils.topAvailableOptions. rewrite HmA.
    rewrite UtilsFacts.filter_filter. reflexivity.
  - intros o Ho. specialize (HubA o Ho).
    destruct (Z.eq_dec (Utils.available o) mA) as [E|E]; [|lia].
    right. split; [exact E|]. apply HubM, in_map, Htop. auto.
Qed.

Lemma filter_map_withStats (available maybe : Z) (l : list TimeOptionWithAvailability.t) :
  Forall Consistent l ->
  map OptionWithStats.option (filter (sameRank available maybe) (map withStats l))
  = filter (fun o => (Utils.available o =? available) && (Utils.maybe o =? maybe)) l.
Proof.
  induction 1 as [|o l [Ha Hm] _ IH]; simpl; [reflexivity|].
  unfold sameRank at 1. rewrite Ha, Hm.
  destruct ((Utils.available o =? available) && (Utils.maybe o =? maybe)); simpl;
    rewrite IH; reflexivity.
Qed.

Lemma summary_starts_with_best (l : list TimeOptionWithAvailability.t) :
  Forall Consistent l ->
  exists rest,
    map (fun r => TimeOptionWithAvailability.id (OptionWithStats.option r))
      (calculateSummaryStats l)
    = Utils.getBestTimeSlotIds l ++ rest.
Proof.
  intros Hc. unfold Utils.getBestTimeSlotIds.
  destruct l as [|o0 l0]; [eexists; reflexivity|].
  set (l := o0 :: l0) in *.
  destruct (Utils.totalResponses l =? 0); [eexists; reflexivity|].
  destruct (bestOptions_rank l) as (mA & mM & Hbest & Hbound); [discriminate|].
  unfold calculateSummaryStats. rewrite (sort_best_first mA mM).
  - rewrite map_app. eexists. f_equal.
    rewrite <- (map_map OptionWithStats.option TimeOptionWithAvailability.id).
    rewrite (filter_map_withStats mA mM l Hc), Hbest. reflexivity.
  - intros r Hr. apply in_map_iff in Hr. destruct Hr as (o & <- & Ho).
    rewrite Forall_forall in Hc. destruct (Hc o Ho) as [Ha Hm].
    unfold Below. rewrite Ha, Hm. apply Hbound, Ho.
Qed.

(** X18. The summary table starts with the recommended options.  On the
    options [getEventByShareId] returns, the identifiers of the first rows
    of the summary are exactly those [getBestTimeSlotIds] returns, in the
    same order. *)
Theorem summary_starts_with_recommended (d : Database) (fs : list bool) (n : Z)
    (shareId : string) (details : EventWithDetails.t) :
  fst (getEventByShareId shareId (mkWorld d fs n)) = Ok (Some details) ->
  exists rest,
    map (fun r => TimeOptionWithAvailability.id (OptionWithStats.option r))
      (calculateSummaryStats (EventWithDetails.timeOptions details))
    = Utils.getBestTimeSlotIds (EventWithDetails.timeOptions details) ++ rest.
Proof.
  intros Hrun. apply summary_starts_with_best. apply Forall_forall. intros o Ho.
  destruct (served_options d fs n shareId details Hrun o Ho) as (timeOption & ->).
  apply aggregate_Consistent.
Qed.
Lemma summary_head (l : list OptionWithStats.t) (top : OptionWithStats.t) :
  hd_error (sort compareStats l) = Some top ->
  In top l /\ forall r, In r l -> NotAfter top r.
Proof.
  intros Hhd. pose proof (sort_sorted l) as Hs. pose proof (sort_perm compareStats l) as Hp.
  destruct (sort compareStats l) as [|x s]; [discriminate|]. injection Hhd as ->.
  split; [apply (Permutation_in _ Hp); left; reflexivity|].
  intros r Hr. apply (Permutation_in _ (Permutation_sym Hp)) in Hr.
  inversion Hs as [|? ? _ Hall]; subst. destruct Hr as [<-|Hr].
  - unfold NotAfter. lia.
  - rewrite Forall_forall in Hall. apply Hall, Hr.
Qed.

(** X26. The best slot of the event view and the first row of its
    summary table.  On a non-empty list of options returned by
    [getEventByShareId], the option [getBestTimeSlot] picks and the first
    row of the summary have the same available tally, the greatest of the
    list, and the picked option has at most as many maybe as the first
    row. *)
Theorem best_slot_and_first_row (d : Database) (fs : list bool) (n : Z)
    (shareId : string) (details : EventWithDetails.t) :
  fst (getEventByShareId shareId (mkWorld d fs n)) = Ok (Some details) ->
  EventWithDetails.timeOptions details <> [] ->
  exists best top,
    Utils.getBestTimeSlot (EventWithDetails.timeOptions details) = Some best /\
    hd_error (calculateSummaryStats (EventWithDetails.timeOptions details)) = Some top /\
    OptionWithStats.available top = Utils.available best /\
    (forall o, In o (EventWithDetails.timeOptions details) ->
               Utils.available o <= Utils.available best) /\
    Utils.maybe best <= OptionWithStats.maybe top.
Proof.
  intros Hrun Hne.
  set (l := EventWithDetails.timeOptions details) in *.
  assert (forall o, In o l -> Consistent o) as Hc.
  { intros o Ho. destruct (served_options d fs n shareId details Hrun o Ho) as (t & ->).
    apply aggregate_Consistent. }
  destruct l as [|first rest] eqn:El; [congruence|].
  pose proof (UtilsFacts.pickBetter_fold rest [first] first
                (UtilsFacts.FirstMinMaybeAtTop_single first))
    as (before & after & Hsplit & Hmax & Hmin & _).
  set (best := fold_left Utils.pickBetter rest first) in *.
  cbn [app] in Hsplit, Hmax, Hmin.
  assert (In best (first :: rest)) as Hbest
    by (rewrite Hsplit; apply in_or_app; right; left; reflexivity).
  destruct (hd_error (calculateSummaryStats (first :: rest))) as [top|] eqn:Ehd.
  - exists best, top. split; [reflexivity|]. split; [reflexivity|].
    unfold calculateSummaryStats in Ehd. apply summary_head in Ehd.
    destruct Ehd as [Htop Hfirst].
    apply in_map_iff in Htop. destruct Htop as (o & <- & Ho).
    specialize (Hfirst (withStats best) (in_map withStats _ _ Hbest)).
    destruct (Hc o Ho) as [Hoa Hom]. destruct (Hc best Hbest) as [Hba Hbm].
    unfold NotAfter in Hfirst. rewrite Hoa, Hom, Hba, Hbm in Hfirst.
    pose proof (Hmax o Ho) as Hle. rewrite Hoa, Hom.
    split; [lia|]. split; [exact Hmax | lia].
  - exfalso. unfold calculateSummaryStats in Ehd.
    pose proof (sort_perm compareStats (map withStats (first :: rest))) as Hp.
    destruct (sort compareStats (map withStats (first :: rest))); [|discriminate].
    apply Permutation_nil in Hp. discriminate.
Qed.
End EventViewFacts.

(** ** client/src/pages/participate.tsx: the submitted payload *)

Module ParticipatePage.
(** The page's state [availability : Record<number, string>], read by
    key; [None] is a key that is not set. *)
Definition Selection : Type := Z -> option string.

(** [useState({})] *)
Definition noSelection : Selection := fun _ => None.

(** [setTimeOptionAvailability]: [{ ...prev, [timeOptionId]: status }] *)
Definition setTimeOptionAvailability (timeOptionId : Z) (status : string)
    (prev : Selection) : Selection :=
  fun key => if key =? timeOptionId then Some status else prev key.

(** [availability[option.id] || "unavailable"] *)
Definition statusOrUnavailable (availability : Selection) (id : Z) : string :=
  match availability id with
  | Some status => if String.eqb status "" then "unavailable" else status
  | None => "unavailable"
  end.

Definition availabilityArray (event : EventWithDetails.t) (availability : Selection)
    : list AvailabilityDraft.t :=
  map (fun option =>
         AvailabilityDraft.mk (TimeOptionWithAvailability.id option)
           (statusOrUnavailable availability (TimeOptionWithAvailability.id option)))
      (EventWithDetails.timeOptions event).

(** [onSubmit]: what is passed to the mutation, nothing while the event
    is not loaded. *)
Definition onSubmit (event : option EventWithDetails.t) (availability : Selection)
    (name : string) : option (string * list AvailabilityDraft.t) :=
  match event with
  | None => None
  | Some event => Some (name, availabilityArray event availability)
  end.

(** The request body [apiRequest] sends for the mutation's data, as the
    server reads it. *)
Definition itemBody (item : AvailabilityDraft.t) : Zod.json :=
  Zod.JObject [("timeOptionId", Zod.JNumber (AvailabilityDraft.timeOptionId item));
               ("status", Zod.JString (AvailabilityDraft.status item))].

Definition requestBody (data : string * list AvailabilityDraft.t) : Zod.json :=
  Zod.JObject [("participant", Zod.JObject [("name", Zod.JString (fst data))]);
               ("availability", Zod.JArray (map itemBody (snd data)))].

(** The selections the three buttons of an option can produce. *)
Inductive Clicked : Selection -> Prop :=
| clicked_nothing : Clicked noSelection
| clicked_button timeOptionId status prev :
    In status Zod.statusLabels -> Clicked prev ->
    Clicked (setTimeOptionAvailability timeOptionId status prev).
End ParticipatePage.

Module ParticipatePageFacts.
Import Db Storage StorageFacts ParticipateFacts ServerFacts ParticipatePage.

Lemma Clicked_labels (availability : Selection) :
  Clicked availability ->
  forall id, In (statusOrUnavailable availability id) Zod.statusLabels.
Proof.
  induction 1 as [|timeOptionId status prev Hs _ IH]; intros id.
  - simpl. auto.
  - unfold statusOrUnavailable, setTimeOptionAvailability.
    destruct (id =? timeOptionId); [|apply IH].
    destruct (String.eqb status ""); [simpl; auto | exact Hs].
Qed.

Lemma requestBody_parses (name : string) (items : list AvailabilityDraft.t) :
  Forall (fun item => In (AvailabilityDraft.status item) Zod.statusLabels) items ->
  Zod.participateRequestSchema (Some (requestBody (name, items))) = Some (name, items).
Proof.
  intros Hk. unfold requestBody, Zod.participateRequestSchema, Zod.andThen. simpl.
  assert (Zod.parseAll Zod.availabilityItemSchema (map itemBody items) = Some items) as ->;
    [|reflexivity].
  induction Hk as [|item rest Hitem _ IH]; [reflexivity|].
  cbn [map Zod.parseAll]. rewrite IH.
  destruct item as [timeOptionId status]. simpl in Hitem.
  destruct Hitem as [<-|[<-|[<-|[]]]]; reflexivity.
Qed.

Section Page.
Variable toLowerCase : string -> string.

Lemma served_option_ids (d : Database) (fs : list bool) (n : Z) (shareId : string)
    (event : EventWithDetails.t) :
  StateFacts.Keyed d ->
  fst (getEventByShareId shareId (mkWorld d fs n)) = Ok (Some event) ->
  NoDup (map TimeOptionWithAvailability.id (EventWithDetails.timeOptions event)) /\
  lookupByShareId d shareId = Some event.
Proof.
  intros (_ & (_ & Hnd) & _) Hrun.
  destruct (getEventByShareId_outcome shareId (mkWorld d fs n)) as [E|E];
    rewrite E in Hrun; [|discriminate].
  injection Hrun as Hrun. simpl in Hrun. split; [|exact Hrun].
  apply lookupByShareId_Some in Hrun. destruct Hrun as (e & -> & _ & _).
  simpl. rewrite map_map. simpl. apply NoDup_map_filter, Hnd.
Qed.

(** X19. The payload the participate page builds for an event fetched
    from a reachable state names every time option of the event exactly
    once, in the order fetched, with the status clicked for it and
    "unavailable" where none was clicked. *)
Theorem page_payload_covers_each_option_once (d : Database) (fs : list bool) (n : Z)
    (shareId : string) (event : EventWithDetails.t) (availability : Selection)
    (name : string) :
  Routes.reachable toLowerCase d ->
  fst (getEventByShareId shareId (mkWorld d fs n)) = Ok (Some event) ->
  exists items,
    onSubmit (Some event) availability name = Some (name, items) /\
    map AvailabilityDraft.timeOptionId items
      = map TimeOptionWithAvailability.id (EventWithDetails.timeOptions event) /\
    NoDup (map AvailabilityDraft.timeOptionId items) /\
    forall item, In item items ->
      match availability (AvailabilityDraft.timeOptionId item) with
      | Some status =>
        AvailabilityDraft.status item = if String.eqb status "" then "unavailable" else status
      | None => AvailabilityDraft.status item = "unavailable"
      end.
Proof.
  intros Hreach Hrun.
  destruct (served_option_ids d fs n shareId event
              (StateFacts.reachable_Keyed toLowerCase d Hreach) Hrun) as [Hnd _].
  exists (availabilityArray event availability).
  assert (map AvailabilityDraft.timeOptionId (availabilityArray event availability)
          = map TimeOptionWithAvailability.id (EventWithDetails.timeOptions event)) as Hids
    by (unfold availabilityArray; rewrite map_map; reflexivity).
  split; [reflexivity|]. split; [exact Hids|]. split; [rewrite Hids; exact Hnd|].
  intros item Hin. unfold availabilityArray in Hin. apply in_map_iff in Hin.
  destruct Hin as (o & <- & _). simpl. unfold statusOrUnavailable.
  destruct (availability (TimeOptionWithAvailability.id o)); reflexivity.
Qed.

(** X20. A submission from the participate page goes through.  For an
    event fetched from a reachable state and statuses chosen with the page's
    buttons, the body the page sends passes the request schema; a serving
    database answers it 200; and afterwards the participant has exactly one
    stored response for each time option of the event, with the status the
    page sent. *)
Theorem page_submission_is_stored (d : Database) (n : Z) (shareId : string)
    (event : EventWithDetails.t) (availability : Selection) (name : string) :
  Routes.reachable toLowerCase d ->
  fst (getEventByShareId shareId (mkWorld d [] n)) = Ok (Some event) ->
  Clicked availability ->
  exists data participantId d',
    onSubmit (Some event) availability name = Some data /\
    Zod.participateRequestSchema (Some (requestBody data)) = Some data /\
    Routes.postParticipate toLowerCase shareId (requestBody data) (mkWorld d [] n)
      = (Routes.res_json (Routes.Success participantId), mkWorld d' [] n) /\
    map draftOfResponse (responsesBy d' participantId) = snd data /\
    map Availability.timeOptionId (responsesBy d' participantId)
      = map TimeOptionWithAvailability.id (EventWithDetails.timeOptions event).
Proof.
  intros Hreach Hrun Hclicked.
  destruct (served_option_ids d [] n shareId event
              (StateFacts.reachable_Keyed toLowerCase d Hreach) Hrun) as [_ Hl].
  set (items := availabilityArray event availability).
  assert (Zod.participateRequestSchema (Some (requestBody (name, items)))
          = Some (name, items)) as Hparse.
  { apply requestBody_parses. apply Forall_forall. intros item Hin.
    unfold items, availabilityArray in Hin. apply in_map_iff in Hin.
    destruct Hin as (o & <- & _). simpl. apply Clicked_labels, Hclicked. }
  eexists (name, items), _, _. split; [reflexivity|]. split; [exact Hparse|].
  split; [apply (postParticipate_served toLowerCase _ _ _ _ _ _ _ Hparse Hl)|].
  split; [apply responsesBy_replaced|].
  rewrite <- (map_map draftOfResponse AvailabilityDraft.timeOptionId).
  rewrite responsesBy_replaced. unfold items, availabilityArray. simpl.
  rewrite map_map. reflexivity.
Qed.
End Page.
End ParticipatePageFacts.

(** ** client/src/pages/create-event.tsx: what the form submits *)

Module FormData.
(** [z.infer<typeof formSchema>] *)
Record t := mk {
  title : string;
  description : option string;
  duration : string;
  organizerName : string
}.
End FormData.

Module TimeOptionInput.
(** The page's [TimeOption]: one row of the form. *)
Record t := mk {
  date : string;
  startTime : string;
  availability : string
}.
End TimeOptionInput.

Module TimeOptionWithEndTime.
Record t := mk {
  date : string;
  startTime : string;
  availability : string;
  endTime : string
}.
End TimeOptionWithEndTime.

Module CreateEventPage.
(** [["2 days", "3 days", "4 days", "A week"].includes(duration)] *)
Definition isMultiDay (duration : string) : bool :=
  existsb (fun d => String.eqb d duration) ["2 days"; "3 days"; "4 days"; "A week"].

(** A string in a condition: the empty string is falsy. *)
Definition truthy (s : string) : bool := negb (String.eqb s "").

Section OnSubmit.
(** [calculateEndTime], whose arithmetic is modelled further down; what
    [onSubmit] does with its result does not depend on it. *)
Variable calculateEndTime : string -> string -> string.

Definition isValid (duration : string) (option : TimeOptionInput.t) : bool :=
  if isMultiDay duration then truthy (TimeOptionInput.date option)
  else truthy (TimeOptionInput.date option) && truthy (TimeOptionInput.startTime option).

Definition withEndTime (duration : string) (option : TimeOptionInput.t)
    : TimeOptionWithEndTime.t :=
  let startTime := if isMultiDay duration then "09:00" else TimeOptionInput.startTime option in
  TimeOptionWithEndTime.mk (TimeOptionInput.date option) startTime
    (TimeOptionInput.availability option) (calculateEndTime startTime duration).

(** [onSubmit]: the data handed to the mutation, or nothing (the error
    toast) when no time option is complete. *)
Definition onSubmit (data : FormData.t) (timeOptions : list TimeOptionInput.t)
    : option (FormData.t * list TimeOptionWithEndTime.t) :=
  let validTimeOptions := filter (isValid (FormData.duration data)) timeOptions in
  if Z.of_nat (List.length validTimeOptions) =? 0 then None
  else Some (data, map (withEndTime (FormData.duration data)) validTimeOptions).
End OnSubmit.

(** The body of [POST /api/events] for the mutation's data, as the server
    reads it; a [description] that is undefined is not sent. *)
Definition eventBody (data : FormData.t) : Zod.json :=
  Zod.JObject
    (("title", Zod.JString (FormData.title data))
     :: match FormData.description data with
        | Some description => [("description", Zod.JString description)]
        | None => []
        end
     ++ [("duration", Zod.JString (FormData.duration data));
         ("organizerName", Zod.JString (FormData.organizerName data))]).

Definition timeOptionBody (option : TimeOptionWithEndTime.t) : Zod.json :=
  Zod.JObject [("date", Zod.JString (TimeOptionWithEndTime.date option));
               ("startTime", Zod.JString (TimeOptionWithEndTime.startTime option));
               ("availability", Zod.JString (TimeOptionWithEndTime.availability option));
               ("endTime", Zod.JString (TimeOptionWithEndTime.endTime option))].

Definition requestBody (request : FormData.t * list TimeOptionWithEndTime.t) : Zod.json :=
  Zod.JObject [("event", eventBody (fst request));
               ("timeOptions", Zod.JArray (map timeOptionBody (snd request)))].

(** [result.timeOptions.map((timeOption, index) => ({ timeOptionId:
    timeOption.id, status: originalTimeOptions[index].availability }))] of
    [onSuccess], counting from [index]; [None] is the TypeError raised when
    [originalTimeOptions[index]] is undefined. *)
Fixpoint availabilityData (resultTimeOptions : list TimeOption.t)
    (originalTimeOptions : list TimeOptionWithEndTime.t) (index : nat)
    : option (list AvailabilityDraft.t) :=
  match resultTimeOptions with
  | [] => Some []
  | timeOption :: rest =>
    match nth_error originalTimeOptions index with
    | None => None
    | Some original =>
      match availabilityData rest originalTimeOptions (S index) with
      | Some items =>
        Some (AvailabilityDraft.mk (TimeOption.id timeOption)
                (TimeOptionWithEndTime.availability original) :: items)
      | None => None
      end
    end
  end.
End CreateEventPage.

Module CreateEventPageFacts.
Import Db Storage StorageFacts CreateEventFacts ParticipateFacts ServerFacts CreateEventPage.

Definition draftOfOption (option : TimeOptionWithEndTime.t) : TimeOptionDraft.t :=
  TimeOptionDraft.mk (TimeOptionWithEndTime.date option)
    (TimeOptionWithEndTime.startTime option) (TimeOptionWithEndTime.endTime option).

Definition insertOfForm (data : FormData.t) : InsertEvent.t :=
  InsertEvent.mk (FormData.title data) (FormData.description data) (FormData.duration data).

Lemma createRequestBody_parses (request : FormData.t * list TimeOptionWithEndTime.t) :
  Zod.createEventRequestSchema (Some (requestBody request))
  = Some (insertOfForm (fst request), map draftOfOption (snd request)).
Proof.
  destruct request as [data options].
  unfold requestBody, Zod.createEventRequestSchema, Zod.andThen. simpl.
  assert (Zod.insertEventSchema (Some (eventBody data)) = Some (insertOfForm data)) as ->.
  { destruct data as [title [description|] duration organizerName]; reflexivity. }
  assert (Zod.parseAll Zod.timeOptionSchema (map timeOptionBody options)
          = Some (map draftOfOption options)) as ->; [|reflexivity].
  induction options as [|o rest IH]; [reflexivity|].
  cbn [map Zod.parseAll]. rewrite IH. destruct o; reflexivity.
Qed.

Section Form.
Variable calculateEndTime : string -> string -> string.

(** X21. The create form never submits an empty list of time options.
    When it submits, the list holds the complete rows of the form in their
    order (a date, and a start time unless the duration is one of the
    multi-day ones, which get "09:00"), there is at least one, and the body
    passes the server's request schema with exactly those time options; when
    no row is complete nothing is submitted. *)
Theorem onSubmit_sends_complete_options (data : FormData.t)
    (timeOptions : list TimeOptionInput.t) :
  let duration := FormData.duration data in
  match onSubmit calculateEndTime data timeOptions with
  | Some request =>
    snd request <> [] /\
    fst request = data /\
    map TimeOptionWithEndTime.date (snd request)
      = map TimeOptionInput.date (filter (isValid duration) timeOptions) /\
    Forall (fun o =>
              TimeOptionWithEndTime.date o <> "" /\
              TimeOptionWithEndTime.startTime o <> "" /\
              (isMultiDay duration = true -> TimeOptionWithEndTime.startTime o = "09:00"))
           (snd request) /\
    Zod.createEventRequestSchema (Some (requestBody request))
      = Some (insertOfForm data, map draftOfOption (snd request))
  | None => forall o, In o timeOptions -> isValid duration o = false
  end.
Proof.
  intros duration. unfold onSubmit. fold duration.
  destruct (filter (isValid duration) timeOptions) as [|o valid] eqn:E.
  - simpl. intros o Ho. destruct (isValid duration o) eqn:Ev; [|reflexivity].
    assert (In o (filter (isValid duration) timeOptions)) as Hin
      by (apply filter_In; auto).
    rewrite E in Hin. destruct Hin.
  - replace (Z.of_nat (List.length (o :: valid)) =? 0) with false
      by (symmetry; apply Z.eqb_neq; simpl; lia).
    cbn [fst snd]. split; [discriminate|]. split; [reflexivity|].
    split; [rewrite map_map; reflexivity|]. split; [|apply createRequestBody_parses].
    apply Forall_forall. intros x Hx. apply in_map_iff in Hx.
    destruct Hx as (i & <- & Hi).
    assert (In i (filter (isValid duration) timeOptions)) as Hin by (rewrite E; exact Hi).
    apply filter_In in Hin. destruct Hin as [_ Hv].
    unfold isValid, withEndTime, truthy in *. simpl.
    destruct (isMultiDay duration).
    + apply negb_true_iff, String.eqb_neq in Hv.
      split; [exact Hv|]. split; [discriminate | reflexivity].
    + apply andb_true_iff in Hv. destruct Hv as [Hd Hs].
      apply negb_true_iff, String.eqb_neq in Hd, Hs.
      split; [exact Hd|]. split; [exact Hs | discriminate].
Qed.
End Form.
Lemma nth_error_skipn {A} (l : list A) (i : nat) (x : A) :
  nth_error l i = Some x -> skipn i l = x :: skipn (S i) l.
Proof.
  revert l. induction i as [|i IH]; intros [|y l] H; try discriminate.
  - injection H as ->. reflexivity.
  - simpl in H. apply IH in H. exact H.
Qed.

Lemma availabilityData_aligned (resultTimeOptions : list TimeOption.t)
    (originalTimeOptions : list TimeOptionWithEndTime.t) (index : nat) :
  (index + List.length resultTimeOptions <= List.length originalTimeOptions)%nat ->
  exists items,
    availabilityData resultTimeOptions originalTimeOptions index = Some items /\
    map AvailabilityDraft.timeOptionId items = map TimeOption.id resultTimeOptions /\
    map AvailabilityDraft.status items
      = map TimeOptionWithEndTime.availability
          (firstn (List.length resultTimeOptions) (skipn index originalTimeOptions)).
Proof.
  revert index. induction resultTimeOptions as [|timeOption rest IH]; intros index Hle.
  - exists []. auto.
  - simpl in Hle. cbn [availabilityData].
    destruct (nth_error originalTimeOptions index) as [original|] eqn:E.
    + destruct (IH (S index)) as (items & -> & Hids & Hst); [lia|].
      eexists. split; [reflexivity|]. simpl. rewrite Hids, Hst.
      rewrite (nth_error_skipn _ _ _ E). auto.
    + apply nth_error_None in E. lia.
Qed.

Section Organizer.
Variable toLowerCase : string -> string.
Variable calculateEndTime : string -> string -> string.

(** X22. The organizer's own answer.  When the server answers 200 to the
    request the create form submits, the payload [onSuccess] builds names
    every created time option once, in order, with the availability the
    organizer chose for the corresponding row; it passes the participate
    schema; and a serving database stores it as the organizer's responses. *)
Theorem organizer_answer_is_stored (d : Database) (fs : list bool) (n n1 : Z)
    (nanoid : string) (data : FormData.t) (timeOptions : list TimeOptionInput.t)
    (request : FormData.t * list TimeOptionWithEndTime.t)
    (created : EventWithTimeOptions.t) (w1 : World) :
  Forall (fun o => In (TimeOptionInput.availability o) Zod.statusLabels) timeOptions ->
  onSubmit calculateEndTime data timeOptions = Some request ->
  Routes.postEvent nanoid (requestBody request) (mkWorld d fs n)
    = (Routes.res_json (Routes.CreatedEvent created), w1) ->
  exists payload participantId d2,
    availabilityData (EventWithTimeOptions.timeOptions created) (snd request) 0
      = Some payload /\
    map AvailabilityDraft.timeOptionId payload
      = map TimeOption.id (EventWithTimeOptions.timeOptions created) /\
    map AvailabilityDraft.status payload
      = map TimeOptionWithEndTime.availability (snd request) /\
    map draftOf (EventWithTimeOptions.timeOptions created)
      = map draftOfOption (snd request) /\
    Routes.postParticipate toLowerCase
        (Event.shareId (EventWithTimeOptions.event created))
        (ParticipatePage.requestBody (FormData.organizerName data, payload))
        (mkWorld (database w1) [] n1)
      = (Routes.res_json (Routes.Success participantId), mkWorld d2 [] n1) /\
    map draftOfResponse (responsesBy d2 participantId) = payload.
Proof.
  intros Hlabels Hsubmit Hrun.
  destruct (HandlerFacts.postEvent_created _ _ _ _ _ Hrun)
    as (event & drafts & Hparse & _ & -> & Hd1).
  rewrite createRequestBody_parses in Hparse. injection Hparse as <- <-.
  cbn [database now EventWithTimeOptions.timeOptions EventWithTimeOptions.event] in *.
  set (row := eventRow nanoid (insertOfForm (fst request)) d n) in *.
  set (rows := numberOptions (time_options_id_seq d) (events_id_seq d)
                 (map draftOfOption (snd request))) in *.
  destruct (numberOptions_drafts (time_options_id_seq d) (events_id_seq d)
              (map draftOfOption (snd request))) as (Hdrafts & _ & Hlen).
  fold rows in Hdrafts, Hlen. rewrite length_map in Hlen.
  destruct (availabilityData_aligned rows (snd request) 0) as (payload & Hpay & Hids & Hst);
    [simpl; lia|].
  rewrite Hlen in Hst. simpl in Hst. rewrite firstn_all in Hst.
  assert (Forall (fun item => In (AvailabilityDraft.status item) Zod.statusLabels) payload)
    as Hknown.
  { apply Forall_forall. intros item Hin.
    assert (In (AvailabilityDraft.status item) (map AvailabilityDraft.status payload)) as Hs
      by (apply in_map, Hin).
    rewrite Hst in Hs. apply in_map_iff in Hs. destruct Hs as (o & <- & Ho).
    unfold onSubmit in Hsubmit.
    destruct (Z.of_nat _ =? 0); [discriminate|]. injection Hsubmit as <-.
    cbn [snd] in Ho. apply in_map_iff in Ho. destruct Ho as (i & <- & Hi).
    apply filter_In in Hi. destruct Hi as [Hi _]. simpl.
    rewrite Forall_forall in Hlabels. apply Hlabels, Hi. }
  pose proof (ParticipatePageFacts.requestBody_parses (FormData.organizerName data)
                payload Hknown) as Hparse2.
  destruct (lookupByShareId_issued (database w1) nanoid) as (details & Hl).
  { exists row. split; [|reflexivity]. rewrite Hd1.
    destruct (addTimeOptions_tables rows (addEvent row d)) as (-> & _).
    simpl. apply in_or_app. right. left. reflexivity. }
  eexists payload, _, _. split; [exact Hpay|]. split; [exact Hids|].
  split; [exact Hst|]. split; [exact Hdrafts|]. split.
  - apply (postParticipate_served toLowerCase _ _ _ _ _ _ _ Hparse2 Hl).
  - apply responsesBy_replaced.
Qed.
End Organizer.
End CreateEventPageFacts.

(** ** Clock arithmetic: [formatTime] and [calculateEndTime] *)

From Stdlib Require Import DecimalString.

(** The JavaScript numbers these two functions meet on the inputs that
    are modelled: the integers that a number holds exactly, and NaN. *)
Module JsNumber.
Inductive t :=
| NaN
| Int (z : Z).

(** The value of a string of decimal digits, the empty string being 0;
    the strings of more than twelve characters are left out, so that every
    number computed below stays under 2^53 and is exact. *)
Definition digits (s : string) : option Z :=
  if Nat.leb (String.length s) 12
  then option_map Z.of_uint (NilEmpty.uint_of_string s)
  else None.

(** [Number(s)] for a string of digits, and NaN for the undefined that
    stands where the string has no such piece (it counts as NaN in a sum);
    any other argument is outside the model ([None] as a result). *)
Definition Number_ (x : option string) : option t :=
  match x with
  | None => Some NaN
  | Some s => option_map Int (digits s)
  end.

(** [parseInt(s)] for [s] empty or a string of digits; any other
    argument is outside the model. *)
Definition parseInt (s : string) : option t :=
  if String.eqb s "" then Some NaN else option_map Int (digits s).

Definition add (a b : t) : t :=
  match a, b with Int x, Int y => Int (x + y) | _, _ => NaN end.
Definition sub (a b : t) : t :=
  match a, b with Int x, Int y => Int (x - y) | _, _ => NaN end.
Definition mul (a b : t) : t :=
  match a, b with Int x, Int y => Int (x * y) | _, _ => NaN end.
(** [Math.floor(a / b)] for [b] positive *)
Definition floorDiv (a b : t) : t :=
  match a, b with Int x, Int y => Int (x / y) | _, _ => NaN end.
(** [a % b]: the remainder has the sign of [a]. *)
Definition rem (a b : t) : t :=
  match a, b with Int x, Int y => Int (Z.rem x y) | _, _ => NaN end.
Definition ge (a b : t) : bool :=
  match a, b with Int x, Int y => x >=? y | _, _ => false end.
Definition gt (a b : t) : bool :=
  match a, b with Int x, Int y => x >? y | _, _ => false end.
Definition strictEq (a b : t) : bool :=
  match a, b with Int x, Int y => x =? y | _, _ => false end.

Definition toString (a : t) : string :=
  match a with
  | NaN => "NaN"
  | Int z => NilZero.string_of_int (Z.to_int z)
  end.
End JsNumber.

Module JsText.
(** [s.split(sep)] for a one-character separator: always at least one
    piece. *)
Fixpoint split (sep : ascii) (s : string) : list string :=
  match s with
  | EmptyString => [EmptyString]
  | String c rest =>
    if Ascii.eqb c sep then EmptyString :: split sep rest
    else match split sep rest with
         | piece :: pieces => String c piece :: pieces
         | [] => [String c EmptyString]
         end
  end.

(** [s.padStart(2, '0')] *)
Definition padStart2 (s : string) : string :=
  match String.length s with
  | O => "00"
  | S O => String "0" s
  | _ => s
  end.

(** A string or undefined in a template literal. *)
Definition interpolate (x : option string) : string :=
  match x with Some s => s | None => "undefined" end.
End JsText.

Module ClientTime.
Import JsNumber JsText.

(** [formatTime] of client/src/lib/utils.ts; [None] when [parseInt] is
    applied outside the modelled arguments. *)
Definition formatTime (timeString : string) : option string :=
  let parts := split ":" timeString in
  let hours := hd EmptyString parts in
  let minutes := nth_error parts 1 in
  match parseInt hours with
  | None => None
  | Some hour =>
    let period := if ge hour (Int 12) then "PM" else "AM" in
    let displayHour :=
      if strictEq hour (Int 0) then Int 12
      else if gt hour (Int 12) then sub hour (Int 12) else hour in
    Some (toString displayHour ++ ":" ++ interpolate minutes ++ " " ++ period)%string
  end.

(** The [switch] of [calculateEndTime]: a number of minutes to add, or
    the string returned at once. *)
Inductive Duration :=
| Minutes (durationMinutes : Z)
| Return (result : string).

Definition durationOf (duration : string) : Duration :=
  if String.eqb duration "30 minutes" then Minutes 30
  else if String.eqb duration "1 hour" then Minutes 60
  else if String.eqb duration "1.5 hours" then Minutes 90
  else if String.eqb duration "2 hours" then Minutes 120
  else if String.eqb duration "3 hours" then Minutes 180
  else if String.eqb duration "4 hours" then Minutes 240
  else if String.eqb duration "5 hours" then Minutes 300
  else if String.eqb duration "6 hours" then Minutes 360
  else if String.eqb duration "All day" then Return "23:59"
  else if String.eqb duration "2 days" then Return "Multi-day"
  else if String.eqb duration "3 days" then Return "Multi-day"
  else if String.eqb duration "4 days" then Return "Multi-day"
  else if String.eqb duration "A week" then Return "Multi-day"
  else Return "".

(** [calculateEndTime] of the create page; [None] when [Number] is
    applied outside the modelled arguments.  The numbers are only needed
    past the [switch], and [Number] has no effect, so they are computed
    there. *)
Definition calculateEndTime (startTime duration : string) : option string :=
  if String.eqb startTime "" then Some EmptyString
  else
    let parts := split ":" startTime in
    match durationOf duration with
    | Return result => Some result
    | Minutes durationMinutes =>
      match Number_ (nth_error parts 0), Number_ (nth_error parts 1) with
      | Some hours, Some minutes =>
        let totalMinutes := add (add (mul hours (Int 60)) minutes) (Int durationMinutes) in
        let endHours := rem (floorDiv totalMinutes (Int 60)) (Int 24) in
        let endMins := rem totalMinutes (Int 60) in
        Some (padStart2 (toString endHours) ++ ":" ++ padStart2 (toString endMins))%string
      | _, _ => None
      end
    end.
End ClientTime.

Module ClientTimeFacts.
Import JsNumber JsText ClientTime.

(** The time of day [h]:[m] as the time picker writes it. *)
Definition clock (h m : Z) : string :=
  (padStart2 (toString (Int h)) ++ ":" ++ padStart2 (toString (Int m)))%string.

Definition minuteDurations : list (string * Z) :=
  [("30 minutes", 30); ("1 hour", 60); ("1.5 hours", 90); ("2 hours", 120);
   ("3 hours", 180); ("4 hours", 240); ("5 hours", 300); ("6 hours", 360)].

Definition range (n : nat) : list Z := map Z.of_nat (seq 0 n).

Lemma in_range (n : nat) (z : Z) : 0 <= z < Z.of_nat n -> In z (range n).
Proof.
  intros H. unfold range. apply in_map_iff. exists (Z.to_nat z).
  split; [lia|]. apply in_seq. lia.
Qed.

Definition sameResult (x y : option string) : bool :=
  match x, y with
  | Some a, Some b => String.eqb a b
  | None, None => true
  | _, _ => false
  end.

Lemma sameResult_eq (x y : option string) : sameResult x y = true -> x = y.
Proof.
  destruct x as [a|], y as [b|]; simpl; try discriminate; [|reflexivity].
  intros H. apply String.eqb_eq in H. congruence.
Qed.

Definition endOfSlot (h m durationMinutes : Z) : string :=
  let totalMinutes := h * 60 + m + durationMinutes in
  clock ((totalMinutes / 60) mod 24) (totalMinutes mod 60).

(** Every minute of the day with every duration, by evaluation. *)
Lemma endTimesChecked_true :
  forallb (fun h =>
    forallb (fun m =>
      forallb (fun d => sameResult (calculateEndTime (clock h m) (fst d))
                                   (Some (endOfSlot h m (snd d))))
              minuteDurations)
      (range 60))
    (range 24) = true.
Proof. vm_compute. reflexivity. Qed.

(** X23. End times wrap around midnight.  For a start time hh:mm of the
    day and one of the eight durations given in minutes or hours,
    [calculateEndTime] returns the time of day that many minutes later,
    written hh:mm with two digits each, hours counted modulo 24. *)
Theorem calculateEndTime_adds_duration (h m : Z) (duration : string) (durationMinutes : Z) :
  0 <= h < 24 -> 0 <= m < 60 -> In (duration, durationMinutes) minuteDurations ->
  let totalMinutes := h * 60 + m + durationMinutes in
  calculateEndTime (clock h m) duration
    = Some (clock ((totalMinutes / 60) mod 24) (totalMinutes mod 60)) /\
  0 <= (totalMinutes / 60) mod 24 < 24 /\ 0 <= totalMinutes mod 60 < 60.
Proof.
  intros Hh Hm Hd totalMinutes. split.
  - apply sameResult_eq.
    pose proof (proj1 (forallb_forall _ _) endTimesChecked_true h (in_range 24 h Hh)) as H.
    pose proof (proj1 (forallb_forall _ _) H m (in_range 60 m Hm)) as H'.
    exact (proj1 (forallb_forall _ _) H' (duration, durationMinutes) Hd).
  - split; [apply Z.mod_pos_bound | apply Z.mod_pos_bound]; lia.
Qed.

Definition displayedHour (h : Z) : Z :=
  if h =? 0 then 12 else if h >? 12 then h - 12 else h.

Definition shown (h m : Z) : string :=
  (toString (Int (displayedHour h)) ++ ":" ++ padStart2 (toString (Int m)) ++ " "
   ++ (if h >=? 12 then "PM" else "AM"))%string.

Definition timesChecked : bool :=
  forallb (fun h =>
    forallb (fun m => sameResult (formatTime (clock h m)) (Some (shown h m))) (range 60))
    (range 24).

Lemma timesChecked_true : timesChecked = true.
Proof. vm_compute. reflexivity. Qed.

(** X24. The twelve-hour clock.  For a time hh:mm of the day [formatTime]
    shows the minutes unchanged, an hour between 1 and 12 (12 for midnight
    and noon, the hour less twelve after noon), and PM exactly from 12:00
    on. *)
Theorem formatTime_twelve_hour_clock (h m : Z) :
  0 <= h < 24 -> 0 <= m < 60 ->
  formatTime (clock h m)
    = Some (toString (Int (displayedHour h)) ++ ":" ++ padStart2 (toString (Int m)) ++ " "
            ++ (if h >=? 12 then "PM" else "AM"))%string /\
  1 <= displayedHour h <= 12 /\
  (displayedHour h = h \/ displayedHour h = h - 12 \/ (h = 0 /\ displayedHour h = 12)).
Proof.
  intros Hh Hm. split.
  - pose proof timesChecked_true as H. unfold timesChecked in H.
    rewrite forallb_forall in H. specialize (H h (in_range 24 h Hh)).
    rewrite forallb_forall in H. specialize (H m (in_range 60 m Hm)).
    apply sameResult_eq in H. exact H.
  - unfold displayedHour.
    destruct (Z.eqb_spec h 0); [lia|]. destruct (Z.gtb_spec h 12); lia.
Qed.

(** X25. The early returns of [calculateEndTime].  Without a start time
    the end time is empty.  With one, whatever it is, the durations that
    [isMultiDay] accepts give "Multi-day", "All day" gives "23:59", and a
    duration that is none of the thirteen known ones gives the empty
    string. *)
Theorem calculateEndTime_without_arithmetic (startTime duration : string) :
  calculateEndTime "" duration = Some EmptyString /\
  (startTime <> "" ->
   (CreateEventPage.isMultiDay duration = true ->
    calculateEndTime startTime duration = Some "Multi-day") /\
   (duration = "All day" -> calculateEndTime startTime duration = Some "23:59") /\
   (~ In duration (map fst minuteDurations) -> duration <> "All day" ->
    CreateEventPage.isMultiDay duration = false ->
    calculateEndTime startTime duration = Some EmptyString)).
Proof.
  split; [reflexivity|]. intros Hs. apply String.eqb_neq in Hs.
  unfold calculateEndTime. rewrite Hs. split; [|split].
  - intros Hm. unfold CreateEventPage.isMultiDay in Hm.
    apply existsb_exists in Hm. destruct Hm as (x & Hx & E).
    apply String.eqb_eq in E. subst x.
    destruct Hx as [<-|[<-|[<-|[<-|[]]]]]; reflexivity.
  - intros ->. reflexivity.
  - intros Hnot Hall Hmulti. unfold durationOf.
    repeat match goal with
    | |- context [String.eqb duration ?s] =>
      destruct (String.eqb_spec duration s) as [E|_];
        [exfalso; subst duration;
         first [ apply Hnot; simpl; tauto
               | apply Hall; reflexivity
               | discriminate Hmulti ]
        |]
    end.
    reflexivity.
Qed.
End ClientTimeFacts.

(** ** client/src/pages/create-event.tsx: the rows of the form *)

Module CreateEventRows.
(** [keyof TimeOption] *)
Inductive Field := DateField | StartTimeField | AvailabilityField.

(** [option[field] = value] *)
Definition setField (field : Field) (value : string) (option : TimeOptionInput.t)
    : TimeOptionInput.t :=
  match field with
  | DateField =>
    TimeOptionInput.mk value (TimeOptionInput.startTime option)
      (TimeOptionInput.availability option)
  | StartTimeField =>
    TimeOptionInput.mk (TimeOptionInput.date option) value
      (TimeOptionInput.availability option)
  | AvailabilityField =>
    TimeOptionInput.mk (TimeOptionInput.date option) (TimeOptionInput.startTime option) value
  end.

(** [l.filter((x, i) => keep(x, i))], counting from [i]. *)
Fixpoint filterWithIndex {A : Type} (keep : A -> nat -> bool) (l : list A) (i : nat)
    : list A :=
  match l with
  | [] => []
  | x :: rest =>
    if keep x i then x :: filterWithIndex keep rest (S i)
    else filterWithIndex keep rest (S i)
  end.

(** The array after [updated[index] = x] for an index within it. *)
Fixpoint assignAt {A : Type} (index : nat) (x : A) (l : list A) : list A :=
  match l, index with
  | [], _ => []
  | _ :: rest, O => x :: rest
  | y :: rest, S i => y :: assignAt i x rest
  end.

(** [useState([{ date: "", startTime: "", availability: "available" }])] *)
Definition initialTimeOptions : list TimeOptionInput.t :=
  [TimeOptionInput.mk "" "" "available"].

Section Rows.
(** [getNextDay], which goes through [Date]; the rows do not depend on
    what it returns. *)
Variable getNextDay : string -> string.

(** [addTimeOption]: the next state, or [None] for the TypeError raised
    when [timeOptions[timeOptions.length - 1]] is undefined. *)
Definition addTimeOption (timeOptions : list TimeOptionInput.t)
    : option (list TimeOptionInput.t) :=
  match nth_error timeOptions (List.length timeOptions - 1) with
  | None => None
  | Some lastOption =>
    let nextDate :=
      if CreateEventPage.truthy (TimeOptionInput.date lastOption)
      then getNextDay (TimeOptionInput.date lastOption) else "" in
    let nextStartTime :=
      if CreateEventPage.truthy (TimeOptionInput.startTime lastOption)
      then TimeOptionInput.startTime lastOption else "" in
    Some (timeOptions ++ [TimeOptionInput.mk nextDate nextStartTime "available"])
  end.

Definition removeTimeOption (index : nat) (timeOptions : list TimeOptionInput.t)
    : list TimeOptionInput.t :=
  if 1 <? Z.of_nat (List.length timeOptions)
  then filterWithIndex (fun _ i => negb (Nat.eqb i index)) timeOptions 0
  else timeOptions.

(** [updateTimeOption]: [updated[index][field] = value] on a copy of the
    array; [None] is the TypeError raised when [updated[index]] is
    undefined. *)
Definition updateTimeOption (index : nat) (field : Field) (value : string)
    (timeOptions : list TimeOptionInput.t) : option (list TimeOptionInput.t) :=
  match nth_error timeOptions index with
  | None => None
  | Some option => Some (assignAt index (setField field value option) timeOptions)
  end.

Definition updateTimeOptionAvailability (index : nat) (value : string)
    (timeOptions : list TimeOptionInput.t) : option (list TimeOptionInput.t) :=
  updateTimeOption index AvailabilityField value timeOptions.

(** The states of the rows the page can get into, one handler call per
    render: the date input and the time picker call [updateTimeOption]
    with their own field, the select offers the three labels, and the
    index is the row's own. *)
Inductive Edited : list TimeOptionInput.t -> Prop :=
| edited_initial : Edited initialTimeOptions
| edited_add timeOptions next :
    Edited timeOptions -> addTimeOption timeOptions = Some next -> Edited next
| edited_remove timeOptions index :
    Edited timeOptions -> (index < List.length timeOptions)%nat ->
    Edited (removeTimeOption index timeOptions)
| edited_date timeOptions index value next :
    Edited timeOptions ->
    updateTimeOption index DateField value timeOptions = Some next -> Edited next
| edited_startTime timeOptions index value next :
    Edited timeOptions ->
    updateTimeOption index StartTimeField value timeOptions = Some next -> Edited next
| edited_availability timeOptions index value next :
    Edited timeOptions -> In value Zod.statusLabels ->
    updateTimeOptionAvailability index value timeOptions = Some next -> Edited next.
End Rows.
End CreateEventRows.

Module CreateEventRowsFacts.
Import CreateEventRows.

Definition Labelled (option : TimeOptionInput.t) : Prop :=
  In (TimeOptionInput.availability option) Zod.statusLabels.

Lemma filterWithIndex_after {A : Type} (index : nat) (l : list A) (start : nat) :
  (index < start)%nat ->
  filterWithIndex (fun _ i => negb (Nat.eqb i index)) l start = l.
Proof.
  revert start. induction l as [|x rest IH]; intros start Hlt; [reflexivity|].
  simpl. destruct (Nat.eqb_spec start index) as [->|_]; [lia|].
  simpl. f_equal. apply IH. lia.
Qed.

Lemma filterWithIndex_length {A : Type} (index : nat) (l : list A) (start : nat) :
  (List.length l
   <= S (List.length (filterWithIndex (fun _ i => negb (Nat.eqb i index)) l start)))%nat.
Proof.
  revert start. induction l as [|x rest IH]; intros start; simpl; [lia|].
  destruct (Nat.eqb_spec start index) as [->|_]; simpl.
  - rewrite filterWithIndex_after by lia. lia.
  - specialize (IH (S start)). lia.
Qed.

Lemma filterWithIndex_Forall {A : Type} (P : A -> Prop) (keep : A -> nat -> bool)
    (l : list A) (start : nat) :
  Forall P l -> Forall P (filterWithIndex keep l start).
Proof.
  intros H. revert start. induction H as [|x rest Hx _ IH]; intros start; simpl.
  - constructor.
  - destruct (keep x start); [constructor; [exact Hx|]|]; apply IH.
Qed.

Lemma assignAt_length {A : Type} (index : nat) (x : A) (l : list A) :
  List.length (assignAt index x l) = List.length l.
Proof.
  revert index. induction l as [|y rest IH]; intros [|i]; simpl; try reflexivity.
  f_equal. apply IH.
Qed.

Lemma assignAt_Forall {A : Type} (P : A -> Prop) (index : nat) (x : A) (l : list A) :
  P x -> Forall P l -> Forall P (assignAt index x l).
Proof.
  intros Hx H. revert index. induction H as [|y rest Hy Hrest IH]; intros [|i]; simpl.
  - constructor.
  - constructor.
  - constructor; assumption.
  - constructor; [exact Hy | apply IH].
Qed.

Lemma updateTimeOption_Some (index : nat) (field : Field) (value : string)
    (timeOptions next : list TimeOptionInput.t) :
  updateTimeOption index field value timeOptions = Some next ->
  exists option,
    nth_error timeOptions index = Some option /\
    next = assignAt index (setField field value option) timeOptions.
Proof.
  unfold updateTimeOption. destruct (nth_error timeOptions index) as [option|]; [|discriminate].
  intros H. injection H as <-. exists option. split; reflexivity.
Qed.

Section Rows.
Variable getNextDay : string -> string.

Lemma Edited_invariant (timeOptions : list TimeOptionInput.t) :
  Edited getNextDay timeOptions ->
  (1 <= List.length timeOptions)%nat /\ Forall Labelled timeOptions.
Proof.
  induction 1 as [|timeOptions next _ [IHn IHl] Hadd
                  |timeOptions index _ [IHn IHl] Hindex
                  |timeOptions index value next _ [IHn IHl] Hupdate
                  |timeOptions index value next _ [IHn IHl] Hupdate
                  |timeOptions index value next _ [IHn IHl] Hvalue Hupdate].
  - split; [simpl; lia|]. constructor; [|constructor]. unfold Labelled. simpl. auto.
  - unfold addTimeOption in Hadd.
    destruct (nth_error timeOptions (List.length timeOptions - 1)); [|discriminate].
    injection Hadd as <-. split.
    + rewrite length_app. simpl. lia.
    + apply Forall_app. split; [exact IHl|]. constructor; [|constructor].
      unfold Labelled. simpl. auto.
  - unfold removeTimeOption. destruct (Z.ltb_spec 1 (Z.of_nat (List.length timeOptions))).
    + split; [|apply filterWithIndex_Forall, IHl].
      pose proof (filterWithIndex_length index timeOptions 0). lia.
    + split; assumption.
  - apply updateTimeOption_Some in Hupdate. destruct Hupdate as (option & Hnth & ->).
    split; [rewrite assignAt_length; exact IHn|].
    apply assignAt_Forall; [|exact IHl].
    apply nth_error_In in Hnth. rewrite Forall_forall in IHl. exact (IHl _ Hnth).
  - apply updateTimeOption_Some in Hupdate. destruct Hupdate as (option & Hnth & ->).
    split; [rewrite assignAt_length; exact IHn|].
    apply assignAt_Forall; [|exact IHl].
    apply nth_error_In in Hnth. rewrite Forall_forall in IHl. exact (IHl _ Hnth).
  - apply updateTimeOption_Some in Hupdate. destruct Hupdate as (option & Hnth & ->).
    split; [rewrite assignAt_length; exact IHn|].
    apply assignAt_Forall; [exact Hvalue | exact IHl].
Qed.

(** X27. The rows of the create form stay usable.  Whatever the user does
    with the form's controls, starting from the single empty row, the
    form keeps at least one row, every row's own availability is one of
    the three labels, "Add Another Time Option" finds a last row to copy
    from and appends one "available" row, and the controls of a row that
    is shown never fail and never change the number of rows. *)
Theorem form_rows_stay_usable (timeOptions : list TimeOptionInput.t) :
  Edited getNextDay timeOptions ->
  timeOptions <> [] /\
  Forall (fun o => In (TimeOptionInput.availability o) Zod.statusLabels) timeOptions /\
  (exists added,
     addTimeOption getNextDay timeOptions = Some (timeOptions ++ [added]) /\
     TimeOptionInput.availability added = "available") /\
  (forall index, (index < List.length timeOptions)%nat ->
     removeTimeOption index timeOptions <> [] /\
     forall field value,
       exists next,
         updateTimeOption index field value timeOptions = Some next /\
         List.length next = List.length timeOptions).
Proof.
  intros Hedited. pose proof (Edited_invariant timeOptions Hedited) as [Hn Hl].
  split; [intros ->; simpl in Hn; lia|]. split; [exact Hl|]. split.
  - unfold addTimeOption.
    destruct (nth_error timeOptions (List.length timeOptions - 1)) as [lastOption|] eqn:E.
    + eexists. split; reflexivity.
    + apply nth_error_None in E. lia.
  - intros index Hindex. split.
    + pose proof (Edited_invariant _ (edited_remove getNextDay timeOptions index
                                        Hedited Hindex)) as [Hr _].
      intros E. rewrite E in Hr. simpl in Hr. lia.
    + intros field value. unfold updateTimeOption.
      destruct (nth_error timeOptions index) as [option|] eqn:E.
      * eexists. split; [reflexivity | apply assignAt_length].
      * apply nth_error_None in E. lia.
Qed.
End Rows.
End CreateEventRowsFacts.

(** * The extra properties on the example of the specification *)

Module Walkthrough.
Import Db Storage StorageFacts CreateEventFacts ParticipateFacts ServerFacts UtilsFacts.
Import Scenario.

Lemma created_reachable : Routes.reachable toLowerCase created.
Proof.
  unfold Routes.reachable, created.
  apply Routes.reachable_serve; [exact I | apply Routes.reachable_empty].
Qed.

Lemma bob_answer_reachable : Routes.reachable toLowerCase answered.
Proof.
  unfold Routes.reachable, answered.
  apply Routes.reachable_serve; [exact I | exact created_reachable].
Qed.

Lemma created_evolves : Routes.evolves toLowerCase created afterEve.
Proof.
  unfold afterEve. apply Routes.evolves_serve.
  change (database afterBob)
    with (database (snd (Routes.serve toLowerCase (Routes.PostParticipate shareId bobBody)
                           (mkWorld created [] 0)))).
  apply Routes.evolves_serve, Routes.evolves_refl.
Qed.

Lemma identifiers_unique_witness :
  Routes.reachable toLowerCase answeredTwice /\
  NoDup (map Event.id (events answeredTwice)) /\
  NoDup (map TimeOption.id (timeOptions answeredTwice)) /\
  NoDup (map Participant.id (participants answeredTwice)) /\
  NoDup (map Availability.id (availability answeredTwice)).
Proof.
  split; [exact answeredTwice_reachable|].
  destruct (StateFacts.identifiers_unique toLowerCase answeredTwice answeredTwice_reachable)
    as (He & Ho & Hp & Ha & _).
  exact (conj He (conj Ho (conj Hp Ha))).
Defined.

Lemma references_resolve_witness :
  Routes.reachable toLowerCase answeredTwice /\
  (forall o, In o (timeOptions answeredTwice) ->
     exists e, In e (events answeredTwice) /\ Event.id e = TimeOption.eventId o) /\
  (forall p, In p (participants answeredTwice) ->
     exists e, In e (events answeredTwice) /\ Event.id e = Participant.eventId p) /\
  (forall a, In a (availability answeredTwice) ->
     exists p, In p (participants answeredTwice) /\
               Participant.id p = Availability.participantId a).
Proof.
  split; [exact answeredTwice_reachable|].
  exact (StateFacts.references_resolve toLowerCase answeredTwice answeredTwice_reachable).
Defined.

Lemma rows_are_kept_witness :
  Routes.evolves toLowerCase created afterEve /\
  (exists added, events afterEve = events created ++ added) /\
  (exists added, timeOptions afterEve = timeOptions created ++ added) /\
  (exists added, participants afterEve = participants created ++ added).
Proof.
  split; [exact created_evolves|].
  exact (StateFacts.rows_are_kept toLowerCase created afterEve created_evolves).
Defined.

Lemma share_ids_stay_unique_witness :
  Routes.evolves toLowerCase created afterEve /\
  NoDup (map Event.shareId (events created)) /\
  NoDup (map Event.shareId (events afterEve)).
Proof.
  assert (NoDup (map Event.shareId (events created))) as Hd.
  { vm_compute. repeat constructor. intros []. }
  split; [exact created_evolves|]. split; [exact Hd|].
  exact (StateFacts.share_ids_stay_unique toLowerCase created afterEve created_evolves Hd).
Defined.



Definition eveMaybe : Availability.t := Availability.mk 4 2 1 "maybe".

Lemma statuses_stay_known_witness :
  Routes.evolves toLowerCase created afterEve /\
  In eveMaybe (availability afterEve) /\
  In (Availability.status eveMaybe) Zod.statusLabels.
Proof.
  assert (In eveMaybe (availability afterEve)) as Hin by (vm_compute; auto 6).
  split; [exact created_evolves|]. split; [exact Hin|].
  apply (StateFacts.statuses_stay_known toLowerCase created afterEve created_evolves);
    [|exact Hin].
  intros a [].
Defined.

Lemma status_codes_witness :
  let w := mkWorld created [true] 0 in
  fst (Routes.postEvent "Zx81kQ0p_a" lunchBody w) = badRequest /\
  fst (Routes.getEvent shareId w) = HandlerFacts.serverError /\
  fst (Routes.postParticipate toLowerCase shareId bobBody w) = badRequest.
Proof.
  intros w.
  pose proof (HandlerFacts.status_codes toLowerCase w) as H. cbv zeta in H.
  destruct H as (Hpost & Hget & Hparticipate).
  split; [|split].
  - exact (proj2 (Hpost "Zx81kQ0p_a" lunchBody) [] eq_refl).
  - exact (proj2 (Hget shareId) [] eq_refl).
  - exact (proj2 (Hparticipate shareId bobBody) [] eq_refl).
Defined.

Lemma participate_unknown_event_witness :
  let w := mkWorld created [] 0 in
  (forall e, In e (events created) -> Event.shareId e <> "0000000000") /\
  fst (Routes.postParticipate toLowerCase "0000000000" bobBody w) = notFound /\
  database (snd (Routes.postParticipate toLowerCase "0000000000" bobBody w)) = created.
Proof.
  intros w.
  assert (forall e, In e (events created) -> Event.shareId e <> "0000000000") as Hno.
  { intros e [<-|[]]. discriminate. }
  split; [exact Hno|].
  pose proof (HandlerFacts.participate_unknown_event toLowerCase "0000000000" bobBody w Hno)
    as H.
  cbv zeta in H. destruct H as (Hd & _ & Hanswer).
  split; [|exact Hd].
  apply Hanswer; [|reflexivity]. vm_compute. discriminate.
Defined.

Lemma unknown_status_is_rejected_witness :
  let w := mkWorld created [] 0 in
  ~ In "busy" Zod.statusLabels /\
  Routes.postParticipate toLowerCase shareId
    (participateBody "Bob" [answerBody 1 "available"; answerBody 2 "busy"]) w
  = (badRequest, w).
Proof.
  intros w.
  assert (~ In "busy" Zod.statusLabels) as Hno by (simpl; intuition discriminate).
  split; [exact Hno|].
  apply (HandlerFacts.unknown_status_is_rejected toLowerCase shareId
           [("participant", Zod.JObject [("name", Zod.JString "Bob")]);
            ("availability", Zod.JArray [answerBody 1 "available"; answerBody 2 "busy"])]
           [("timeOptionId", Zod.JNumber 2); ("status", Zod.JString "busy")]
           [answerBody 1 "available"; answerBody 2 "busy"] "busy" w).
  - reflexivity.
  - right; left; reflexivity.
  - reflexivity.
  - exact Hno.
Defined.

Lemma participate_touches_one_participant_witness :
  events (database afterBobAgain) = events afterEve /\
  timeOptions (database afterBobAgain) = timeOptions afterEve /\
  exists participantId,
    forall q, q <> participantId ->
      responsesBy (database afterBobAgain) q = responsesBy afterEve q.
Proof.
  unfold afterBobAgain.
  pose proof (HandlerFacts.participate_touches_one_participant toLowerCase shareId
                bobAgainBody (mkWorld afterEve [] 0)) as H.
  cbv zeta in H. cbn [database] in H. destruct H as (He & Ho & participantId & Hother & _).
  split; [exact He|]. split; [exact Ho|]. exists participantId. exact Hother.
Defined.

Definition dinnerId : string := "Zx81kQ0p_a".

Definition dinner : EventWithTimeOptions.t :=
  EventWithTimeOptions.mk (Event.mk 2 "Lunch" None "1 hour" dinnerId 5)
    [TimeOption.mk 3 2 "2024-06-01" "12:00" "13:00";
     TimeOption.mk 4 2 "2024-06-02" "12:00" "13:00"].

Definition afterDinner : World :=
  snd (Routes.postEvent dinnerId lunchBody (mkWorld answered [] 5)).

Lemma created_event_is_found_witness :
  Routes.reachable toLowerCase answered /\
  Routes.postEvent dinnerId lunchBody (mkWorld answered [] 5)
    = (Routes.res_json (Routes.CreatedEvent dinner), afterDinner) /\
  exists details,
    (forall n', fst (getEventByShareId dinnerId (mkWorld (database afterDinner) [] n'))
                = Ok (Some details)) /\
    EventWithDetails.event details = EventWithTimeOptions.event dinner /\
    Event.shareId (EventWithDetails.event details) = dinnerId /\
    map TimeOptionWithAvailability.timeOption (EventWithDetails.timeOptions details)
      = EventWithTimeOptions.timeOptions dinner /\
    EventWithDetails.participantCount details = 0.
Proof.
  assert (Routes.postEvent dinnerId lunchBody (mkWorld answered [] 5)
          = (Routes.res_json (Routes.CreatedEvent dinner), afterDinner)) as Hrun
    by (vm_compute; reflexivity).
  split; [exact bob_answer_reachable|]. split; [exact Hrun|].
  exact (HandlerFacts.created_event_is_found toLowerCase answered [] 5 dinnerId lunchBody
           dinner afterDinner bob_answer_reachable Hrun).
Defined.

Definition bobAnswers : list AvailabilityDraft.t :=
  [AvailabilityDraft.mk 1 "available"; AvailabilityDraft.mk 2 "maybe"].

Lemma bob_answered :
  Routes.postParticipate toLowerCase shareId bobBody (mkWorld created [] 0)
  = (Routes.res_json (Routes.Success 1), afterBob).
Proof. reflexivity. Qed.

Lemma submitted_statuses_are_shown_witness :
  Zod.participateRequestSchema (Some bobBody) = Some ("Bob", bobAnswers) /\
  Routes.postParticipate toLowerCase shareId bobBody (mkWorld created [] 0)
    = (Routes.res_json (Routes.Success 1), afterBob) /\
  exists details,
    (forall n', fst (getEventByShareId shareId (mkWorld (database afterBob) [] n'))
                = Ok (Some details)) /\
    Forall (fun o =>
              map ParticipantStatus.status
                (filter (fun s => ParticipantStatus.id s =? 1)
                   (TimeOptionWithAvailability.participants o))
              = map AvailabilityDraft.status
                  (filter (fun i => AvailabilityDraft.timeOptionId i
                                    =? TimeOptionWithAvailability.id o)
                     bobAnswers))
           (EventWithDetails.timeOptions details).
Proof.
  split; [reflexivity|]. split; [exact bob_answered|].
  exact (HandlerFacts.submitted_statuses_are_shown toLowerCase created [] 0 shareId bobBody
           "Bob" bobAnswers 1 afterBob eq_refl bob_answered).
Defined.

Lemma participant_count_after_submission_witness :
  Zod.participateRequestSchema (Some bobBody) = Some ("Bob", bobAnswers) /\
  Routes.postParticipate toLowerCase shareId bobBody (mkWorld created [] 0)
    = (Routes.res_json (Routes.Success 1), afterBob) /\
  exists before after,
    fst (getEventByShareId shareId (mkWorld created [] 0)) = Ok (Some before) /\
    fst (getEventByShareId shareId (mkWorld (database afterBob) [] 0)) = Ok (Some after) /\
    EventWithDetails.participantCount after
    = EventWithDetails.participantCount before
      + match find (Routes.sameName toLowerCase "Bob")
                (existingIn created (Event.id (EventWithDetails.event before))) with
        | Some _ => 0
        | None => 1
        end.
Proof.
  split; [reflexivity|]. split; [exact bob_answered|].
  exact (HandlerFacts.participant_count_after_submission toLowerCase created [] 0 shareId
           bobBody "Bob" bobAnswers 1 afterBob eq_refl bob_answered).
Defined.

Lemma getEvent_finds_by_id_witness :
  Routes.reachable toLowerCase created /\
  In lunchRow (events created) /\
  fst (Storage.getEvent 1 (mkWorld created [] 0)) = Ok (Some lunchRow).
Proof.
  assert (In lunchRow (events created)) as Hin by (left; reflexivity).
  split; [exact created_reachable|]. split; [exact Hin|].
  pose proof (HandlerFacts.getEvent_finds_by_id toLowerCase created [] 0 1 created_reachable)
    as H.
  cbv zeta in H. destruct H as [Hfound _].
  exact (proj2 (Hfound lunchRow Hin eq_refl) eq_refl).
Defined.

Lemma lunch_served :
  fst (getEventByShareId shareId (mkWorld answered [] 0))
  = Ok (Some (detailsOf answered lunchRow)).
Proof. reflexivity. Qed.

Lemma summary_agrees_with_server_witness :
  fst (getEventByShareId shareId (mkWorld answered [] 0))
    = Ok (Some (detailsOf answered lunchRow)) /\
  Forall (fun o =>
            let s := OptionWithStats.stats (EventView.withStats o) in
            let c := TimeOptionWithAvailability.availabilityCount o in
            AvailabilityCount.available s = AvailabilityCount.available c /\
            AvailabilityCount.maybe s = AvailabilityCount.maybe c /\
            AvailabilityCount.unavailable s = AvailabilityCount.unavailable c /\
            (Forall KnownStatus (availability answered) ->
             AvailabilityCount.total s = AvailabilityCount.total c))
         (EventWithDetails.timeOptions (detailsOf answered lunchRow)).
Proof.
  split; [exact lunch_served|].
  exact (EventViewFacts.summary_agrees_with_server answered [] 0 shareId _ lunch_served).
Defined.

Lemma summary_starts_with_recommended_witness :
  fst (getEventByShareId shareId (mkWorld answered [] 0))
    = Ok (Some (detailsOf answered lunchRow)) /\
  exists rest,
    map (fun r => TimeOptionWithAvailability.id (OptionWithStats.option r))
      (EventView.calculateSummaryStats
         (EventWithDetails.timeOptions (detailsOf answered lunchRow)))
    = Utils.getBestTimeSlotIds (EventWithDetails.timeOptions (detailsOf answered lunchRow))
      ++ rest.
Proof.
  split; [exact lunch_served|].
  exact (EventViewFacts.summary_starts_with_recommended answered [] 0 shareId _ lunch_served).
Defined.

Lemma best_slot_and_first_row_witness :
  fst (getEventByShareId shareId (mkWorld answered [] 0))
    = Ok (Some (detailsOf answered lunchRow)) /\
  EventWithDetails.timeOptions (detailsOf answered lunchRow) <> [] /\
  exists best top,
    Utils.getBestTimeSlot (EventWithDetails.timeOptions (detailsOf answered lunchRow))
      = Some best /\
    hd_error (EventView.calculateSummaryStats
                (EventWithDetails.timeOptions (detailsOf answered lunchRow))) = Some top /\
    OptionWithStats.available top = Utils.available best /\
    (forall o, In o (EventWithDetails.timeOptions (detailsOf answered lunchRow)) ->
               Utils.available o <= Utils.available best) /\
    Utils.maybe best <= OptionWithStats.maybe top.
Proof.
  assert (EventWithDetails.timeOptions (detailsOf answered lunchRow) <> []) as Hne
    by (vm_compute; discriminate).
  split; [exact lunch_served|]. split; [exact Hne|].
  exact (EventViewFacts.best_slot_and_first_row answered [] 0 shareId _ lunch_served Hne).
Defined.

(** Eve clicks "maybe" on the first option and leaves the second alone. *)
Definition eveSelection : ParticipatePage.Selection :=
  ParticipatePage.setTimeOptionAvailability 1 "maybe" ParticipatePage.noSelection.

Lemma eveSelection_clicked : ParticipatePage.Clicked eveSelection.
Proof.
  apply ParticipatePage.clicked_button; [simpl; auto | apply ParticipatePage.clicked_nothing].
Qed.

Lemma page_payload_covers_each_option_once_witness :
  Routes.reachable toLowerCase answered /\
  fst (getEventByShareId shareId (mkWorld answered [] 0))
    = Ok (Some (detailsOf answered lunchRow)) /\
  exists items,
    ParticipatePage.onSubmit (Some (detailsOf answered lunchRow)) eveSelection "Eve"
      = Some ("Eve", items) /\
    map AvailabilityDraft.timeOptionId items
      = map TimeOptionWithAvailability.id
          (EventWithDetails.timeOptions (detailsOf answered lunchRow)) /\
    NoDup (map AvailabilityDraft.timeOptionId items).
Proof.
  split; [exact bob_answer_reachable|]. split; [exact lunch_served|].
  destruct (ParticipatePageFacts.page_payload_covers_each_option_once toLowerCase answered
              [] 0 shareId _ eveSelection "Eve" bob_answer_reachable lunch_served)
    as (items & Hsubmit & Hids & Hnd & _).
  exists items. exact (conj Hsubmit (conj Hids Hnd)).
Defined.

Lemma page_submission_is_stored_witness :
  Routes.reachable toLowerCase answered /\
  fst (getEventByShareId shareId (mkWorld answered [] 0))
    = Ok (Some (detailsOf answered lunchRow)) /\
  ParticipatePage.Clicked eveSelection /\
  exists data participantId d',
    ParticipatePage.onSubmit (Some (detailsOf answered lunchRow)) eveSelection "Eve"
      = Some data /\
    Zod.participateRequestSchema (Some (ParticipatePage.requestBody data)) = Some data /\
    Routes.postParticipate toLowerCase shareId (ParticipatePage.requestBody data)
        (mkWorld answered [] 0)
      = (Routes.res_json (Routes.Success participantId), mkWorld d' [] 0) /\
    map draftOfResponse (responsesBy d' participantId) = snd data /\
    map Availability.timeOptionId (responsesBy d' participantId)
      = map TimeOptionWithAvailability.id
          (EventWithDetails.timeOptions (detailsOf answered lunchRow)).
Proof.
  split; [exact bob_answer_reachable|]. split; [exact lunch_served|].
  split; [exact eveSelection_clicked|].
  exact (ParticipatePageFacts.page_submission_is_stored toLowerCase answered 0 shareId _
           eveSelection "Eve" bob_answer_reachable lunch_served eveSelection_clicked).
Defined.

(** The end time of the form, from the model of [calculateEndTime]. *)
Definition endTime (startTime duration : string) : string :=
  match ClientTime.calculateEndTime startTime duration with
  | Some result => result
  | None => EmptyString
  end.

Definition lunchForm : FormData.t := FormData.mk "Lunch" None "1 hour" "Ann".

(** Three rows of the form, the second one left empty. *)
Definition lunchRows : list TimeOptionInput.t :=
  [TimeOptionInput.mk "2024-06-01" "12:00" "available";
   TimeOptionInput.mk "" "" "maybe";
   TimeOptionInput.mk "2024-06-02" "23:30" "maybe"].

Definition lunchRequest : FormData.t * list TimeOptionWithEndTime.t :=
  (lunchForm,
   [TimeOptionWithEndTime.mk "2024-06-01" "12:00" "available" "13:00";
    TimeOptionWithEndTime.mk "2024-06-02" "23:30" "maybe" "00:30"]).

Lemma lunchForm_submitted :
  CreateEventPage.onSubmit endTime lunchForm lunchRows = Some lunchRequest.
Proof. reflexivity. Qed.

Lemma onSubmit_sends_complete_options_witness :
  CreateEventPage.onSubmit endTime lunchForm lunchRows = Some lunchRequest /\
  snd lunchRequest <> [] /\
  Zod.createEventRequestSchema (Some (CreateEventPage.requestBody lunchRequest))
    = Some (CreateEventPageFacts.insertOfForm lunchForm,
            map CreateEventPageFacts.draftOfOption (snd lunchRequest)).
Proof.
  split; [exact lunchForm_submitted|].
  pose proof (CreateEventPageFacts.onSubmit_sends_complete_options endTime lunchForm lunchRows)
    as H.
  cbv zeta in H. rewrite lunchForm_submitted in H.
  destruct H as (Hne & _ & _ & _ & Hparse). exact (conj Hne Hparse).
Defined.

Definition lunchCreated : EventWithTimeOptions.t :=
  EventWithTimeOptions.mk (Event.mk 1 "Lunch" None "1 hour" shareId 7)
    [TimeOption.mk 1 1 "2024-06-01" "12:00" "13:00";
     TimeOption.mk 2 1 "2024-06-02" "23:30" "00:30"].

Definition afterLunchForm : World :=
  snd (Routes.postEvent shareId (CreateEventPage.requestBody lunchRequest)
         (mkWorld Db.empty [] 7)).

Lemma organizer_answer_is_stored_witness :
  Forall (fun o => In (TimeOptionInput.availability o) Zod.statusLabels) lunchRows /\
  CreateEventPage.onSubmit endTime lunchForm lunchRows = Some lunchRequest /\
  Routes.postEvent shareId (CreateEventPage.requestBody lunchRequest) (mkWorld Db.empty [] 7)
    = (Routes.res_json (Routes.CreatedEvent lunchCreated), afterLunchForm) /\
  exists payload participantId d2,
    CreateEventPage.availabilityData (EventWithTimeOptions.timeOptions lunchCreated)
      (snd lunchRequest) 0 = Some payload /\
    map AvailabilityDraft.status payload = ["available"; "maybe"] /\
    Routes.postParticipate toLowerCase shareId
        (ParticipatePage.requestBody ("Ann", payload))
        (mkWorld (database afterLunchForm) [] 9)
      = (Routes.res_json (Routes.Success participantId), mkWorld d2 [] 9) /\
    map draftOfResponse (responsesBy d2 participantId) = payload.
Proof.
  assert (Forall (fun o => In (TimeOptionInput.availability o) Zod.statusLabels) lunchRows)
    as Hlabels by (repeat constructor; simpl; auto).
  assert (Routes.postEvent shareId (CreateEventPage.requestBody lunchRequest)
            (mkWorld Db.empty [] 7)
          = (Routes.res_json (Routes.CreatedEvent lunchCreated), afterLunchForm))
    as Hrun by reflexivity.
  split; [exact Hlabels|]. split; [exact lunchForm_submitted|]. split; [exact Hrun|].
  destruct (CreateEventPageFacts.organizer_answer_is_stored toLowerCase endTime Db.empty []
              7 9 shareId lunchForm lunchRows lunchRequest lunchCreated afterLunchForm
              Hlabels lunchForm_submitted Hrun)
    as (payload & participantId & d2 & Hdata & _ & Hstatus & _ & Hpost & Hstored).
  exists payload, participantId, d2.
  exact (conj Hdata (conj Hstatus (conj Hpost Hstored))).
Defined.

Lemma calculateEndTime_adds_duration_witness :
  0 <= 23 < 24 /\ 0 <= 30 < 60 /\ In ("2 hours", 120) ClientTimeFacts.minuteDurations /\
  ClientTime.calculateEndTime "23:30" "2 hours" = Some "01:30".
Proof.
  assert (0 <= 23 < 24) as Hh by lia. assert (0 <= 30 < 60) as Hm by lia.
  assert (In ("2 hours", 120) ClientTimeFacts.minuteDurations) as Hd
    by (right; right; right; left; reflexivity).
  split; [exact Hh|]. split; [exact Hm|]. split; [exact Hd|].
  pose proof (ClientTimeFacts.calculateEndTime_adds_duration 23 30 "2 hours" 120 Hh Hm Hd)
    as H.
  cbv zeta in H. exact (proj1 H).
Defined.

Lemma formatTime_twelve_hour_clock_witness :
  0 <= 15 < 24 /\ 0 <= 5 < 60 /\ ClientTime.formatTime "15:05" = Some "3:05 PM".
Proof.
  assert (0 <= 15 < 24) as Hh by lia. assert (0 <= 5 < 60) as Hm by lia.
  split; [exact Hh|]. split; [exact Hm|].
  exact (proj1 (ClientTimeFacts.formatTime_twelve_hour_clock 15 5 Hh Hm)).
Defined.

Lemma calculateEndTime_without_arithmetic_witness :
  ClientTime.calculateEndTime "12:00" "3 days" = Some "Multi-day" /\
  ClientTime.calculateEndTime "12:00" "All day" = Some "23:59" /\
  ClientTime.calculateEndTime "12:00" "a while" = Some EmptyString.
Proof.
  assert ("12:00" <> "") as Hs by discriminate.
  split; [|split].
  - exact (proj1 (proj2 (ClientTimeFacts.calculateEndTime_without_arithmetic "12:00" "3 days")
                    Hs) eq_refl).
  - exact (proj1 (proj2 (proj2 (ClientTimeFacts.calculateEndTime_without_arithmetic
                                  "12:00" "All day") Hs)) eq_refl).
  - apply (proj2 (proj2 (proj2 (ClientTimeFacts.calculateEndTime_without_arithmetic
                                  "12:00" "a while") Hs))).
    + simpl. intuition discriminate.
    + discriminate.
    + reflexivity.
Defined.

(** Two rows: the first one dated, the second one added and set to
    "maybe". *)
Definition nextDay (dateString : string) : string := "2024-06-02".

Definition editedRows : list TimeOptionInput.t :=
  [TimeOptionInput.mk "2024-06-01" "" "available";
   TimeOptionInput.mk "2024-06-02" "" "maybe"].

Lemma editedRows_edited : CreateEventRows.Edited nextDay editedRows.
Proof.
  apply (CreateEventRows.edited_availability nextDay
           [TimeOptionInput.mk "2024-06-01" "" "available";
            TimeOptionInput.mk "2024-06-02" "" "available"] 1%nat "maybe");
    [|simpl; auto | reflexivity].
  apply (CreateEventRows.edited_add nextDay [TimeOptionInput.mk "2024-06-01" "" "available"]);
    [|reflexivity].
  apply (CreateEventRows.edited_date nextDay CreateEventRows.initialTimeOptions 0%nat
           "2024-06-01"); [|reflexivity].
  apply CreateEventRows.edited_initial.
Qed.

Lemma form_rows_stay_usable_witness :
  CreateEventRows.Edited nextDay editedRows /\
  editedRows <> [] /\
  Forall (fun o => In (TimeOptionInput.availability o) Zod.statusLabels) editedRows /\
  exists added,
    CreateEventRows.addTimeOption nextDay editedRows = Some (editedRows ++ [added]) /\
    TimeOptionInput.availability added = "available".
Proof.
  split; [exact editedRows_edited|].
  destruct (CreateEventRowsFacts.form_rows_stay_usable nextDay editedRows editedRows_edited)
    as (Hne & Hlabels & Hadd & _).
  exact (conj Hne (conj Hlabels Hadd)).
Defined.
End Walkthrough.
